(** * MCP calendar server: the JSON-RPC router and the calendar tools

    A shallow embedding of the two servers of the repository:
    - [Memory]: the in-memory server (the unnamed source file), whose event
      store is the module-level array [events];
    - [Google]: [server.js], whose store is the Google Calendar API, reached
      only once [isAuthenticated] holds.

    What the JavaScript runtime and the calendar provider decide is not code
    of the repository. The clock and [uuidv4] enter the model as the readings
    handed to a call ([Memory.Env]); [Date.parse], the numeric reading of a
    string, the numeral of a Number beyond 2^53 and the Unicode case mapping
    as the fields of [JS.Runtime]; the provider's answers, and what its client
    writes to the credentials it is handed, as [Google.Provider]. Every
    statement holds for all of them; [Iso] and [Sample] give the ones the
    examples run on. *)

From Stdlib Require Import ZArith Lia Sorted.
From stdpp Require Import base list strings pretty.

Set Warnings "-register-all".
Local Open Scope string_scope.
Local Open Scope list_scope.

(** ** JavaScript values and the operators the servers use on them *)

Module JS.

(** A decoded JSON value, plus [undefined] (what reading an absent property
    gives). Numbers are the integral ones: [Num n] is the Number that the
    numeral of the integer [n] is read as. An object is the list of its
    properties, each name once; a lookup takes the first entry of a name. *)
Inductive Value : Type :=
| Undefined
| Null
| Boolean (b : bool)
| Num (n : Z)
| Str (s : string)
| Arr (elems : list Value)
| Obj (props : list (string * Value)).

(** A thrown exception; both kinds carry the text of their [message]
    property. [TypeError]s are raised by the runtime, [Error]s by
    [throw new Error(...)] in the source. *)
Inductive JSError : Type :=
| Error (msg : string)
| TypeError (msg : string).

Definition message (e : JSError) : string :=
  match e with Error m => m | TypeError m => m end.

(** Outcome of evaluating an expression or a function body. *)
Inductive Completion (A : Type) : Type :=
| Normal (a : A)
| Throw (e : JSError).
Arguments Normal {A} a.
Arguments Throw {A} e.

(** [ToBoolean]: the falsy values are undefined, null, false, 0 and the
    empty string; arrays and objects are always truthy. *)
Definition truthy (v : Value) : bool :=
  match v with
  | Undefined | Null => false
  | Boolean b => b
  | Num n => negb (n =? 0)%Z
  | Str s => negb (String.eqb s "")
  | Arr _ | Obj _ => true
  end.

(** [a || b] *)
Definition or_else (a b : Value) : Value := if truthy a then a else b.

Fixpoint assoc (k : string) (props : list (string * Value)) : Value :=
  match props with
  | [] => Undefined
  | (k', v) :: rest => if String.eqb k k' then v else assoc k rest
  end.

(** [v.k] for the property names the source reads (none of them is
    inherited from a prototype). On undefined and null the runtime throws;
    arrays and strings own [length]; nothing else is found on a primitive or
    an array. *)
Definition get (v : Value) (k : string) : Completion Value :=
  match v with
  | Undefined =>
      Throw (TypeError ("Cannot read properties of undefined (reading '" +:+ k +:+ "')"))
  | Null =>
      Throw (TypeError ("Cannot read properties of null (reading '" +:+ k +:+ "')"))
  | Obj props => Normal (assoc k props)
  | Arr l => Normal (if String.eqb k "length" then Num (Z.of_nat (length l)) else Undefined)
  | Str s => Normal (if String.eqb k "length" then Num (Z.of_nat (String.length s)) else Undefined)
  | Boolean _ | Num _ => Normal Undefined
  end.

(** [v] is undefined or null: the values with no properties to read. *)
Definition nullish (v : Value) : bool :=
  match v with Undefined | Null => true | _ => false end.

(** The value [v.k] has when reading it does not throw. *)
Definition field (v : Value) (k : string) : Value :=
  match get v k with Normal x => x | Throw _ => Undefined end.


(** [obj.k = x] on a property list: the property is replaced where it
    stands, or added last. *)
Fixpoint set_prop (k : string) (x : Value) (props : list (string * Value))
  : list (string * Value) :=
  match props with
  | [] => [(k, x)]
  | (k', v) :: rest =>
      if String.eqb k k' then (k, x) :: rest else (k', v) :: set_prop k x rest
  end.

(** [a === s] against a string: only a string with the same characters is
    strictly equal to it. *)
Definition strict_eq_str (a : Value) (s : string) : bool :=
  match a with Str s' => String.eqb s' s | _ => false end.

(** The one-character string holding a double quote. *)
Definition dquote : string := String (Ascii.ascii_of_nat 34) EmptyString.

Fixpoint join (sep : string) (l : list string) : string :=
  match l with
  | [] => ""
  | [x] => x
  | x :: rest => x +:+ sep +:+ join sep rest
  end.

(** A primitive value: what a conversion of an array or object ends in, and
    what an environment variable holds. *)
Inductive Primitive : Type :=
| PUndefined
| PNull
| PBoolean (b : bool)
| PNumber (n : Z)
| PString (s : string).

Definition of_primitive (p : Primitive) : Value :=
  match p with
  | PUndefined => Undefined
  | PNull => Null
  | PBoolean b => Boolean b
  | PNumber n => Num n
  | PString s => Str s
  end.

(** The object owns a property named [k]. *)
Definition has_own (k : string) (props : list (string * Value)) : bool :=
  existsb (fun kv => String.eqb k (fst kv)) props.

(** The result of [ToIntegerOrInfinity]. *)
Inductive IntegerOrInfinity : Type :=
| Int (z : Z)
| PosInf
| NegInf.

(** [String.prototype.toLowerCase] on a character of the ASCII range. *)
Definition lower_ascii (c : Ascii.ascii) : Ascii.ascii :=
  let n := Ascii.nat_of_ascii c in
  if (65 <=? n)%nat && (n <=? 90)%nat then Ascii.ascii_of_nat (n + 32) else c.

Fixpoint lower (s : string) : string :=
  match s with
  | EmptyString => EmptyString
  | String c rest => String (lower_ascii c) (lower rest)
  end.

(** The string holds ASCII characters only (bytes below 128). *)
Fixpoint is_ascii (s : string) : bool :=
  match s with
  | EmptyString => true
  | String c rest => (Ascii.nat_of_ascii c <? 128)%nat && is_ascii rest
  end.

(** What the runtime, not the repository, defines. *)
Class Runtime : Type := {
  (** [Date.parse] on a string; [None] is NaN (an Invalid Date). *)
  DateParse : string -> option Z;
  (** [ToIntegerOrInfinity(StringToNumber(s))] *)
  StringToIntegerOrInfinity : string -> IntegerOrInfinity;
  (** whether [StringToNumber(s) > 0] *)
  StringIsPositive : string -> bool;
  (** [s.toLowerCase()]: the Unicode case mapping, which on ASCII text is
      [lower]. *)
  toLowerCase : string -> string;
  toLowerCase_ascii : forall s, is_ascii s = true -> toLowerCase s = lower s;
  (** [Number::toString] on an integral Number: its decimal numeral up to
      2^53; beyond, the shortest digits that read back as the same Number,
      in exponent notation from 10^21 on. *)
  NumberToString : Z -> string;
  NumberToString_safe :
    forall n, (Z.abs n <= 9007199254740992)%Z -> NumberToString n = pretty n
}.

Section WithRuntime.
Context `{Runtime}.

(** [ToString] on a primitive, which cannot throw. *)
Definition PrimitiveToString (p : Primitive) : string :=
  match p with
  | PUndefined => "undefined"
  | PNull => "null"
  | PBoolean true => "true"
  | PBoolean false => "false"
  | PNumber n => NumberToString n
  | PString s => s
  end.

(** [ToString], as a template literal applies it. An array is joined, its
    elements converted in turn (undefined and null to the empty string). An
    object is converted by its [toString] method: the inherited one answers
    [[object Object]]; a decoded JSON object that owns a property of that
    name has no method there, nor a [valueOf] that answers with a primitive,
    and the conversion throws. *)
Fixpoint ToString (v : Value) : Completion string :=
  match v with
  | Undefined => Normal "undefined"
  | Null => Normal "null"
  | Boolean true => Normal "true"
  | Boolean false => Normal "false"
  | Num n => Normal (NumberToString n)
  | Str s => Normal s
  | Arr l =>
      match
        (fix elements (l : list Value) : Completion (list string) :=
           match l with
           | [] => Normal []
           | x :: rest =>
               match match x with
                     | Undefined | Null => Normal ""
                     | _ => ToString x
                     end with
               | Throw e => Throw e
               | Normal s =>
                   match elements rest with
                   | Throw e => Throw e
                   | Normal ss => Normal (s :: ss)
                   end
               end
           end) l
      with
      | Throw e => Throw e
      | Normal ss => Normal (join "," ss)
      end
  | Obj props =>
      if has_own "toString" props
      then Throw (TypeError "Cannot convert object to primitive value")
      else Normal "[object Object]"
  end.

(** The elements of an array, converted for [join]. *)
Definition elements : list Value -> Completion (list string) :=
  fix elements (l : list Value) : Completion (list string) :=
    match l with
    | [] => Normal []
    | x :: rest =>
        match match x with
              | Undefined | Null => Normal ""
              | _ => ToString x
              end with
        | Throw e => Throw e
        | Normal s =>
            match elements rest with
            | Throw e => Throw e
            | Normal ss => Normal (s :: ss)
            end
        end
    end.

(** The value can be converted to a primitive: it is not an object that
    owns a [toString] property, nor an array that holds one at any depth. *)
Definition converts (v : Value) : bool :=
  match ToString v with Normal _ => true | Throw _ => false end.

(** [ToIntegerOrInfinity(v)], as [Array.prototype.slice] applies it to its
    bounds; NaN becomes 0. Arrays and objects go through [ToPrimitive], which
    for decoded JSON ends in their [ToString]. *)
Definition ToIntegerOrInfinity (v : Value) : Completion IntegerOrInfinity :=
  match v with
  | Undefined => Normal (Int 0)
  | Null => Normal (Int 0)
  | Boolean b => Normal (Int (if b then 1 else 0))
  | Num n => Normal (Int n)
  | Str s => Normal (StringToIntegerOrInfinity s)
  | Arr _ | Obj _ =>
      match ToString v with
      | Throw e => Throw e
      | Normal s => Normal (StringToIntegerOrInfinity s)
      end
  end.

(** [v > 0] *)
Definition greater_than_zero (v : Value) : Completion bool :=
  match v with
  | Undefined | Null => Normal false
  | Boolean b => Normal b
  | Num n => Normal (0 <? n)%Z
  | Str s => Normal (StringIsPositive s)
  | Arr _ | Obj _ =>
      match ToString v with
      | Throw e => Throw e
      | Normal s => Normal (StringIsPositive s)
      end
  end.

(** [arr.slice(0, end)]: an undefined [end] is the length; a negative one
    counts from the end. *)
Definition slice0 {A} (arr : list A) (end_ : Value) : Completion (list A) :=
  match end_ with
  | Undefined => Normal arr
  | _ =>
      match ToIntegerOrInfinity end_ with
      | Throw e => Throw e
      | Normal (Int z) =>
          Normal (if (z <? 0)%Z
                  then take (Z.to_nat (Z.max (Z.of_nat (length arr) + z) 0)) arr
                  else take (Z.to_nat z) arr)
      | Normal PosInf => Normal arr
      | Normal NegInf => Normal []
      end
  end.

(** [TimeClip]: a time value beyond 8.64e15 ms is NaN. *)
Definition TimeClip (t : Z) : option Z :=
  if (Z.abs t <=? 8640000000000000)%Z then Some t else None.

(** The time value of [new Date(v)]; [None] is NaN. *)
Definition newDate (v : Value) : Completion (option Z) :=
  match v with
  | Undefined => Normal None
  | Null => Normal (Some 0%Z)
  | Boolean b => Normal (Some (if b then 1 else 0)%Z)
  | Num n => Normal (TimeClip n)
  | Str s => Normal (DateParse s)
  | Arr _ | Obj _ =>
      match ToString v with
      | Throw e => Throw e
      | Normal s => Normal (DateParse s)
      end
  end.

(** The instant [new Date(v)] denotes, when it denotes one: [None] is an
    Invalid Date, or a [v] that cannot be converted. *)
Definition instant (v : Value) : option Z :=
  match newDate v with Normal t => t | Throw _ => None end.

(** [a >= b] on two dates: false as soon as one side is NaN. *)
Definition date_ge (a b : option Z) : bool :=
  match a, b with
  | Some x, Some y => (y <=? x)%Z
  | _, _ => false
  end.

(** [a <= b] on two dates. *)
Definition date_le (a b : option Z) : bool :=
  match a, b with
  | Some x, Some y => (x <=? y)%Z
  | _, _ => false
  end.

End WithRuntime.

(** [f] applied to what an expression evaluates to. *)
Definition cmap {A B} (f : A -> B) (c : Completion A) : Completion B :=
  match c with Normal a => Normal (f a) | Throw e => Throw e end.

Fixpoint prefix_of (p s : string) : bool :=
  match p, s with
  | EmptyString, _ => true
  | String a p', String b s' => if Ascii.eqb a b then prefix_of p' s' else false
  | String _ _, EmptyString => false
  end.

(** [s.includes(q)] *)
Fixpoint includes (s q : string) : bool :=
  prefix_of q s ||
  match s with
  | EmptyString => false
  | String _ s' => includes s' q
  end.

End JS.

(** ** The JSON-RPC envelope helpers (the same text in both servers) *)

Module JsonRpc.
Import JS.

(** The [error] member of a response. *)
Record ErrorObject : Type := {
  code : Z;
  error_message : string;
  data : Value
}.

(** A response envelope; [R] is what a [result] can hold. The member that
    [createResponse] does not assign is absent ([None]). *)
Record Response (R : Type) : Type := {
  jsonrpc : string;
  id : Value;
  result : option R;
  error : option ErrorObject
}.
Arguments jsonrpc {R} _.
Arguments id {R} _.
Arguments result {R} _.
Arguments error {R} _.

(** [createResponse(id, result = null, error = null)]: an error object is
    always truthy, so [if (error)] tests its presence; [null_result] is the
    [null] that [createError] passes as [result]. *)
Definition createResponse {R} (id : Value) (result : R) (error : option ErrorObject)
  : Response R :=
  match error with
  | Some e => {| jsonrpc := "2.0"; id := id; result := None; error := Some e |}
  | None => {| jsonrpc := "2.0"; id := id; result := Some result; error := None |}
  end.

(** [createError(id, code, message, data = null)]: the default replaces an
    omitted (undefined) [data]. *)
Definition createError {R} (null_result : R) (id : Value) (code : Z)
    (message : string) (data : Value) : Response R :=
  createResponse id null_result
    (Some {| code := code;
             error_message := message;
             data := match data with Undefined => Null | d => d end |}).

(** An entry of [TOOLS]: its name, its description, and the property names
    and the [required] list of its [inputSchema]. *)
Record ToolDefinition : Type := {
  name : string;
  tool_description : string;
  properties : list string;
  required : list string
}.

(** [SERVER_INFO] *)
Record ServerInfo : Type := {
  server_name : string;
  version : string;
  server_description : string;
  protocolVersion : string
}.

End JsonRpc.

(** ** Function bodies that read and write module-level state and may throw *)

Module Eff.
Import JS.

(** A body run from state [s]: how it completes, and the state it leaves.
    A mutation made before a [throw] stays made. *)
Definition M (S A : Type) : Type := S -> Completion A * S.

Definition ret {S A} (a : A) : M S A := fun s => (Normal a, s).

Definition throw {S A} (e : JSError) : M S A := fun s => (Throw e, s).

Definition bind {S A B} (m : M S A) (k : A -> M S B) : M S B :=
  fun s =>
    match m s with
    | (Normal a, s') => k a s'
    | (Throw e, s') => (Throw e, s')
    end.

(** An expression that does not touch the state. *)
Definition lift {S A} (c : Completion A) : M S A := fun s => (c, s).

Definition read {S} : M S S := fun s => (Normal s, s).

Definition write {S} (s' : S) : M S unit := fun _ => (Normal tt, s').

End Eff.

Declare Scope eff_scope.
Delimit Scope eff_scope with eff.
Notation "x <- m ;; k" := (Eff.bind m (fun x => k))
  (at level 100, m at next level, right associativity) : eff_scope.
Notation "m ;;; k" := (Eff.bind m (fun _ => k))
  (at level 100, right associativity) : eff_scope.

(** ** The in-memory server *)

Module Memory.
Import JS JsonRpc Eff.
Local Open Scope eff_scope.

(** An element of [events]. The required fields hold whatever the caller
    sent, [undefined] included. [created_at] and [updated_at] hold the string
    [new Date(t).toISOString()], kept here as its time value [t] in
    milliseconds; [updated_at] is absent until the first update. *)
Record Event : Type := {
  id : string;
  title : Value;
  description : Value;
  start_time : Value;
  end_time : Value;
  location : Value;
  attendees : Value;
  created_at : Z;
  updated_at : option Z
}.

(** What the runtime hands to one call: the time value of [new Date()] and
    the string [uuidv4()] returns. *)
Record Env : Type := {
  now : Z;
  uuid : string
}.

(** The objects the tools return: [content[0].text] and the payload. *)
Inductive ToolResult : Type :=
| EventResult (text : string) (event : Event)
| EventsResult (text : string) (events : list Event)
| DeletedResult (text : string) (deleted_event_id : Value).

(** What [result] holds in a response of this server. *)
Inductive Result : Type :=
| ResultNull
| ResultInitialize (protocol : string) (serverInfo : ServerInfo)
| ResultEmpty
| ResultTools (tools : list ToolDefinition)
| ResultCall (r : ToolResult).

Definition SERVER_INFO : ServerInfo :=
  {| server_name := "calendar-server";
     version := "1.0.0";
     server_description := "Calendar management server with MCP support";
     protocolVersion := "2024-11-05" |}.

Definition TOOLS : list ToolDefinition :=
  [ {| name := "create_event";
       tool_description := "Create a new calendar event";
       properties := ["title"; "description"; "start_time"; "end_time"; "location"; "attendees"];
       required := ["title"; "start_time"; "end_time"] |};
    {| name := "list_events";
       tool_description := "List calendar events with optional filtering";
       properties := ["start_date"; "end_date"; "limit"];
       required := [] |};
    {| name := "get_event";
       tool_description := "Get details of a specific event";
       properties := ["event_id"];
       required := ["event_id"] |};
    {| name := "update_event";
       tool_description := "Update an existing calendar event";
       properties := ["event_id"; "title"; "description"; "start_time"; "end_time"; "location"; "attendees"];
       required := ["event_id"] |};
    {| name := "delete_event";
       tool_description := "Delete a calendar event";
       properties := ["event_id"];
       required := ["event_id"] |};
    {| name := "search_events";
       tool_description := "Search events by title or description";
       properties := ["query"; "limit"];
       required := ["query"] |} ].

(** The module-level [let events = []]. *)
Abbreviation Store := (list Event).

(** [events.findIndex(p)]; [None] is -1. *)
Fixpoint findIndex (p : Event -> bool) (events : Store) : option nat :=
  match events with
  | [] => None
  | e :: rest => if p e then Some 0%nat else S <$> findIndex p rest
  end.

(** [arr.filter(p)] for a callback that may throw: the first throw ends it. *)
Fixpoint filterC {A} (p : A -> Completion bool) (arr : list A) : Completion (list A) :=
  match arr with
  | [] => Normal []
  | x :: rest =>
      match p x with
      | Throw e => Throw e
      | Normal b =>
          match filterC p rest with
          | Throw e => Throw e
          | Normal kept => Normal (if b then x :: kept else kept)
          end
      end
  end.

Section Tools.
Context `{Runtime}.

(** [createEvent(args)]. The object literal is evaluated top to bottom:
    [uuidv4()] is called before [args.title] is read. *)
Definition createEvent (env : Env) (args : Value) : M Store ToolResult :=
  let id_ := uuid env in
  title_ <- lift (get args "title") ;;
  description_ <- lift (get args "description") ;;
  start_time_ <- lift (get args "start_time") ;;
  end_time_ <- lift (get args "end_time") ;;
  location_ <- lift (get args "location") ;;
  attendees_ <- lift (get args "attendees") ;;
  let event :=
    {| id := id_;
       title := title_;
       description := or_else description_ (Str "");
       start_time := start_time_;
       end_time := end_time_;
       location := or_else location_ (Str "");
       attendees := or_else attendees_ (Arr []);
       created_at := now env;
       updated_at := None |} in
  events <- read ;;
  write (events ++ [event])%list ;;;
  ret (EventResult ("Event created successfully with ID: " +:+ id event) event).

(** The callback [event => new Date(event.start_time) >= bound] (or [<=])
    of the filters of [listEvents]; [bound] is the time value of the date
    built before the filter runs. *)
Definition starts (compare : option Z -> option Z -> bool) (bound : option Z)
    (event : Event) : Completion bool :=
  cmap (fun t => compare t bound) (newDate (start_time event)).

(** [listEvents(args)]. [new Date(v)] and [slice(0, limit)] convert their
    argument, which throws on a value that cannot be converted. *)
Definition listEvents (args : Value) : M Store ToolResult :=
  events <- read ;;
  start_date <- lift (get args "start_date") ;;
  filteredEvents <-
    (if truthy start_date
     then
       startDate <- lift (newDate start_date) ;;
       lift (filterC (starts date_ge startDate) events)
     else ret events) ;;
  end_date <- lift (get args "end_date") ;;
  filteredEvents <-
    (if truthy end_date
     then
       endDate <- lift (newDate end_date) ;;
       lift (filterC (starts date_le endDate) filteredEvents)
     else ret filteredEvents) ;;
  limit_ <- lift (get args "limit") ;;
  let limit := or_else limit_ (Num 10) in
  limitedEvents <- lift (slice0 filteredEvents limit) ;;
  ret (EventsResult ("Found " +:+ pretty (length limitedEvents) +:+ " events") limitedEvents).

(** [getEvent(args)]. [args.event_id] is read in the callback of [find] and
    again in the message; on an [args] without properties both reads throw
    the same [TypeError], so the read is made once, first. The template
    literals convert [args.event_id] and [event.title] to strings. *)
Definition getEvent (args : Value) : M Store ToolResult :=
  events <- read ;;
  event_id <- lift (get args "event_id") ;;
  match List.find (fun e => strict_eq_str event_id (id e)) events with
  | None =>
      shown <- lift (ToString event_id) ;;
      throw (Error ("Event not found: " +:+ shown))
  | Some event =>
      shown <- lift (ToString (title event)) ;;
      ret (EventResult ("Event details for: " +:+ shown) event)
  end.

(** [if (v !== undefined) event.f = v] *)
Definition assign_if_defined (v old : Value) : Value :=
  match v with Undefined => old | _ => v end.

(** [updateEvent(args)]; the element is mutated in place, so the array holds
    the new object at the same index, also when the template literal of the
    result then throws on the title. *)
Definition updateEvent (env : Env) (args : Value) : M Store ToolResult :=
  events <- read ;;
  event_id <- lift (get args "event_id") ;;
  match findIndex (fun e => strict_eq_str event_id (id e)) events with
  | None =>
      shown <- lift (ToString event_id) ;;
      throw (Error ("Event not found: " +:+ shown))
  | Some eventIndex =>
      match events !! eventIndex with
      | None =>
          (* not reached: [findIndex] answers with an index of the array *)
          throw (TypeError "Cannot set properties of undefined (setting 'updated_at')")
      | Some event =>
          title_ <- lift (get args "title") ;;
          description_ <- lift (get args "description") ;;
          start_time_ <- lift (get args "start_time") ;;
          end_time_ <- lift (get args "end_time") ;;
          location_ <- lift (get args "location") ;;
          attendees_ <- lift (get args "attendees") ;;
          let event' :=
            {| id := id event;
               title := assign_if_defined title_ (title event);
               description := assign_if_defined description_ (description event);
               start_time := assign_if_defined start_time_ (start_time event);
               end_time := assign_if_defined end_time_ (end_time event);
               location := assign_if_defined location_ (location event);
               attendees := assign_if_defined attendees_ (attendees event);
               created_at := created_at event;
               updated_at := Some (now env) |} in
          write (<[eventIndex := event']> events) ;;;
          shown <- lift (ToString (title event')) ;;
          ret (EventResult ("Event updated successfully: " +:+ shown) event')
      end
  end.

(** [deleteEvent(args)]; [events.splice(eventIndex, 1)] removes the element
    at the index, before the template literal of the result converts its
    title. *)
Definition deleteEvent (args : Value) : M Store ToolResult :=
  events <- read ;;
  event_id <- lift (get args "event_id") ;;
  match findIndex (fun e => strict_eq_str event_id (id e)) events with
  | None =>
      shown <- lift (ToString event_id) ;;
      throw (Error ("Event not found: " +:+ shown))
  | Some eventIndex =>
      match events !! eventIndex with
      | None =>
          (* not reached: [findIndex] answers with an index of the array *)
          throw (TypeError "Cannot read properties of undefined (reading 'title')")
      | Some deletedEvent =>
          write (delete eventIndex events) ;;;
          shown <- lift (ToString (title deletedEvent)) ;;
          ret (DeletedResult ("Event deleted successfully: " +:+ shown) event_id)
      end
  end.

(** [v.toLowerCase()] where [v] is the value of the expression [expr]: only
    a string has the method. *)
Definition call_toLowerCase (expr : string) (v : Value) : Completion string :=
  match v with
  | Str s => Normal (toLowerCase s)
  | Undefined =>
      Throw (TypeError "Cannot read properties of undefined (reading 'toLowerCase')")
  | Null =>
      Throw (TypeError "Cannot read properties of null (reading 'toLowerCase')")
  | _ => Throw (TypeError (expr +:+ ".toLowerCase is not a function"))
  end.

(** The callback of [searchEvents]; [||] reads the description only when the
    title does not match. *)
Definition matches (query : string) (event : Event) : Completion bool :=
  match call_toLowerCase "event.title" (title event) with
  | Throw e => Throw e
  | Normal t =>
      if includes t query then Normal true
      else
        match call_toLowerCase "event.description" (description event) with
        | Throw e => Throw e
        | Normal d => Normal (includes d query)
        end
  end.

(** [searchEvents(args)] *)
Definition searchEvents (args : Value) : M Store ToolResult :=
  events <- read ;;
  query_ <- lift (get args "query") ;;
  query <- lift (call_toLowerCase "args.query" query_) ;;
  limit_ <- lift (get args "limit") ;;
  let limit := or_else limit_ (Num 10) in
  filtered <- lift (filterC (matches query) events) ;;
  matchedEvents <- lift (slice0 filtered limit) ;;
  shown <- lift (ToString query_) ;;
  ret (EventsResult
         ("Found " +:+ pretty (length matchedEvents) +:+ " events matching " +:+ dquote
            +:+ shown +:+ dquote)
         matchedEvents).

(** [const { first, ... } = v]: destructuring throws on undefined and null;
    [source] is the text of the expression destructured. *)
Definition destructurable (v : Value) (first source : string) : Completion unit :=
  match v with
  | Undefined =>
      Throw (TypeError ("Cannot destructure property '" +:+ first +:+ "' of '"
                          +:+ source +:+ "' as it is undefined."))
  | Null =>
      Throw (TypeError ("Cannot destructure property '" +:+ first +:+ "' of '"
                          +:+ source +:+ "' as it is null."))
  | _ => Normal tt
  end.

(** [handleToolCall(params)] *)
Definition handleToolCall (env : Env) (params : Value) : M Store ToolResult :=
  lift (destructurable params "name" "params") ;;;
  name_ <- lift (get params "name") ;;
  args <- lift (get params "arguments") ;;
  if strict_eq_str name_ "create_event" then createEvent env args
  else if strict_eq_str name_ "list_events" then listEvents args
  else if strict_eq_str name_ "get_event" then getEvent args
  else if strict_eq_str name_ "update_event" then updateEvent env args
  else if strict_eq_str name_ "delete_event" then deleteEvent args
  else if strict_eq_str name_ "search_events" then searchEvents args
  else
    shown <- lift (ToString name_) ;;
    throw (Error ("Unknown tool: " +:+ shown)).

(** The [try] block of [app.post('/mcp', ...)]; [body] is [req.body]. *)
Definition route (env : Env) (body : Value) : M Store (Response Result) :=
  lift (destructurable body "jsonrpc" "req.body") ;;;
  jsonrpc_ <- lift (get body "jsonrpc") ;;
  method <- lift (get body "method") ;;
  params <- lift (get body "params") ;;
  id_ <- lift (get body "id") ;;
  if negb (strict_eq_str jsonrpc_ "2.0")
  then ret (createError ResultNull id_ (-32600) "Invalid Request" Undefined)
  else if strict_eq_str method "initialize"
  then ret (createResponse id_
              (ResultInitialize (protocolVersion SERVER_INFO) SERVER_INFO) None)
  else if strict_eq_str method "notifications/initialized"
  then ret (createResponse id_ ResultEmpty None)
  else if strict_eq_str method "tools/list"
  then ret (createResponse id_ (ResultTools TOOLS) None)
  else if strict_eq_str method "tools/call"
  then
    result_ <- handleToolCall env params ;;
    ret (createResponse id_ (ResultCall result_) None)
  else ret (createError ResultNull id_ (-32601) "Method not found" Undefined).

(** [req.body?.id] *)
Definition optional_id (body : Value) : Value :=
  match body with
  | Undefined | Null => Undefined
  | _ => match get body "id" with Normal v => v | Throw _ => Undefined end
  end.

(** [app.post('/mcp', ...)]: the response sent and the store left behind.
    The [catch] clause answers every throw of the [try] block. *)
Definition post_mcp (env : Env) (body : Value) (events : Store)
  : Response Result * Store :=
  match route env body events with
  | (Normal response, events') => (response, events')
  | (Throw error, events') =>
      (createError ResultNull (or_else (optional_id body) Null) (-32603)
         "Internal error" (Str (message error)),
       events')
  end.

(** *** Sequences of tool calls *)

(** One [tools/call]: what the runtime hands to it, and its [params]. *)
Record Call : Type := {
  call_env : Env;
  call_params : Value
}.

(** The store a call leaves behind, whether it returns or throws. *)
Definition step (c : Call) (events : Store) : Store :=
  snd (handleToolCall (call_env c) (call_params c) events).

(** The store after the calls, made one after the other. *)
Fixpoint run (calls : list Call) (events : Store) : Store :=
  match calls with
  | [] => events
  | c :: rest => run rest (step c events)
  end.

(** The call is dispatched to [createEvent], the one tool that calls
    [uuidv4()]. *)
Definition is_create (c : Call) : bool :=
  negb (nullish (call_params c))
  && strict_eq_str (field (call_params c) "name") "create_event".

(** The strings [uuidv4()] returned during the calls, in order. *)
Definition drawn (calls : list Call) : list string :=
  (fun c => uuid (call_env c)) <$> List.filter is_create calls.

Definition ids (events : Store) : list string := id <$> events.

(** *** The vocabulary of the statements *)

(** The body of a [tools/call] request. *)
Definition tools_call (id_ : Value) (name_ : string) (args : Value) : Value :=
  Obj [("jsonrpc", Str "2.0");
       ("id", id_);
       ("method", Str "tools/call");
       ("params", Obj [("name", Str name_); ("arguments", args)])].

(** What the three tools throw for an [event_id] that matches no stored
    event: the error "Event not found: ..." when the template literal can
    convert the [event_id], and the [TypeError] of that conversion when it
    cannot. *)
Definition no_such_event (event_id : Value) : JSError :=
  match ToString event_id with
  | Normal shown => Error ("Event not found: " +:+ shown)
  | Throw error => error
  end.

(** The fields [update_event] can overwrite. *)
Inductive Field : Type :=
| Title | Description | StartTime | EndTime | Location | Attendees.

Definition field_name (f : Field) : string :=
  match f with
  | Title => "title"
  | Description => "description"
  | StartTime => "start_time"
  | EndTime => "end_time"
  | Location => "location"
  | Attendees => "attendees"
  end.

Definition project (f : Field) (e : Event) : Value :=
  match f with
  | Title => title e
  | Description => description e
  | StartTime => start_time e
  | EndTime => end_time e
  | Location => location e
  | Attendees => attendees e
  end.

(** The event starts at or after the instant [bound] denotes. *)
Definition starts_from (bound : Value) (e : Event) : Prop :=
  exists t b,
    newDate (start_time e) = Normal (Some t) /\ newDate bound = Normal (Some b) /\ (b <= t)%Z.

(** The event starts at or before the instant [bound] denotes. *)
Definition starts_until (bound : Value) (e : Event) : Prop :=
  exists t b,
    newDate (start_time e) = Normal (Some t) /\ newDate bound = Normal (Some b) /\ (t <= b)%Z.

(** The date filter of [list_events], for the bounds that are truthy. *)
Definition in_window (start_date end_date : Value) (e : Event) : bool :=
  (if truthy start_date then date_ge (instant (start_time e)) (instant start_date) else true)
  && (if truthy end_date then date_le (instant (start_time e)) (instant end_date) else true).

(** [q] occurs in [s], letter case apart. *)
Definition contains_ci (s q : string) : bool :=
  includes (toLowerCase s) (toLowerCase q).

(** The title or the description of the event, both strings, holds [q],
    letter case apart. *)
Definition mentions (q : string) (e : Event) : bool :=
  match title e, description e with
  | Str t, Str d => contains_ci t q || contains_ci d q
  | _, _ => false
  end.

(** What one call can do to the array: nothing, push the event it created,
    replace an element by its updated version, or splice an element out.
    [create] tells whether the call may push. *)
Inductive Effect (env : Env) (create : bool) (events : Store) : Store -> Prop :=
| effect_none : Effect env create events events
| effect_push e :
    create = true -> id e = uuid env -> created_at e = now env -> updated_at e = None ->
    Effect env create events (events ++ [e])%list
| effect_update i e e' :
    events !! i = Some e -> id e' = id e -> created_at e' = created_at e ->
    updated_at e' = Some (now env) ->
    Effect env create events (<[i := e']> events)
| effect_delete i : Effect env create events (delete i events).

(** Every timestamp held in the array satisfies [P]. *)
Definition stamps (P : Z -> Prop) (events : Store) : Prop :=
  forall e, e ∈ events -> P (created_at e) /\ forall u, updated_at e = Some u -> P u.

End Tools.
End Memory.

(** ** The Google Calendar server ([server.js]) *)

Module Google.
Import JS JsonRpc Eff.
Local Open Scope eff_scope.

(** The methods of the provider's client that the tools call. *)
Inductive ApiMethod : Type :=
| events_insert
| events_list
| events_get
| events_update
| events_delete
| calendarList_list.

(** The calendar provider: a call made with the stored credentials and a
    parameter object either throws or answers; a [response.data] is an
    object, given by its property list. [World] is whatever the provider
    keeps. [getCalendarClient] hands the object [userTokens] itself to the
    client, which may write to it while it serves a call: [credentials] is
    that object as the call leaves it. *)
Class Provider : Type := {
  World : Type;
  api : Value -> ApiMethod -> Value -> World -> Completion (list (string * Value)) * World;
  credentials : Value -> ApiMethod -> Value -> World -> Value
}.

(** The environment variables read at start-up: the string a variable is
    set to, if it is set. *)
Record ProcessEnv : Type := {
  PORT_ : option string;
  NODE_ENV : option string;
  RENDER_EXTERNAL_URL : option string
}.

(** [process.env.NAME]: a string, or undefined for a variable not set. *)
Definition env_var (v : option string) : Primitive :=
  match v with Some s => PString s | None => PUndefined end.

(** The objects the tools return: [content[0].text] and the payload. *)
Inductive ToolResult : Type :=
| EventResult (text : string) (event : Value)
| EventsResult (text : string) (events : Value)
| CalendarsResult (text : string) (calendars : Value)
| DeletedResult (text : string) (deleted_event_id : Value).

(** What [result] holds in a response of this server. *)
Inductive Result : Type :=
| ResultNull
| ResultInitialize (protocol : string) (serverInfo : ServerInfo)
| ResultEmpty
| ResultTools (tools : list ToolDefinition)
| ResultCall (r : ToolResult).

Definition SERVER_INFO : ServerInfo :=
  {| server_name := "google-calendar-server";
     version := "1.0.0";
     server_description := "Google Calendar management server with MCP support";
     protocolVersion := "2024-11-05" |}.

Definition TOOLS : list ToolDefinition :=
  [ {| name := "create_event";
       tool_description := "Create a new Google Calendar event";
       properties := ["title"; "description"; "start_time"; "end_time"; "location";
                      "attendees"; "calendar_id"];
       required := ["title"; "start_time"; "end_time"] |};
    {| name := "list_events";
       tool_description := "List Google Calendar events with optional filtering";
       properties := ["calendar_id"; "time_min"; "time_max"; "max_results"; "single_events"];
       required := [] |};
    {| name := "get_event";
       tool_description := "Get details of a specific Google Calendar event";
       properties := ["event_id"; "calendar_id"];
       required := ["event_id"] |};
    {| name := "update_event";
       tool_description := "Update an existing Google Calendar event";
       properties := ["event_id"; "calendar_id"; "title"; "description"; "start_time";
                      "end_time"; "location"; "attendees"];
       required := ["event_id"] |};
    {| name := "delete_event";
       tool_description := "Delete a Google Calendar event";
       properties := ["event_id"; "calendar_id"];
       required := ["event_id"] |};
    {| name := "list_calendars";
       tool_description := "List all available Google Calendars";
       properties := ["max_results"];
       required := [] |};
    {| name := "search_events";
       tool_description := "Search events in Google Calendar";
       properties := ["query"; "calendar_id"; "max_results"];
       required := ["query"] |} ].

Section Server.
Context `{Runtime} `{Provider}.
Variable env : ProcessEnv.

(** The state between requests: the module-level [userTokens], the
    provider's world, and (to state what a handler did and did not do) the
    provider calls made so far. *)
Record State : Type := {
  userTokens : Value;
  world : World;
  requests : list (ApiMethod * Value)
}.

(** [const PORT = process.env.PORT || 3000] *)
Definition PORT : Primitive :=
  if truthy (of_primitive (env_var (PORT_ env))) then env_var (PORT_ env) else PNumber 3000.

(** [isProduction ? process.env.RENDER_EXTERNAL_URL : `http://localhost:${PORT}`],
    where [isProduction] is [process.env.NODE_ENV === 'production']. *)
Definition BASE_URL : Primitive :=
  if strict_eq_str (of_primitive (env_var (NODE_ENV env))) "production"
  then env_var (RENDER_EXTERNAL_URL env)
  else PString ("http://localhost:" +:+ PrimitiveToString PORT).

(** [isAuthenticated()]: the value of
    [userTokens.access_token && userTokens.refresh_token]. *)
Definition isAuthenticated : M State Value :=
  s <- read ;;
  access_token <- lift (get (userTokens s) "access_token") ;;
  if truthy access_token
  then lift (get (userTokens s) "refresh_token")
  else ret access_token.

(** A method of the client returned by [getCalendarClient()], awaited. *)
Definition calendar (m : ApiMethod) (params : Value) : M State Value :=
  fun s =>
    match api (userTokens s) m params (world s) with
    | (c, w') =>
        (match c with Normal props => Normal (Obj props) | Throw e => Throw e end,
         {| userTokens := credentials (userTokens s) m params (world s);
            world := w';
            requests := (requests s ++ [(m, params)])%list |})
    end.

(** [getCalendarClient()] *)
Definition getCalendarClient : M State unit :=
  auth <- isAuthenticated ;;
  if negb (truthy auth)
  then throw (Error "User not authenticated. Please authenticate first.")
  else ret tt.

(** [try { body } catch (error) { throw new Error(`${prefix}${error.message}`) }] *)
Definition try_rethrow {A} (prefix : string) (body : M State A) : M State A :=
  fun s =>
    match body s with
    | (Throw error, s') => (Throw (Error (prefix +:+ message error)), s')
    | r => r
    end.

(** [v.map(email => ({ email }))] where [v] is the value of [expr]. *)
Definition map_emails (expr : string) (v : Value) : Completion Value :=
  match v with
  | Arr l => Normal (Arr (map (fun email => Obj [("email", email)]) l))
  | Undefined => Throw (TypeError "Cannot read properties of undefined (reading 'map')")
  | Null => Throw (TypeError "Cannot read properties of null (reading 'map')")
  | _ => Throw (TypeError (expr +:+ ".map is not a function"))
  end.

(** [createEvent(args)] *)
Definition createEvent (args : Value) : M State ToolResult :=
  getCalendarClient ;;;
  calendar_id <- lift (get args "calendar_id") ;;
  let calendarId := or_else calendar_id (Str "primary") in
  title <- lift (get args "title") ;;
  description <- lift (get args "description") ;;
  location <- lift (get args "location") ;;
  start_time <- lift (get args "start_time") ;;
  end_time <- lift (get args "end_time") ;;
  let event :=
    [("summary", title);
     ("description", or_else description (Str ""));
     ("location", or_else location (Str ""));
     ("start", Obj [("dateTime", start_time); ("timeZone", Str "UTC")]);
     ("end", Obj [("dateTime", end_time); ("timeZone", Str "UTC")])] in
  attendees <- lift (get args "attendees") ;;
  event <-
    (if truthy attendees
     then
       some <- lift (greater_than_zero (field attendees "length")) ;;
       if some : bool
       then
         mapped <- lift (map_emails "args.attendees" attendees) ;;
         ret (set_prop "attendees" mapped event)
       else ret event
     else ret event) ;;
  try_rethrow "Failed to create event: "
    (data_ <- calendar events_insert
                (Obj [("calendarId", calendarId);
                      ("resource", Obj event);
                      ("sendNotifications", Boolean true)]) ;;
     summary <- lift (get data_ "summary") ;;
     shown <- lift (ToString summary) ;;
     ret (EventResult ("Event created successfully: " +:+ shown) data_)).

(** [if (v) params.k = v] *)
Definition set_if_truthy (k : string) (v : Value) (props : list (string * Value))
  : list (string * Value) :=
  if truthy v then set_prop k v props else props.

(** [listEvents(args)] *)
Definition listEvents (args : Value) : M State ToolResult :=
  getCalendarClient ;;;
  calendar_id <- lift (get args "calendar_id") ;;
  let calendarId := or_else calendar_id (Str "primary") in
  max_results <- lift (get args "max_results") ;;
  single_events <- lift (get args "single_events") ;;
  let params :=
    [("calendarId", calendarId);
     ("maxResults", or_else max_results (Num 10));
     ("singleEvents", Boolean (match single_events with Boolean false => false | _ => true end));
     ("orderBy", Str "startTime")] in
  time_min <- lift (get args "time_min") ;;
  let params := set_if_truthy "timeMin" time_min params in
  time_max <- lift (get args "time_max") ;;
  let params := set_if_truthy "timeMax" time_max params in
  try_rethrow "Failed to list events: "
    (data_ <- calendar events_list (Obj params) ;;
     items <- lift (get data_ "items") ;;
     let events := or_else items (Arr []) in
     count <- lift (ToString (field events "length")) ;;
     ret (EventsResult ("Found " +:+ count +:+ " events") events)).

(** [getEvent(args)] *)
Definition getEvent (args : Value) : M State ToolResult :=
  getCalendarClient ;;;
  calendar_id <- lift (get args "calendar_id") ;;
  let calendarId := or_else calendar_id (Str "primary") in
  try_rethrow "Failed to get event: "
    (event_id <- lift (get args "event_id") ;;
     data_ <- calendar events_get (Obj [("calendarId", calendarId); ("eventId", event_id)]) ;;
     summary <- lift (get data_ "summary") ;;
     shown <- lift (ToString summary) ;;
     ret (EventResult ("Event details: " +:+ shown) data_)).

(** [if (v !== undefined) event.k = x] *)
Definition set_if_defined (k : string) (v x : Value) (props : list (string * Value))
  : list (string * Value) :=
  match v with Undefined => props | _ => set_prop k x props end.

(** The properties of an object value. *)
Definition props_of (v : Value) : list (string * Value) :=
  match v with Obj props => props | _ => [] end.

(** [updateEvent(args)]: read the event, merge, write it back. *)
Definition updateEvent (args : Value) : M State ToolResult :=
  getCalendarClient ;;;
  calendar_id <- lift (get args "calendar_id") ;;
  let calendarId := or_else calendar_id (Str "primary") in
  try_rethrow "Failed to update event: "
    (event_id <- lift (get args "event_id") ;;
     currentEvent <- calendar events_get
                       (Obj [("calendarId", calendarId); ("eventId", event_id)]) ;;
     let event := props_of currentEvent in
     title <- lift (get args "title") ;;
     let event := set_if_defined "summary" title title event in
     description <- lift (get args "description") ;;
     let event := set_if_defined "description" description description event in
     location <- lift (get args "location") ;;
     let event := set_if_defined "location" location location event in
     start_time <- lift (get args "start_time") ;;
     let event :=
       set_if_defined "start" start_time
         (Obj [("dateTime", start_time); ("timeZone", Str "UTC")]) event in
     end_time <- lift (get args "end_time") ;;
     let event :=
       set_if_defined "end" end_time
         (Obj [("dateTime", end_time); ("timeZone", Str "UTC")]) event in
     attendees <- lift (get args "attendees") ;;
     event <-
       (match attendees with
        | Undefined => ret event
        | _ =>
            mapped <- lift (map_emails "args.attendees" attendees) ;;
            ret (set_prop "attendees" mapped event)
        end) ;;
     data_ <- calendar events_update
                (Obj [("calendarId", calendarId);
                      ("eventId", event_id);
                      ("resource", Obj event);
                      ("sendNotifications", Boolean true)]) ;;
     summary <- lift (get data_ "summary") ;;
     shown <- lift (ToString summary) ;;
     ret (EventResult ("Event updated successfully: " +:+ shown) data_)).

(** [deleteEvent(args)] *)
Definition deleteEvent (args : Value) : M State ToolResult :=
  getCalendarClient ;;;
  calendar_id <- lift (get args "calendar_id") ;;
  let calendarId := or_else calendar_id (Str "primary") in
  try_rethrow "Failed to delete event: "
    (event_id <- lift (get args "event_id") ;;
     event <- calendar events_get
                (Obj [("calendarId", calendarId); ("eventId", event_id)]) ;;
     calendar events_delete
       (Obj [("calendarId", calendarId);
             ("eventId", event_id);
             ("sendNotifications", Boolean true)]) ;;;
     summary <- lift (get event "summary") ;;
     shown <- lift (ToString summary) ;;
     ret (DeletedResult ("Event deleted successfully: " +:+ shown) event_id)).

(** [listCalendars(args)] *)
Definition listCalendars (args : Value) : M State ToolResult :=
  getCalendarClient ;;;
  try_rethrow "Failed to list calendars: "
    (max_results <- lift (get args "max_results") ;;
     data_ <- calendar calendarList_list
                (Obj [("maxResults", or_else max_results (Num 10))]) ;;
     items <- lift (get data_ "items") ;;
     let calendars := or_else items (Arr []) in
     count <- lift (ToString (field calendars "length")) ;;
     ret (CalendarsResult ("Found " +:+ count +:+ " calendars") calendars)).

(** [searchEvents(args)] *)
Definition searchEvents (args : Value) : M State ToolResult :=
  getCalendarClient ;;;
  calendar_id <- lift (get args "calendar_id") ;;
  let calendarId := or_else calendar_id (Str "primary") in
  try_rethrow "Failed to search events: "
    (query <- lift (get args "query") ;;
     max_results <- lift (get args "max_results") ;;
     data_ <- calendar events_list
                (Obj [("calendarId", calendarId);
                      ("q", query);
                      ("maxResults", or_else max_results (Num 10));
                      ("singleEvents", Boolean true);
                      ("orderBy", Str "startTime")]) ;;
     items <- lift (get data_ "items") ;;
     let events := or_else items (Arr []) in
     count <- lift (ToString (field events "length")) ;;
     shown <- lift (ToString query) ;;
     ret (EventsResult
            ("Found " +:+ count +:+ " events matching " +:+ dquote +:+ shown +:+ dquote)
            events)).

(** [const { first, ... } = v] *)
Definition destructurable (v : Value) (first source : string) : Completion unit :=
  match v with
  | Undefined =>
      Throw (TypeError ("Cannot destructure property '" +:+ first +:+ "' of '"
                          +:+ source +:+ "' as it is undefined."))
  | Null =>
      Throw (TypeError ("Cannot destructure property '" +:+ first +:+ "' of '"
                          +:+ source +:+ "' as it is null."))
  | _ => Normal tt
  end.

(** [handleToolCall(params)] *)
Definition handleToolCall (params : Value) : M State ToolResult :=
  lift (destructurable params "name" "params") ;;;
  name_ <- lift (get params "name") ;;
  args <- lift (get params "arguments") ;;
  if strict_eq_str name_ "create_event" then createEvent args
  else if strict_eq_str name_ "list_events" then listEvents args
  else if strict_eq_str name_ "get_event" then getEvent args
  else if strict_eq_str name_ "update_event" then updateEvent args
  else if strict_eq_str name_ "delete_event" then deleteEvent args
  else if strict_eq_str name_ "list_calendars" then listCalendars args
  else if strict_eq_str name_ "search_events" then searchEvents args
  else
    shown <- lift (ToString name_) ;;
    throw (Error ("Unknown tool: " +:+ shown)).

(** The [try] block of [app.post('/mcp', ...)]; [body] is [req.body]. *)
Definition route (body : Value) : M State (Response Result) :=
  lift (destructurable body "jsonrpc" "req.body") ;;;
  jsonrpc_ <- lift (get body "jsonrpc") ;;
  method <- lift (get body "method") ;;
  params <- lift (get body "params") ;;
  id_ <- lift (get body "id") ;;
  if negb (strict_eq_str jsonrpc_ "2.0")
  then ret (createError ResultNull id_ (-32600) "Invalid Request" Undefined)
  else if strict_eq_str method "initialize"
  then ret (createResponse id_
              (ResultInitialize (protocolVersion SERVER_INFO) SERVER_INFO) None)
  else if strict_eq_str method "notifications/initialized"
  then ret (createResponse id_ ResultEmpty None)
  else if strict_eq_str method "tools/list"
  then ret (createResponse id_ (ResultTools TOOLS) None)
  else if strict_eq_str method "tools/call"
  then
    auth <- isAuthenticated ;;
    if negb (truthy auth)
    then ret (createError ResultNull id_ (-32001) "Authentication required"
                (Obj [("auth_url", Str (PrimitiveToString BASE_URL +:+ "/auth"))]))
    else
      result_ <- handleToolCall params ;;
      ret (createResponse id_ (ResultCall result_) None)
  else ret (createError ResultNull id_ (-32601) "Method not found" Undefined).

(** [req.body?.id] *)
Definition optional_id (body : Value) : Value :=
  match body with
  | Undefined | Null => Undefined
  | _ => match get body "id" with Normal v => v | Throw _ => Undefined end
  end.

(** [app.post('/mcp', ...)]: the response sent and the state left behind. *)
Definition post_mcp (body : Value) (s : State) : Response Result * State :=
  match route body s with
  | (Normal response, s') => (response, s')
  | (Throw error, s') =>
      (createError ResultNull (or_else (optional_id body) Null) (-32603)
         "Internal error" (Str (message error)),
       s')
  end.

End Server.
End Google.

(** ** A runtime for the examples

    It reads the two ISO 8601 shapes the tool schemas name, the date
    [YYYY-MM-DD] and the UTC date-time [YYYY-MM-DDTHH:MM:SSZ], and decimal
    integers; on those it is what Node.js computes: a day up to 31 is taken in
    any month and runs over into the next one, and the hour 24 is taken with
    0 minutes and seconds. Any other string is read as NaN. *)

Module Iso.
Import JS.

Definition digit (c : Ascii.ascii) : option Z :=
  let n := Ascii.nat_of_ascii c in
  if (48 <=? n)%nat && (n <=? 57)%nat then Some (Z.of_nat (n - 48)) else None.

(** The value of a non-empty run of decimal digits. *)
Fixpoint digits_from (acc : Z) (s : string) : option Z :=
  match s with
  | EmptyString => Some acc
  | String c rest =>
      match digit c with
      | Some d => digits_from (10 * acc + d) rest
      | None => None
      end
  end.

Definition digits (s : string) : option Z :=
  match s with
  | EmptyString => None
  | _ => digits_from 0 s
  end.

(** Days from 1970-01-01 to the civil date [y-m-d] (proleptic Gregorian). *)
Definition days_from_civil (y m d : Z) : Z :=
  let y' := if (m <=? 2)%Z then (y - 1)%Z else y in
  let era := (y' / 400)%Z in
  let yoe := (y' - era * 400)%Z in
  let doy := ((153 * (m + (if (2 <? m)%Z then -3 else 9)) + 2) / 5 + d - 1)%Z in
  let doe := (yoe * 365 + yoe / 4 - yoe / 100 + doy)%Z in
  (era * 146097 + doe - 719468)%Z.

Definition sub (start len : nat) (s : string) : string := String.substring start len s.

(** Milliseconds from the epoch to midnight UTC of [YYYY-MM-DD]. *)
Definition parse_date (s : string) : option Z :=
  if (String.length s =? 10)%nat && String.eqb (sub 4 1 s) "-" && String.eqb (sub 7 1 s) "-"
  then
    match digits (sub 0 4 s), digits (sub 5 2 s), digits (sub 8 2 s) with
    | Some y, Some m, Some d =>
        if ((1 <=? m) && (m <=? 12) && (1 <=? d) && (d <=? 31))%Z
        then Some (days_from_civil y m d * 86400000)%Z
        else None
    | _, _, _ => None
    end
  else None.

(** Milliseconds within the day of [THH:MM:SSZ]. *)
Definition parse_time (s : string) : option Z :=
  if (String.length s =? 10)%nat && String.eqb (sub 0 1 s) "T" && String.eqb (sub 3 1 s) ":"
     && String.eqb (sub 6 1 s) ":" && String.eqb (sub 9 1 s) "Z"
  then
    match digits (sub 1 2 s), digits (sub 4 2 s), digits (sub 7 2 s) with
    | Some h, Some mi, Some sec =>
        if ((h <=? 23) && (mi <=? 59) && (sec <=? 59) || (h =? 24) && (mi =? 0) && (sec =? 0))%Z
        then Some ((h * 3600 + mi * 60 + sec) * 1000)%Z
        else None
    | _, _, _ => None
    end
  else None.

Definition parse (s : string) : option Z :=
  if (String.length s =? 10)%nat then parse_date s
  else
    match parse_date (sub 0 10 s), parse_time (sub 10 10 s) with
    | Some day, Some ms => if (String.length s =? 20)%nat then Some (day + ms)%Z else None
    | _, _ => None
    end.

(** A decimal integer, with an optional minus sign; anything else is read
    as NaN, which [ToIntegerOrInfinity] turns into 0. *)
Definition to_integer (s : string) : IntegerOrInfinity :=
  match s with
  | String c rest =>
      if Ascii.eqb c (Ascii.ascii_of_nat 45)
      then match digits rest with Some z => Int (- z) | None => Int 0 end
      else match digits s with Some z => Int z | None => Int 0 end
  | EmptyString => Int 0
  end.

(** The Number nearest to the positive integer [m], ties to the even
    significand; every integer up to 2^53 is a Number. *)
Definition nearest_number (m : Z) : Z :=
  let e := (Z.log2 m - 52)%Z in
  if (e <=? 0)%Z then m
  else
    let q := Z.shiftr m e in
    let r := (m - Z.shiftl q e)%Z in
    let half := Z.shiftl 1 (e - 1) in
    let q' := if (half <? r)%Z || ((r =? half)%Z && Z.odd q) then (q + 1)%Z else q in
    Z.shiftl q' e.

Definition decimal_digits (m : Z) : Z := Z.of_nat (String.length (pretty m)).

(** The integer with the fewest significant digits, [k] at least, that reads
    back as the Number [x]; of two with as many digits, the nearer to [x]. *)
Fixpoint shortest_from (x k : Z) (fuel : nat) : Z :=
  match fuel with
  | O => x
  | S fuel' =>
      let scale := (10 ^ (decimal_digits x - k))%Z in
      let lo := (x / scale * scale)%Z in
      let hi := (lo + scale)%Z in
      let lo_reads := (nearest_number lo =? x)%Z in
      let hi_reads := (nearest_number hi =? x)%Z in
      if lo_reads && hi_reads then (if (x - lo <=? hi - x)%Z then lo else hi)
      else if lo_reads then lo
      else if hi_reads then hi
      else shortest_from x (k + 1) fuel'
  end.

Fixpoint strip_zeros (s : string) : string :=
  match s with
  | EmptyString => EmptyString
  | String c rest =>
      match strip_zeros rest with
      | EmptyString => if Ascii.eqb c (Ascii.ascii_of_nat 48) then EmptyString else String c EmptyString
      | kept => String c kept
      end
  end.

(** The numeral of a positive Number: all its digits below 10^21, and from
    there on its significant digits with the exponent. *)
Definition numeral (v : Z) : string :=
  let all := pretty v in
  if (String.length all <=? 21)%nat then all
  else
    let exponent := "e+" +:+ pretty (String.length all - 1)%nat in
    match strip_zeros all with
    | String c EmptyString => String c EmptyString +:+ exponent
    | String c rest => String c EmptyString +:+ "." +:+ rest +:+ exponent
    | EmptyString => all
    end.

(** The numeral of a Number beyond 2^53; from 2^1024 on the Number is
    [Infinity]. *)
Definition large_numeral (x : Z) : string :=
  if (2 ^ 1024 <=? x)%Z then "Infinity"
  else numeral (shortest_from x 1 (Z.to_nat (decimal_digits x))).

(** [Number::toString] on the Number the integer [n] is read as. *)
Definition number_to_string (n : Z) : string :=
  if (Z.abs n <=? 9007199254740992)%Z then pretty n
  else (if (n <? 0)%Z then "-" else "") +:+ large_numeral (nearest_number (Z.abs n)).

#[export] Instance runtime : Runtime := {|
  DateParse := parse;
  StringToIntegerOrInfinity := to_integer;
  StringIsPositive := fun s => match to_integer s with Int z => (0 <? z)%Z | _ => false end;
  toLowerCase := lower;
  toLowerCase_ascii := fun s _ => eq_refl;
  NumberToString := number_to_string;
  NumberToString_safe := fun n safe =>
    eq_ind_r
      (fun b : bool =>
         (if b then pretty n
          else (if (n <? 0)%Z then "-" else "") +:+ large_numeral (nearest_number (Z.abs n)))
         = pretty n)
      eq_refl (proj2 (Z.leb_le (Z.abs n) 9007199254740992) safe)
|}.

End Iso.

(** ** Sample data for the examples *)

Module Sample.
Import JS Memory.

(** A provider that knows no event and no calendar: every call answers
    with an empty [items] list; its client notes the token type in the
    credentials it was handed. *)
#[export] Instance offline : Google.Provider := {|
  Google.World := unit;
  Google.api := fun _ _ _ w => (Normal [("items", Arr [])], w);
  Google.credentials := fun tokens _ _ _ =>
    match tokens with
    | Obj props => Obj (set_prop "token_type" (Str "Bearer") props)
    | _ => tokens
    end
|}.

Definition local_env : Google.ProcessEnv :=
  {| Google.PORT_ := None;
     Google.NODE_ENV := None;
     Google.RENDER_EXTERNAL_URL := None |}.

(** The state of the Google server at start-up: [userTokens = {}]. *)
Definition signed_out : Google.State :=
  {| Google.userTokens := Obj []; Google.world := tt; Google.requests := [] |}.

Definition signed_in : Google.State :=
  {| Google.userTokens := Obj [("access_token", Str "ya29.a0"); ("refresh_token", Str "1//0g")];
     Google.world := tt;
     Google.requests := [] |}.

(** 2024-01-15T09:00:00Z and two later instants. *)
Definition at_nine : Env :=
  {| now := 1705309200000; uuid := "6f1c2f0e-3c1b-4b7e-9a57-0d2f5c8e1a11" |}.

Definition at_ten : Env :=
  {| now := 1705312800000; uuid := "b0a0c3d2-58a4-4e0f-8d35-7c3e2a9f4b22" |}.

Definition at_eleven : Env :=
  {| now := 1705316400000; uuid := "0e9d8c7b-6a5f-4e3d-9c2b-1a0f9e8d7c33" |}.

(** The event of the scenario of the specification. *)
Definition standup_args : Value :=
  Obj [("title", Str "Standup");
       ("start_time", Str "2024-01-15T10:00:00Z");
       ("end_time", Str "2024-01-15T10:15:00Z")].

Definition standup : Event :=
  {| id := uuid at_nine;
     title := Str "Standup";
     description := Str "";
     start_time := Str "2024-01-15T10:00:00Z";
     end_time := Str "2024-01-15T10:15:00Z";
     location := Str "";
     attendees := Arr [];
     created_at := now at_nine;
     updated_at := None |}.

Definition team_meeting : Event :=
  {| id := uuid at_ten;
     title := Str "Team Meeting";
     description := Str "Weekly sync";
     start_time := Str "2024-01-16T14:00:00Z";
     end_time := Str "2024-01-16T15:00:00Z";
     location := Str "Room A";
     attendees := Arr [Str "ana@example.com"];
     created_at := now at_ten;
     updated_at := None |}.

Definition team_meeting_args : Value :=
  Obj [("title", Str "Team Meeting");
       ("description", Str "Weekly sync");
       ("start_time", Str "2024-01-16T14:00:00Z");
       ("end_time", Str "2024-01-16T15:00:00Z");
       ("location", Str "Room A");
       ("attendees", Arr [Str "ana@example.com"])].

(** A [create_event] argument object that leaves out [title]. *)
Definition untitled_args : Value :=
  Obj [("start_time", Str "2024-01-15T10:00:00Z");
       ("end_time", Str "2024-01-15T10:15:00Z")].

(** What [createEvent] stores for [untitled_args]. *)
Definition untitled : Event :=
  {| id := uuid at_nine;
     title := Undefined;
     description := Str "";
     start_time := Str "2024-01-15T10:00:00Z";
     end_time := Str "2024-01-15T10:15:00Z";
     location := Str "";
     attendees := Arr [];
     created_at := now at_nine;
     updated_at := None |}.

Definition create_call (env : Env) (args : Value) : Call :=
  {| call_env := env;
     call_params := Obj [("name", Str "create_event"); ("arguments", args)] |}.

End Sample.
(** ** The other routes of the two servers *)

Module MemoryRoutes.
Import JS JsonRpc Memory.

(** The body of [GET /health]. *)
Record Health : Type := {
  status : string;
  health_server : ServerInfo;
  timestamp : Z
}.

(** [app.get('/health', ...)]; [now] is the time value of [new Date()]. *)
Definition health (env : Env) : Health :=
  {| status := "healthy"; health_server := SERVER_INFO; timestamp := now env |}.

(** The body of [GET /info]; a tool is listed by its name and description. *)
Record Info : Type := {
  info_server : ServerInfo;
  tools : list (string * string);
  events_count : nat
}.

(** [app.get('/info', ...)] *)
Definition info (events : Store) : Info :=
  {| info_server := SERVER_INFO;
     tools := map (fun tool => (name tool, tool_description tool)) TOOLS;
     events_count := length events |}.

(** The body of [GET /]. *)
Record Root : Type := {
  root_message : string;
  root_server : ServerInfo;
  endpoints : list (string * string)
}.

(** [app.get('/', ...)] *)
Definition root : Root :=
  {| root_message := "MCP Calendar Server";
     root_server := SERVER_INFO;
     endpoints := [("mcp", "/mcp"); ("health", "/health"); ("info", "/info")] |}.

End MemoryRoutes.

Module GoogleRoutes.
Import JS JsonRpc Eff Google.
Local Open Scope eff_scope.

(** What [GET /auth/callback] sends: the success page (status 200), which
    shows the MCP endpoint, or the failure page (status 500), which shows the
    message of the exception. *)
Inductive Page : Type :=
| AuthenticationSuccessful (mcp_url : string)
| AuthenticationFailed (detail : string).

(** The body of [GET /health]. *)
Record Health : Type := {
  status : string;
  health_server : ServerInfo;
  health_authenticated : Value;
  timestamp : Z
}.

(** The body of [GET /info]. *)
Record Info : Type := {
  info_server : ServerInfo;
  tools : list (string * string);
  info_authenticated : Value;
  auth_url : Value
}.

Section Routes.
Context `{Runtime} `{Provider}.
Variable env : ProcessEnv.

(** [oauth2Client.getToken(code)], awaited: the identity service either
    throws or answers with a value. *)
Variable getToken : Value -> World -> Completion Value * World.

(** [app.get('/auth/callback', ...)]; [code] is [req.query.code]. The value
    [getToken] resolves to is destructured for its [tokens], which replace
    [userTokens]; whatever is thrown on the way ends in the failure page. *)
Definition auth_callback (code : Value) (s : State) : Page * State :=
  match getToken code (world s) with
  | (Throw error, w') =>
      (AuthenticationFailed (message error),
       {| userTokens := userTokens s; world := w'; requests := requests s |})
  | (Normal answer, w') =>
      match destructurable answer "tokens" "(intermediate value)" with
      | Throw error =>
          (AuthenticationFailed (message error),
           {| userTokens := userTokens s; world := w'; requests := requests s |})
      | Normal _ =>
          (AuthenticationSuccessful (PrimitiveToString (BASE_URL env) +:+ "/mcp"),
           {| userTokens := field answer "tokens"; world := w'; requests := requests s |})
      end
  end.

(** [app.get('/health', ...)]; a throw of [isAuthenticated()] is a throw of
    the handler. *)
Definition health (now : Z) : M State Health :=
  authenticated <- isAuthenticated ;;
  ret {| status := "healthy";
         health_server := SERVER_INFO;
         health_authenticated := authenticated;
         timestamp := now |}.

(** [app.get('/info', ...)] *)
Definition info : M State Info :=
  authenticated <- isAuthenticated ;;
  again <- isAuthenticated ;;
  ret {| info_server := SERVER_INFO;
         tools := map (fun tool => (name tool, tool_description tool)) TOOLS;
         info_authenticated := authenticated;
         auth_url :=
           if truthy again then Null
           else Str (PrimitiveToString (BASE_URL env) +:+ "/auth") |}.

End Routes.
End GoogleRoutes.

(** ** Vocabulary for statements about whole handlers *)

Module Laws.
Import JS Eff.

(** Every exception the body can throw satisfies [P]. *)
Definition Throws {S A} (P : JSError -> Prop) (m : M S A) : Prop :=
  forall s e s', m s = (Throw e, s') -> P e.

(** The exception is neither the dispatcher's "Unknown tool" error nor any
    other [Error] whose text starts like it. *)
Definition not_unknown_tool (e : JSError) : Prop :=
  forall rest, e <> Error ("Unknown tool: " +:+ rest).

(** The exception was raised by the runtime. *)
Definition is_TypeError (e : JSError) : Prop := exists msg, e = TypeError msg.

(** Every timestamp in the store is at most [t], and no event was updated
    before it was created. *)
Definition well_stamped (t : Z) (events : list Memory.Event) : Prop :=
  forall e, e ∈ events ->
    (Memory.created_at e <= t)%Z
    /\ forall u, Memory.updated_at e = Some u -> (Memory.created_at e <= u <= t)%Z.

(** The clock readings handed to the calls, in order. *)
Definition readings (calls : list Memory.Call) : list Z :=
  (fun c => Memory.now (Memory.call_env c)) <$> calls.

(** The four methods the router knows. *)
Definition methods : list string :=
  ["initialize"; "notifications/initialized"; "tools/list"; "tools/call"].

End Laws.

(** ** More sample data *)

Module MoreSample.
Import JS Memory Sample.

(** A provider that is out of service: every call throws. *)
Definition down : Google.Provider :=
  {| Google.World := unit;
     Google.api := fun _ _ _ w => (Throw (Error "The service is currently unavailable."), w);
     Google.credentials := fun tokens _ _ _ => tokens |}.

Definition signed_in_down : @Google.State down :=
  @Google.Build_State down
    (Obj [("access_token", Str "ya29.a0"); ("refresh_token", Str "1//0g")]) tt [].

Definition update_call (env : Env) (args : Value) : Call :=
  {| call_env := env;
     call_params := Obj [("name", Str "update_event"); ("arguments", args)] |}.

(** A [create_event] argument object whose title is not a string but an
    object with a [toString] property, which no template literal can
    convert; and the event [createEvent] stores for it. *)
Definition labelled_args : Value :=
  Obj [("title", Obj [("toString", Num 1)]);
       ("start_time", Str "2024-01-15T10:00:00Z");
       ("end_time", Str "2024-01-15T10:15:00Z")].

Definition labelled : Event :=
  {| id := uuid at_nine;
     title := Obj [("toString", Num 1)];
     description := Str "";
     start_time := Str "2024-01-15T10:00:00Z";
     end_time := Str "2024-01-15T10:15:00Z";
     location := Str "";
     attendees := Arr [];
     created_at := now at_nine;
     updated_at := None |}.

(** Two creations and an update of the first event, an hour apart. *)
Definition morning : list Call :=
  [create_call at_nine standup_args;
   create_call at_ten team_meeting_args;
   update_call at_eleven (Obj [("event_id", Str (uuid at_nine)); ("location", Str "Room A")])].

End MoreSample.

(** * Facts *)

(** ** Property reads *)

Module JSFacts.
Import JS.

Lemma get_field v k : nullish v = false -> get v k = Normal (field v k).
Proof. destruct v; simpl; intros Hn; try discriminate; reflexivity. Qed.

Lemma field_nullish v k : nullish v = true -> field v k = Undefined.
Proof. destruct v; simpl; intros Hn; try discriminate; reflexivity. Qed.

Lemma field_defined v k : field v k <> Undefined -> nullish v = false.
Proof.
  intros Hf. destruct (nullish v) eqn:Hn; [|reflexivity].
  exfalso. apply Hf. now apply field_nullish.
Qed.

Lemma strict_eq_str_true v s : strict_eq_str v s = true <-> v = Str s.
Proof.
  destruct v; simpl; split; try discriminate; intros Hs.
  - apply String.eqb_eq in Hs. now subst.
  - injection Hs as ->. apply String.eqb_refl.
Qed.

Lemma strict_eq_str_refl s : strict_eq_str (Str s) s = true.
Proof. now apply strict_eq_str_true. Qed.

Lemma or_else_falsy a b : truthy a = false -> or_else a b = b.
Proof. unfold or_else. now intros ->. Qed.

Lemma or_else_truthy a b : truthy a = true -> or_else a b = a.
Proof. unfold or_else. now intros ->. Qed.

(** *** Conversions *)

Section Conversions.
Context `{Runtime}.

Lemma ToString_primitive p : ToString (of_primitive p) = Normal (PrimitiveToString p).
Proof. destruct p as [| |[|]| |]; reflexivity. Qed.

(** Induction on a value, with the hypothesis for every element of an
    array. *)
Lemma Value_elements_ind (P : Value -> Prop) :
  P Undefined -> P Null -> (forall b, P (Boolean b)) -> (forall n, P (Num n)) ->
  (forall s, P (Str s)) -> (forall l, Forall P l -> P (Arr l)) ->
  (forall props, P (Obj props)) ->
  forall v, P v.
Proof.
  intros HU HN HB Hn Hs HA HO.
  fix IH 1. intros [| |b|n|s|l|props].
  - exact HU.
  - exact HN.
  - apply HB.
  - apply Hn.
  - apply Hs.
  - apply HA. induction l as [|x rest IHl]; constructor; [apply IH|exact IHl].
  - apply HO.
Qed.

Lemma ToString_Arr l : ToString (Arr l) = cmap (join ",") (elements l).
Proof. reflexivity. Qed.

(** A conversion to a string throws nothing but the [TypeError] of
    [ToPrimitive]. *)
Lemma ToString_throws v e :
  ToString v = Throw e -> e = TypeError "Cannot convert object to primitive value".
Proof.
  revert e. induction v as [| |b|n|s|l IHl|props] using Value_elements_ind;
    intros e; try (destruct b); try discriminate.
  - rewrite ToString_Arr.
    assert (forall e', elements l = Throw e'
                       -> e' = TypeError "Cannot convert object to primitive value") as Hl.
    { induction IHl as [|x rest Hx _ IHrest]; simpl; intros e'; [discriminate|].
      destruct (match x with Undefined | Null => Normal "" | _ => ToString x end)
        as [sx|ex] eqn:Hsx.
      - destruct (elements rest) as [ss|es]; [discriminate|].
        intros [= <-]. now apply IHrest.
      - intros [= <-]. destruct x; try discriminate; now apply Hx. }
    destruct (elements l) as [ss|el]; simpl; [discriminate|].
    intros [= <-]. now apply Hl.
  - simpl. destruct (has_own "toString" props); [now intros [= <-]|discriminate].
Qed.

Lemma converts_ToString v : converts v = true -> exists s, ToString v = Normal s.
Proof. unfold converts. destruct (ToString v) as [s|e]; [eauto|discriminate]. Qed.

Lemma ToString_converts v s : ToString v = Normal s -> converts v = true.
Proof. unfold converts. now intros ->. Qed.

Lemma not_converts_ToString v :
  converts v = false
  -> ToString v = Throw (TypeError "Cannot convert object to primitive value").
Proof.
  unfold converts. destruct (ToString v) as [s|e] eqn:Hv; [discriminate|].
  intros _. now rewrite (ToString_throws v e Hv).
Qed.

(** Only arrays and objects can fail to convert. *)
Lemma converts_primitive p : converts (of_primitive p) = true.
Proof. unfold converts. now rewrite ToString_primitive. Qed.

Lemma converts_simple v :
  match v with Arr _ | Obj _ => False | _ => True end -> converts v = true.
Proof. destruct v as [| |[|]| | | |]; simpl; intros Hv; try reflexivity; contradiction. Qed.

Lemma newDate_instant v : converts v = true -> newDate v = Normal (instant v).
Proof.
  intros Hv. unfold instant. destruct (converts_ToString v Hv) as [s Hs].
  destruct v; try reflexivity; unfold newDate; now rewrite Hs.
Qed.

Lemma newDate_Normal v t : newDate v = Normal t -> instant v = t.
Proof. unfold instant. now intros ->. Qed.

Lemma newDate_throws v e :
  newDate v = Throw e -> e = TypeError "Cannot convert object to primitive value".
Proof.
  unfold newDate. destruct v; try discriminate;
    (destruct (ToString _) eqn:Hs;
     [discriminate|intros [= <-]; now apply ToString_throws in Hs]).
Qed.

Lemma ToIntegerOrInfinity_converts v :
  converts v = true -> exists r, ToIntegerOrInfinity v = Normal r.
Proof.
  intros Hv. destruct (converts_ToString v Hv) as [s Hs].
  unfold ToIntegerOrInfinity. destruct v; eauto; rewrite Hs; eauto.
Qed.

Lemma ToIntegerOrInfinity_throws v e :
  ToIntegerOrInfinity v = Throw e -> e = TypeError "Cannot convert object to primitive value".
Proof.
  unfold ToIntegerOrInfinity. destruct v; try discriminate;
    (destruct (ToString _) eqn:Hs;
     [discriminate|intros [= <-]; now apply ToString_throws in Hs]).
Qed.

Lemma greater_than_zero_throws v e :
  greater_than_zero v = Throw e -> e = TypeError "Cannot convert object to primitive value".
Proof.
  unfold greater_than_zero. destruct v; try discriminate;
    (destruct (ToString _) eqn:Hs;
     [discriminate|intros [= <-]; now apply ToString_throws in Hs]).
Qed.

Lemma slice0_throws {A} (arr : list A) v e :
  slice0 arr v = Throw e -> e = TypeError "Cannot convert object to primitive value".
Proof.
  unfold slice0. destruct v; try discriminate;
    (destruct (ToIntegerOrInfinity _) as [[z| |]|e'] eqn:Hz; try discriminate;
     intros [= <-]; now apply ToIntegerOrInfinity_throws in Hz).
Qed.

End Conversions.

End JSFacts.

(** Unfold the plumbing of [Eff.M]. *)
Ltac eff_unfold := unfold Eff.bind, Eff.lift, Eff.ret, Eff.throw, Eff.read, Eff.write.

(** Reads of [args.k] on an [args] that has properties. *)
Ltac read_args Hn := repeat rewrite (JSFacts.get_field _ _ Hn).


(** ** The in-memory server *)

Module MemoryFacts.
Import JS JsonRpc Eff Memory JSFacts.

Section Facts.
Context `{Runtime}.

(** *** Searching the array *)

Lemma findIndex_None p (events : Store) :
  findIndex p events = None <-> (forall e, e ∈ events -> p e = false).
Proof.
  induction events as [|e rest IH]; simpl.
  - split; [intros _ e He; inversion He | reflexivity].
  - destruct (p e) eqn:Hp.
    + split; [discriminate|]. intros Hall.
      rewrite Hall in Hp by left. discriminate.
    + destruct (findIndex p rest) as [i|]; simpl.
      * split; [discriminate|]. intros Hall.
        assert (Some i = None) as Habs; [|discriminate].
        apply IH. intros e' He'. apply Hall. now right.
      * split; [|reflexivity]. intros _ e' He'.
        apply elem_of_cons in He' as [->|He']; [assumption|].
        now apply IH.
Qed.

Lemma findIndex_Some p (events : Store) i :
  findIndex p events = Some i ->
  exists e, events !! i = Some e /\ p e = true
            /\ forall j e', (j < i)%nat -> events !! j = Some e' -> p e' = false.
Proof.
  revert i. induction events as [|e rest IH]; simpl; intros i Hi; [discriminate|].
  destruct (p e) eqn:Hp.
  - injection Hi as <-. exists e. repeat split; [assumption|]. intros j e' Hj. lia.
  - destruct (findIndex p rest) as [k|] eqn:Hk; simpl in Hi; [|discriminate].
    injection Hi as <-. destruct (IH k eq_refl) as (e0 & Hl & Hp0 & Hbefore).
    exists e0. repeat split; [assumption..|].
    intros [|j] e' Hj Hl'; simpl in Hl'.
    + now injection Hl' as <-.
    + apply (Hbefore j); [lia|assumption].
Qed.

Lemma findIndex_is_Some p (events : Store) e :
  e ∈ events -> p e = true -> exists i, findIndex p events = Some i.
Proof.
  intros He Hp. destruct (findIndex p events) as [i|] eqn:Hi; [eauto|].
  rewrite findIndex_None in Hi. rewrite (Hi e He) in Hp. discriminate.
Qed.

Lemma find_None p (events : Store) :
  (forall e, e ∈ events -> p e = false) -> List.find p events = None.
Proof.
  induction events as [|e rest IH]; simpl; intros Hall; [reflexivity|].
  rewrite Hall by left. apply IH. intros e' He'. apply Hall. now right.
Qed.

(** An [event_id] that is the id of no stored event matches none of them. *)
Lemma no_match (events : Store) v :
  (forall e, e ∈ events -> v <> Str (id e)) ->
  forall e, e ∈ events -> strict_eq_str v (id e) = false.
Proof.
  intros Hno e He. destruct (strict_eq_str v (id e)) eqn:Heq; [|reflexivity].
  apply strict_eq_str_true in Heq. now apply Hno in He.
Qed.

Lemma getEvent_no_match args (events : Store) :
  nullish args = false ->
  (forall e, e ∈ events -> strict_eq_str (field args "event_id") (id e) = false) ->
  getEvent args events = (Throw (no_such_event (field args "event_id")), events).
Proof.
  intros Hn Hfalse. unfold getEvent, no_such_event. eff_unfold. read_args Hn.
  rewrite find_None by assumption. now destruct (ToString _).
Qed.

Lemma updateEvent_no_match env args (events : Store) :
  nullish args = false ->
  (forall e, e ∈ events -> strict_eq_str (field args "event_id") (id e) = false) ->
  updateEvent env args events = (Throw (no_such_event (field args "event_id")), events).
Proof.
  intros Hn Hfalse. unfold updateEvent, no_such_event. eff_unfold. read_args Hn.
  rewrite (proj2 (findIndex_None _ _) Hfalse). now destruct (ToString _).
Qed.

Lemma deleteEvent_no_match args (events : Store) :
  nullish args = false ->
  (forall e, e ∈ events -> strict_eq_str (field args "event_id") (id e) = false) ->
  deleteEvent args events = (Throw (no_such_event (field args "event_id")), events).
Proof.
  intros Hn Hfalse. unfold deleteEvent, no_such_event. eff_unfold. read_args Hn.
  rewrite (proj2 (findIndex_None _ _) Hfalse). now destruct (ToString _).
Qed.

(** C5, as amended. A [get_event], [update_event] or [delete_event] whose
    [event_id] is the id of no stored event throws and leaves the array
    [events] exactly as it was. What it throws is the error "Event not
    found: ..." with the text of the [event_id], for every [event_id] that
    can be converted to a string (a string, for one); for an object that owns
    a [toString] property, or an array that holds one, it is the [TypeError]
    of the conversion. *)
Theorem unknown_event_id_not_found env args (events : Store) :
  nullish args = false ->
  (forall e, e ∈ events -> field args "event_id" <> Str (id e)) ->
  let event_id := field args "event_id" in
  getEvent args events = (Throw (no_such_event event_id), events)
  /\ updateEvent env args events = (Throw (no_such_event event_id), events)
  /\ deleteEvent args events = (Throw (no_such_event event_id), events)
  /\ (forall shown, ToString event_id = Normal shown ->
                    no_such_event event_id = Error ("Event not found: " +:+ shown))
  /\ (forall E, event_id = Str E -> no_such_event event_id = Error ("Event not found: " +:+ E))
  /\ (converts event_id = false ->
      no_such_event event_id = TypeError "Cannot convert object to primitive value").
Proof.
  intros Hn Hno event_id. pose proof (no_match _ _ Hno) as Hfalse.
  split; [now apply getEvent_no_match|].
  split; [now apply updateEvent_no_match|].
  split; [now apply deleteEvent_no_match|].
  unfold no_such_event. split; [now intros shown ->|].
  split; [now intros E ->|].
  intros Hc. now rewrite (not_converts_ToString _ Hc).
Qed.

(** *** The router *)

(** What the [catch] clause sends. *)
Lemma post_mcp_catch env body (events events' : Store) e :
  route env body events = (Throw e, events') ->
  post_mcp env body events
  = (createError ResultNull (or_else (optional_id body) Null) (-32603)
       "Internal error" (Str (message e)), events').
Proof. unfold post_mcp. now intros ->. Qed.

Lemma post_mcp_normal env body (events events' : Store) r :
  route env body events = (Normal r, events') ->
  post_mcp env body events = (r, events').
Proof. unfold post_mcp. now intros ->. Qed.

(** A [tools/call] envelope reaches the dispatcher. *)
Lemma route_tools_call env id_ name_ args (events : Store) :
  route env (tools_call id_ name_ args) events
  = match handleToolCall env (Obj [("name", Str name_); ("arguments", args)]) events with
    | (Normal r, events') => (Normal (createResponse id_ (ResultCall r) None), events')
    | (Throw e, events') => (Throw e, events')
    end.
Proof. reflexivity. Qed.

Lemma createEvent_appends env args (events : Store) :
  nullish args = false ->
  exists event,
    createEvent env args events
    = (Normal (EventResult ("Event created successfully with ID: " +:+ uuid env) event),
       events ++ [event])
    /\ id event = uuid env
    /\ title event = field args "title"
    /\ description event = or_else (field args "description") (Str "")
    /\ start_time event = field args "start_time"
    /\ end_time event = field args "end_time"
    /\ location event = or_else (field args "location") (Str "")
    /\ attendees event = or_else (field args "attendees") (Arr [])
    /\ created_at event = now env
    /\ updated_at event = None.
Proof.
  intros Hn. unfold createEvent. eff_unfold. read_args Hn.
  eexists. split; [reflexivity|]. simpl. repeat split.
Qed.

Lemma createEvent_no_arguments env args (events : Store) :
  nullish args = true ->
  exists msg, createEvent env args events = (Throw (TypeError msg), events).
Proof.
  intros Hn. destruct args; try discriminate; eexists; reflexivity.
Qed.

(** C1, as amended. A [create_event] whose argument object leaves out
    [title], [start_time] or [end_time] is not refused by the in-memory
    server: the router answers with a result, not an error, and one event,
    whose left-out fields are undefined, is appended to the store. *)
Theorem create_event_missing_field_accepted env id_ args (events : Store) :
  nullish args = false ->
  field args "title" = Undefined \/ field args "start_time" = Undefined
    \/ field args "end_time" = Undefined ->
  exists event text,
    post_mcp env (tools_call id_ "create_event" args) events
    = (createResponse id_ (ResultCall (EventResult text event)) None, events ++ [event])
    /\ id event = uuid env
    /\ title event = field args "title"
    /\ start_time event = field args "start_time"
    /\ end_time event = field args "end_time".
Proof.
  intros Hn _.
  destruct (createEvent_appends env args events Hn)
    as (event & Hrun & Hid & Ht & _ & Hs & He & _).
  exists event, ("Event created successfully with ID: " +:+ uuid env).
  split; [|now repeat split].
  apply post_mcp_normal. rewrite route_tools_call.
  unfold handleToolCall. eff_unfold. simpl. now rewrite Hrun.
Qed.

(** A tool name outside the six makes the dispatcher throw. *)
Lemma unknown_tool_throws env name_ args (events : Store) :
  name_ ∉ map JsonRpc.name TOOLS ->
  handleToolCall env (Obj [("name", Str name_); ("arguments", args)]) events
  = (Throw (Error ("Unknown tool: " +:+ name_)), events).
Proof.
  intros Hname. unfold handleToolCall. eff_unfold. simpl.
  repeat match goal with
  | |- context [String.eqb name_ ?s] =>
      destruct (String.eqb_spec name_ s) as [->|_];
        [exfalso; apply Hname; simpl; repeat constructor|]
  end.
  reflexivity.
Qed.

(** The router reports it as an internal error. *)
Lemma unknown_tool_reported env id_ name_ args (events : Store) :
  name_ ∉ map JsonRpc.name TOOLS ->
  post_mcp env (tools_call id_ name_ args) events
  = (createError ResultNull (or_else id_ Null) (-32603) "Internal error"
       (Str ("Unknown tool: " +:+ name_)), events).
Proof.
  intros Hname. unfold post_mcp. rewrite route_tools_call.
  now rewrite (unknown_tool_throws env name_ args events Hname).
Qed.

(** So is an [event_id] that no stored event has. *)
Lemma not_found_reported env id_ name_ args (events : Store) :
  name_ ∈ ["get_event"; "update_event"; "delete_event"] ->
  nullish args = false ->
  (forall e, e ∈ events -> field args "event_id" <> Str (id e)) ->
  post_mcp env (tools_call id_ name_ args) events
  = (createError ResultNull (or_else id_ Null) (-32603) "Internal error"
       (Str (message (no_such_event (field args "event_id")))), events).
Proof.
  intros Hname Hn Hno. pose proof (no_match _ _ Hno) as Hfalse.
  unfold post_mcp. rewrite route_tools_call.
  unfold handleToolCall. eff_unfold. simpl.
  repeat (apply elem_of_cons in Hname as [->|Hname]); [| | |inversion Hname]; simpl.
  - now rewrite getEvent_no_match.
  - now rewrite updateEvent_no_match.
  - now rewrite deleteEvent_no_match.
Qed.

(** Every throw of the handler is answered with code -32603, the message
    "Internal error" and the text of the exception as [data]; the [id] is
    the one of the body when that one is truthy, and null otherwise. *)
Lemma internal_error_response env body (events events' : Store) e :
  route env body events = (Throw e, events') ->
  exists id_,
    post_mcp env body events
    = ({| jsonrpc := "2.0"; JsonRpc.id := id_; result := None;
          error := Some {| code := -32603; error_message := "Internal error";
                           data := Str (message e) |} |}, events')
    /\ (truthy (field body "id") = true -> id_ = field body "id")
    /\ (truthy (field body "id") = false -> id_ = Null).
Proof.
  intros Hr. rewrite (post_mcp_catch _ _ _ _ _ Hr).
  exists (or_else (optional_id body) Null). split; [reflexivity|].
  assert (optional_id body = field body "id") as ->.
  { destruct body; reflexivity. }
  split; intros Ht; unfold or_else; now rewrite Ht.
Qed.

(** An envelope whose [jsonrpc] is not the string 2.0 is refused before
    anything else is looked at. *)
Lemma invalid_request env body (events : Store) :
  nullish body = false ->
  field body "jsonrpc" <> Str "2.0" ->
  post_mcp env body events
  = (createError ResultNull (field body "id") (-32600) "Invalid Request" Undefined, events).
Proof.
  intros Hn Hv. apply post_mcp_normal. unfold route. eff_unfold.
  assert (destructurable body "jsonrpc" "req.body" = Normal tt) as ->.
  { destruct body; try discriminate; reflexivity. }
  read_args Hn.
  destruct (strict_eq_str (field body "jsonrpc") "2.0") eqn:Heq; [|reflexivity].
  now apply strict_eq_str_true in Heq.
Qed.

(** *** What a call does to the array *)

Lemma list_tools_keep_store args (events : Store) :
  snd (listEvents args events) = events
  /\ snd (getEvent args events) = events
  /\ snd (searchEvents args events) = events.
Proof.
  destruct (nullish args) eqn:Hn.
  - destruct args; try discriminate; repeat split.
  - repeat split.
    + unfold listEvents. eff_unfold. read_args Hn.
      repeat match goal with
             | |- context [if ?b then _ else _] => destruct b
             | |- context [match ?c with Normal _ => _ | Throw _ => _ end] => destruct c
             end; reflexivity.
    + unfold getEvent. eff_unfold. read_args Hn.
      destruct (find _ events); now destruct (ToString _).
    + unfold searchEvents. eff_unfold. read_args Hn.
      repeat match goal with
             | |- context [match ?c with Normal _ => _ | Throw _ => _ end] => destruct c
             end; reflexivity.
Qed.

Lemma createEvent_effect env args (events : Store) :
  Effect env true events (snd (createEvent env args events)).
Proof.
  destruct (nullish args) eqn:Hn.
  - destruct (createEvent_no_arguments env args events Hn) as [msg ->]. constructor.
  - destruct (createEvent_appends env args events Hn)
      as (event & -> & Hid & _ & _ & _ & _ & _ & _ & Hc & Hu).
    now constructor.
Qed.

(** The run of [updateEvent] on the first event whose id is [args.event_id]. *)
Lemma updateEvent_found env args (events : Store) i e :
  nullish args = false ->
  findIndex (fun x => strict_eq_str (field args "event_id") (id x)) events = Some i ->
  events !! i = Some e ->
  let e' :=
    {| id := id e;
       title := assign_if_defined (field args "title") (title e);
       description := assign_if_defined (field args "description") (description e);
       start_time := assign_if_defined (field args "start_time") (start_time e);
       end_time := assign_if_defined (field args "end_time") (end_time e);
       location := assign_if_defined (field args "location") (location e);
       attendees := assign_if_defined (field args "attendees") (attendees e);
       created_at := created_at e;
       updated_at := Some (now env) |} in
  updateEvent env args events
  = (cmap (fun shown => EventResult ("Event updated successfully: " +:+ shown) e')
       (ToString (title e')),
     <[i := e']> events).
Proof.
  intros Hn Hi He e'. unfold updateEvent. eff_unfold. read_args Hn.
  rewrite Hi, He. fold e'. now destruct (ToString (title e')).
Qed.

Lemma updateEvent_effect env create args (events : Store) :
  Effect env create events (snd (updateEvent env args events)).
Proof.
  destruct (nullish args) eqn:Hn.
  - destruct args; try discriminate; constructor.
  - destruct (findIndex (fun x => strict_eq_str (field args "event_id") (id x)) events)
      as [i|] eqn:Hi.
    + destruct (findIndex_Some _ _ _ Hi) as (e & He & _).
      rewrite (updateEvent_found env args events i e Hn Hi He). simpl.
      now apply effect_update with (e := e).
    + rewrite updateEvent_no_match; [constructor|assumption|].
      now apply findIndex_None.
Qed.

Lemma deleteEvent_found args (events : Store) i e :
  nullish args = false ->
  findIndex (fun x => strict_eq_str (field args "event_id") (id x)) events = Some i ->
  events !! i = Some e ->
  deleteEvent args events
  = (cmap (fun shown =>
             DeletedResult ("Event deleted successfully: " +:+ shown) (field args "event_id"))
       (ToString (title e)),
     delete i events).
Proof.
  intros Hn Hi He. unfold deleteEvent. eff_unfold. read_args Hn.
  rewrite Hi, He. now destruct (ToString (title e)).
Qed.

Lemma deleteEvent_effect env create args (events : Store) :
  Effect env create events (snd (deleteEvent args events)).
Proof.
  destruct (nullish args) eqn:Hn.
  - destruct args; try discriminate; constructor.
  - destruct (findIndex (fun x => strict_eq_str (field args "event_id") (id x)) events)
      as [i|] eqn:Hi.
    + destruct (findIndex_Some _ _ _ Hi) as (e & He & _).
      rewrite (deleteEvent_found args events i e Hn Hi He). constructor.
    + rewrite deleteEvent_no_match; [constructor|assumption|].
      now apply findIndex_None.
Qed.

Lemma step_effect c (events : Store) :
  Effect (call_env c) (is_create c) events (step c events).
Proof.
  unfold step, is_create, handleToolCall. destruct c as [env params]. simpl.
  destruct (nullish params) eqn:Hn.
  - destruct params; try discriminate; constructor.
  - eff_unfold.
    assert (destructurable params "name" "params" = Normal tt) as ->.
    { destruct params; try discriminate; reflexivity. }
    read_args Hn. simpl.
    destruct (list_tools_keep_store (field params "arguments") events) as (Hl & Hg & Hs).
    destruct (strict_eq_str (field params "name") "create_event") eqn:Hc.
    { apply createEvent_effect. }
    destruct (strict_eq_str _ "list_events"). { rewrite Hl. constructor. }
    destruct (strict_eq_str _ "get_event"). { rewrite Hg. constructor. }
    destruct (strict_eq_str _ "update_event"). { apply updateEvent_effect. }
    destruct (strict_eq_str _ "delete_event"). { apply deleteEvent_effect. }
    destruct (strict_eq_str _ "search_events"). { rewrite Hs. constructor. }
    destruct (ToString _); constructor.
Qed.

(** *** Timestamps come from the clock *)

Lemma effect_stamps P env create (events events' : Store) :
  Effect env create events events' ->
  P (now env) -> stamps P events -> stamps P events'.
Proof.
  intros Heff Hnow Hst. destruct Heff as [|e Hc Hid Hcr Hup|i e e' He Hid Hcr Hup|i].
  - assumption.
  - intros x Hx. apply elem_of_app in Hx as [Hx|Hx]; [now apply Hst|].
    apply list_elem_of_singleton in Hx as ->. rewrite Hcr, Hup. split; [assumption|discriminate].
  - intros x Hx. apply list_elem_of_lookup in Hx as [j Hj].
    destruct (decide (i = j)) as [->|Hne].
    + rewrite list_lookup_insert_eq in Hj by (now apply lookup_lt_Some in He).
      injection Hj as <-. rewrite Hcr, Hup. split.
      * apply list_elem_of_lookup_2 in He. exact (proj1 (Hst e He)).
      * now intros u [= <-].
    + rewrite list_lookup_insert_ne in Hj by assumption.
      apply Hst. now apply list_elem_of_lookup_2 in Hj.
  - intros x Hx. apply Hst. eapply elem_of_sublist; [exact Hx|]. apply sublist_delete.
Qed.

Lemma run_stamps P calls (events : Store) :
  (forall c, c ∈ calls -> P (now (call_env c))) ->
  stamps P events -> stamps P (run calls events).
Proof.
  revert events. induction calls as [|c rest IH]; simpl; intros events Hclock Hst.
  - assumption.
  - apply IH.
    + intros c' Hc'. apply Hclock. now right.
    + apply (effect_stamps P _ _ _ _ (step_effect c events)); [|assumption].
      apply Hclock. now left.
Qed.

Lemma assign_if_defined_supplied v old : v <> Undefined -> assign_if_defined v old = v.
Proof. now destruct v. Qed.

Lemma assign_if_defined_absent v old : v = Undefined -> assign_if_defined v old = old.
Proof. now intros ->. Qed.

(** The first stored event with a given id. *)
Lemma first_with_id (events : Store) E :
  E ∈ ids events ->
  exists i e,
    findIndex (fun x => strict_eq_str (Str E) (id x)) events = Some i
    /\ events !! i = Some e /\ id e = E
    /\ forall j x, (j < i)%nat -> events !! j = Some x -> id x <> E.
Proof.
  intros Hin. apply list_elem_of_fmap in Hin as (e0 & -> & He0).
  destruct (findIndex_is_Some (fun x => strict_eq_str (Str (id e0)) (id x)) events e0 He0)
    as [i Hi]; [apply strict_eq_str_refl|].
  destruct (findIndex_Some _ _ _ Hi) as (e & He & Hp & Hbefore).
  apply strict_eq_str_true in Hp. injection Hp as Hp.
  exists i, e. repeat split; [assumption..|now symmetry|].
  intros j x Hj Hx Heq. specialize (Hbefore j x Hj Hx).
  rewrite Heq in Hbefore. rewrite strict_eq_str_refl in Hbefore. discriminate.
Qed.

(** C2, as amended. On a store that holds an event with id [E],
    [update_event] with [event_id = E] writes to the first such event: every
    field supplied (any value but undefined: null, the empty string, 0 and
    false overwrite too) takes the supplied value, every field not supplied
    keeps its value, [id] and [created_at] are kept, and [updated_at] becomes
    the reading of the clock. The call then returns the event, or throws the
    [TypeError] of the conversion when the title cannot be converted to a
    string. The reading is not before [created_at] nor before the previous
    [updated_at] when the store is the outcome of earlier calls none of which
    read a later clock. *)
Theorem update_event_overwrites_supplied_fields env args (events : Store) E :
  field args "event_id" = Str E ->
  E ∈ ids events ->
  exists i e e',
    events !! i = Some e /\ id e = E
    /\ (forall j x, (j < i)%nat -> events !! j = Some x -> id x <> E)
    /\ updateEvent env args events
       = (cmap (fun shown => EventResult ("Event updated successfully: " +:+ shown) e')
            (ToString (title e')),
          <[i := e']> events)
    /\ (forall f, field args (field_name f) <> Undefined ->
                  project f e' = field args (field_name f))
    /\ (forall f, field args (field_name f) = Undefined -> project f e' = project f e)
    /\ id e' = id e
    /\ created_at e' = created_at e
    /\ updated_at e' = Some (now env)
    /\ (forall calls,
          events = run calls [] ->
          (forall c, c ∈ calls -> (now (call_env c) <= now env)%Z) ->
          (created_at e <= now env)%Z
          /\ forall u, updated_at e = Some u -> (u <= now env)%Z).
Proof.
  intros Hid Hin.
  assert (nullish args = false) as Hn by (apply (field_defined args "event_id"); congruence).
  destruct (first_with_id events E Hin) as (i & e & Hi & He & HE & Hfirst).
  rewrite <- Hid in Hi.
  pose proof (updateEvent_found env args events i e Hn Hi He) as Hrun. simpl in Hrun.
  do 3 eexists. split; [exact He|]. split; [exact HE|]. split; [exact Hfirst|].
  split; [exact Hrun|]. simpl.
  split; [intros [] Hf; simpl in *; now apply assign_if_defined_supplied|].
  split; [intros [] Hf; simpl in *; now apply assign_if_defined_absent|].
  do 3 (split; [reflexivity|]).
  intros calls -> Hclock.
  apply (run_stamps (fun t => (t <= now env)%Z) calls [] Hclock).
  - intros x Hx. inversion Hx.
  - now apply list_elem_of_lookup_2 in He.
Qed.

(** *** Ids come from [uuidv4()] *)

Lemma drawn_cons c calls :
  drawn (c :: calls)
  = if is_create c then uuid (call_env c) :: drawn calls else drawn calls.
Proof. unfold drawn. simpl. now destruct (is_create c). Qed.

Lemma drawn_app calls1 calls2 : drawn (calls1 ++ calls2) = drawn calls1 ++ drawn calls2.
Proof. unfold drawn. now rewrite List.filter_app, fmap_app. Qed.

Lemma effect_ids env create (events events' : Store) :
  Effect env create events events' ->
  ids events' `sublist_of` (ids events ++ (if create then [uuid env] else [])).
Proof.
  unfold ids. intros [|e -> Hid _ _|i e e' He Hid _ _|i].
  - now apply sublist_inserts_r.
  - rewrite fmap_app. simpl. now rewrite Hid.
  - rewrite list_fmap_insert, Hid, list_insert_id.
    + now apply sublist_inserts_r.
    + now rewrite list_lookup_fmap, He.
  - rewrite list_fmap_delete. apply sublist_inserts_r, sublist_delete.
Qed.

Lemma run_ids calls (events : Store) :
  ids (run calls events) `sublist_of` (ids events ++ drawn calls).
Proof.
  revert events. induction calls as [|c rest IH]; simpl; intros events.
  - now rewrite app_nil_r.
  - etransitivity; [apply IH|].
    rewrite drawn_cons.
    pose proof (effect_ids _ _ _ _ (step_effect c events)) as Hstep.
    destruct (is_create c).
    + change (uuid (call_env c) :: drawn rest) with ([uuid (call_env c)] ++ drawn rest).
      rewrite app_assoc. now apply sublist_app.
    + rewrite app_nil_r in Hstep. now apply sublist_app.
Qed.

Lemma NoDup_delete_lookup {A} (l : list A) i x :
  NoDup l -> l !! i = Some x -> x ∉ delete i l.
Proof.
  intros Hnd Hi. rewrite delete_take_drop.
  rewrite <- (take_drop_middle l i x Hi) in Hnd.
  apply NoDup_app in Hnd as (_ & Hdisj & Hnd).
  apply NoDup_cons in Hnd as [Hx _].
  intros Hin. apply elem_of_app in Hin as [Hin|Hin]; [|contradiction].
  apply (Hdisj x Hin). now left.
Qed.

(** C4, as amended. The code never compares a new id with the stored
    ones: ids are distinct as far as the strings [uuidv4()] returns are.
    After a [delete_event] that succeeded on id [E], in a store built by calls
    whose drawn ids were pairwise distinct, and for as long as no later
    [create_event] draws [E] again: [E] is the id of no stored event, and a
    [get_event] for [E] throws "Event not found". While the drawn ids stay
    pairwise distinct, so do the stored ones. *)
Theorem deleted_id_stays_gone before after args E result (s2 : Store) :
  NoDup (drawn before) ->
  field args "event_id" = Str E ->
  deleteEvent args (run before []) = (Normal result, s2) ->
  E ∉ drawn after ->
  forall later rest,
    after = later ++ rest ->
    (E ∉ ids (run later s2))
    /\ (forall args',
          field args' "event_id" = Str E ->
          getEvent args' (run later s2)
          = (Throw (Error ("Event not found: " +:+ E)), run later s2))
    /\ (NoDup (drawn (before ++ later)) -> NoDup (ids (run later s2))).
Proof.
  intros Hnd Hid Hdel Hfresh.
  assert (nullish args = false) as Hn by (apply (field_defined args "event_id"); congruence).
  pose proof (run_ids before []) as Hsub1.
  change (ids [] ++ drawn before) with (drawn before) in Hsub1.
  destruct (findIndex (fun x => strict_eq_str (field args "event_id") (id x)) (run before []))
    as [i|] eqn:Hi; cycle 1.
  { rewrite deleteEvent_no_match in Hdel; [discriminate|assumption|].
    now apply findIndex_None. }
  destruct (findIndex_Some _ _ _ Hi) as (e & He & Hp & _).
  rewrite (deleteEvent_found _ _ _ _ Hn Hi He) in Hdel.
  injection Hdel as Hres Hs2. subst s2. clear Hres.
  rewrite Hid in Hp. apply strict_eq_str_true in Hp. injection Hp as Hp.
  assert (ids (run before []) !! i = Some E) as HiE.
  { unfold ids. now rewrite list_lookup_fmap, He, Hp. }
  assert (NoDup (ids (run before []))) as Hnd_s1
    by exact (sublist_NoDup _ _ Hnd Hsub1).
  assert (ids (delete i (run before [])) = delete i (ids (run before []))) as Hids2.
  { unfold ids. apply list_fmap_delete. }
  intros later rest ->. rewrite drawn_app in Hfresh.
  pose proof (run_ids later (delete i (run before []))) as Hsub.
  assert (E ∉ ids (run later (delete i (run before [])))) as Hgone.
  { intros Hin. apply (elem_of_sublist _ _ _ Hin) in Hsub.
    apply elem_of_app in Hsub as [Hin2|Hin2].
    - rewrite Hids2 in Hin2. now apply (NoDup_delete_lookup _ _ _ Hnd_s1 HiE).
    - apply Hfresh. apply elem_of_app. now left. }
  split; [exact Hgone|]. split.
  - intros args' Hid'.
    assert (nullish args' = false) as Hn'
      by (apply (field_defined args' "event_id"); congruence).
    rewrite getEvent_no_match; [|assumption|].
    + unfold no_such_event. now rewrite Hid'.
    + rewrite Hid'. apply no_match. intros x Hx [= ->]. apply Hgone.
      unfold ids. now apply list_elem_of_fmap_2.
  - intros Hnd'. rewrite drawn_app in Hnd'.
    refine (sublist_NoDup _ _ (sublist_NoDup _ _ Hnd' _) Hsub).
    apply sublist_app; [|reflexivity].
    rewrite Hids2. etransitivity; [apply sublist_delete|exact Hsub1].
Qed.

(** *** Listing and searching *)

Lemma slice0_cases {A} (arr : list A) v :
  slice0 arr v
  = match v with
    | Undefined => Normal arr
    | _ =>
        cmap (fun r => match r with
                       | Int z =>
                           if (z <? 0)%Z
                           then take (Z.to_nat (Z.max (Z.of_nat (length arr) + z) 0)) arr
                           else take (Z.to_nat z) arr
                       | PosInf => arr
                       | NegInf => []
                       end) (ToIntegerOrInfinity v)
    end.
Proof.
  unfold slice0. destruct v; try reflexivity;
    destruct (ToIntegerOrInfinity _) as [[z| |]|e]; reflexivity.
Qed.

(** [slice(0, end)] keeps a front part of the array, when [end] can be
    converted; for a non-negative number it keeps that many elements. *)
Lemma slice0_take {A} (arr : list A) v :
  converts v = true ->
  exists n, slice0 arr v = Normal (take n arr)
            /\ forall k, v = Num k -> (0 <= k)%Z -> n = Z.to_nat k.
Proof.
  intros Hv. destruct (ToIntegerOrInfinity_converts v Hv) as [r Hr].
  assert (exists n,
             match r with
             | Int z =>
                 if (z <? 0)%Z
                 then take (Z.to_nat (Z.max (Z.of_nat (length arr) + z) 0)) arr
                 else take (Z.to_nat z) arr
             | PosInf => arr
             | NegInf => []
             end = take n arr
             /\ forall k, v = Num k -> (0 <= k)%Z -> n = Z.to_nat k) as (n & Hn & Hk).
  { destruct r as [z| |].
    - destruct (z <? 0)%Z eqn:Hneg.
      + eexists. split; [reflexivity|]. intros k -> Hk. simpl in Hr.
        injection Hr as ->. apply Z.ltb_lt in Hneg. lia.
      + eexists. split; [reflexivity|]. intros k -> _. simpl in Hr. now injection Hr as ->.
    - exists (length arr). split; [now rewrite firstn_all|].
      intros k ->. discriminate.
    - exists 0%nat. split; [reflexivity|]. intros k ->. discriminate. }
  rewrite slice0_cases, Hr. simpl. rewrite Hn.
  destruct v; try (exists n; split; [reflexivity|exact Hk]).
  exists (length arr). split; [now rewrite firstn_all|]. discriminate.
Qed.

Lemma slice0_default {A} (arr : list A) v :
  truthy v = false -> slice0 arr (or_else v (Num 10)) = Normal (take 10 arr).
Proof. intros Hv. now rewrite or_else_falsy. Qed.

(** The number of elements [slice(0, limit || 10)] keeps. *)
Lemma limit_take {A} (arr : list A) limit_ :
  converts limit_ = true ->
  exists n,
    slice0 arr (or_else limit_ (Num 10)) = Normal (take n arr)
    /\ (forall k, limit_ = Num k -> (0 < k)%Z -> n = Z.to_nat k)
    /\ (truthy limit_ = false -> n = 10%nat).
Proof.
  intros Hc. destruct (truthy limit_) eqn:Hlimit.
  - destruct (slice0_take arr limit_ Hc) as (n & Hslice & Hnum).
    exists n. rewrite or_else_truthy by assumption.
    split; [assumption|]. split; [|discriminate].
    intros k Hk Hpos. apply Hnum; [assumption|lia].
  - exists 10%nat. split; [now apply slice0_default|]. split; [|reflexivity].
    intros k -> Hpos. simpl in Hlimit.
    apply negb_false_iff, Z.eqb_eq in Hlimit. lia.
Qed.

(** A limit that cannot be converted makes [slice] throw. *)
Lemma limit_throws {A} (arr : list A) limit_ :
  converts limit_ = false ->
  slice0 arr (or_else limit_ (Num 10))
  = Throw (TypeError "Cannot convert object to primitive value").
Proof.
  intros Hc. pose proof (not_converts_ToString _ Hc) as Hs.
  destruct limit_ as [| |[|]| | |l|props]; try discriminate;
    rewrite or_else_truthy by reflexivity; unfold slice0, ToIntegerOrInfinity; now rewrite Hs.
Qed.

Lemma filter_filter_and {A} (f g : A -> bool) (l : list A) :
  List.filter g (List.filter f l) = List.filter (fun x => f x && g x) l.
Proof.
  induction l as [|x l IH]; simpl; [reflexivity|].
  destruct (f x); simpl; [destruct (g x)|]; now rewrite IH.
Qed.

Lemma filter_all {A} (l : list A) : List.filter (fun _ => true) l = l.
Proof. induction l as [|x l IH]; simpl; congruence. Qed.

(** A date filter over events whose [start_time] can be converted. *)
Lemma filterC_starts compare bound (events : Store) :
  (forall e, e ∈ events -> converts (start_time e) = true) ->
  filterC (starts compare bound) events
  = Normal (List.filter (fun e => compare (instant (start_time e)) bound) events).
Proof.
  induction events as [|e rest IH]; simpl; intros Hc; [reflexivity|].
  unfold starts at 1. rewrite newDate_instant by (apply Hc; now left). simpl.
  rewrite IH; [reflexivity|]. intros e' He'. apply Hc. now right.
Qed.

Lemma filter_window start_date end_date (events : Store) :
  (let filteredEvents :=
     if truthy start_date
     then List.filter
            (fun event => date_ge (instant (start_time event)) (instant start_date)) events
     else events in
   if truthy end_date
   then List.filter
          (fun event => date_le (instant (start_time event)) (instant end_date))
          filteredEvents
   else filteredEvents)
  = List.filter (in_window start_date end_date) events.
Proof.
  unfold in_window. simpl. destruct (truthy start_date), (truthy end_date).
  - apply filter_filter_and.
  - apply List.filter_ext. intros e. now rewrite andb_true_r.
  - reflexivity.
  - symmetry. apply filter_all.
Qed.

(** What [listEvents] answers when the bounds, and with a bound the stored
    start times, can be converted; the limit is left to [slice]. *)
Lemma listEvents_returns args (events : Store) :
  nullish args = false ->
  converts (field args "start_date") = true ->
  converts (field args "end_date") = true ->
  (truthy (field args "start_date") = true \/ truthy (field args "end_date") = true ->
   forall e, e ∈ events -> converts (start_time e) = true) ->
  listEvents args events
  = (cmap (fun kept => EventsResult ("Found " +:+ pretty (length kept) +:+ " events") kept)
       (slice0
          (List.filter (in_window (field args "start_date") (field args "end_date")) events)
          (or_else (field args "limit") (Num 10))),
     events).
Proof.
  intros Hn Hcs Hce Hst.
  pose proof (filter_window (field args "start_date") (field args "end_date") events) as Hw.
  simpl in Hw. rewrite <- Hw. clear Hw.
  unfold listEvents. eff_unfold. read_args Hn.
  destruct (truthy (field args "start_date")) eqn:Hts.
  - rewrite (newDate_instant _ Hcs), filterC_starts by (apply Hst; now left).
    destruct (truthy (field args "end_date")) eqn:Hte.
    + rewrite (newDate_instant _ Hce), filterC_starts.
      * now destruct (slice0 _ _).
      * intros e He. apply list_elem_of_In, List.filter_In in He as [He _].
        apply Hst; [now left|now apply list_elem_of_In].
    + now destruct (slice0 _ _).
  - destruct (truthy (field args "end_date")) eqn:Hte.
    + rewrite (newDate_instant _ Hce), filterC_starts by (apply Hst; now right).
      now destruct (slice0 _ _).
    + now destruct (slice0 _ _).
Qed.

Lemma instant_Some v t : instant v = Some t -> newDate v = Normal (Some t).
Proof. unfold instant. destruct (newDate v); [now intros ->|discriminate]. Qed.

Lemma date_ge_starts_from bound e :
  date_ge (instant (start_time e)) (instant bound) = true -> starts_from bound e.
Proof.
  unfold date_ge, starts_from.
  destruct (instant (start_time e)) as [t|] eqn:Ht, (instant bound) as [b|] eqn:Hb;
    try discriminate.
  intros Hle. exists t, b. repeat split; [now apply instant_Some..|]. now apply Z.leb_le.
Qed.

Lemma date_le_starts_until bound e :
  date_le (instant (start_time e)) (instant bound) = true -> starts_until bound e.
Proof.
  unfold date_le, starts_until.
  destruct (instant (start_time e)) as [t|] eqn:Ht, (instant bound) as [b|] eqn:Hb;
    try discriminate.
  intros Hle. exists t, b. repeat split; [now apply instant_Some..|]. now apply Z.leb_le.
Qed.

(** C3, as amended. When [start_date], [end_date] and [limit] can be
    converted (anything but an object that owns a [toString] property, or an
    array that holds one), and with a bound so can the stored start times,
    [list_events] returns the first [n] entries of the stored events, in
    insertion order, that pass the date filter; [n] is [limit] when that is a
    positive integer, and 10 when [limit] is absent or falsy (0 included). So
    the result has at most [n] entries. A returned event starts at or after
    [start_date] when that bound is truthy (supplied and not the empty
    string), and at or before [end_date] when that one is; both bounds look
    at [start_time] only. *)
Theorem list_events_window_and_limit args (events : Store) :
  nullish args = false ->
  converts (field args "start_date") = true ->
  converts (field args "end_date") = true ->
  converts (field args "limit") = true ->
  (truthy (field args "start_date") = true \/ truthy (field args "end_date") = true ->
   forall e, e ∈ events -> converts (start_time e) = true) ->
  let start_date := field args "start_date" in
  let end_date := field args "end_date" in
  exists n text,
    listEvents args events
    = (Normal (EventsResult text (take n (List.filter (in_window start_date end_date) events))),
       events)
    /\ (forall k, field args "limit" = Num k -> (0 < k)%Z -> n = Z.to_nat k)
    /\ (truthy (field args "limit") = false -> n = 10%nat)
    /\ (length (take n (List.filter (in_window start_date end_date) events)) <= n)%nat
    /\ forall e,
         e ∈ take n (List.filter (in_window start_date end_date) events) ->
         e ∈ events
         /\ (truthy start_date = true -> starts_from start_date e)
         /\ (truthy end_date = true -> starts_until end_date e).
Proof.
  intros Hn Hcs Hce Hcl Hst start_date end_date.
  pose proof (listEvents_returns args events Hn Hcs Hce Hst) as Hrun.
  fold start_date end_date in Hrun.
  set (passing := List.filter (in_window start_date end_date) events) in *.
  destruct (limit_take passing (field args "limit") Hcl) as (n & Hslice & Hnum & Hdefault).
  rewrite Hslice in Hrun. simpl in Hrun.
  exists n. eexists. split; [exact Hrun|]. do 2 (split; [assumption|]).
  split; [rewrite length_take; lia|]. intros e He.
  apply elem_of_take in He as (j & He & _). apply list_elem_of_lookup_2 in He.
  apply list_elem_of_In, List.filter_In in He as [He Hw].
  split; [now apply list_elem_of_In|]. unfold in_window in Hw.
  apply andb_true_iff in Hw as [Hs Hu].
  split; intros Ht; [rewrite Ht in Hs; now apply date_ge_starts_from
                    |rewrite Ht in Hu; now apply date_le_starts_until].
Qed.

Lemma matches_strings q e t d :
  title e = Str t -> description e = Str d ->
  matches (toLowerCase q) e = Normal (mentions q e).
Proof.
  intros Ht Hd. unfold matches, mentions, contains_ci. rewrite Ht, Hd. simpl.
  now destruct (includes (toLowerCase t) (toLowerCase q)).
Qed.

Lemma filterC_strings q (events : Store) :
  (forall e, e ∈ events -> exists t d, title e = Str t /\ description e = Str d) ->
  filterC (matches (toLowerCase q)) events = Normal (List.filter (mentions q) events).
Proof.
  induction events as [|e rest IH]; simpl; intros Hstr; [reflexivity|].
  destruct (Hstr e) as (t & d & Ht & Hd); [now left|].
  rewrite (matches_strings q e t d Ht Hd), IH; [reflexivity|].
  intros e' He'. apply Hstr. now right.
Qed.

(** What [searchEvents] answers on a store of string titles and
    descriptions; the limit is left to [slice]. *)
Lemma searchEvents_returns args (events : Store) q :
  field args "query" = Str q ->
  (forall e, e ∈ events -> exists t d, title e = Str t /\ description e = Str d) ->
  searchEvents args events
  = (cmap (fun kept =>
             EventsResult ("Found " +:+ pretty (length kept) +:+ " events matching "
                             +:+ dquote +:+ q +:+ dquote) kept)
       (slice0 (List.filter (mentions q) events) (or_else (field args "limit") (Num 10))),
     events).
Proof.
  intros Hq Hstr.
  assert (nullish args = false) as Hn by (apply (field_defined args "query"); congruence).
  unfold searchEvents. eff_unfold. read_args Hn. rewrite Hq. simpl.
  rewrite (filterC_strings q events Hstr). now destruct (slice0 _ _).
Qed.

(** C6, as amended. On a store whose titles and descriptions are all
    strings, [search_events] with the string query [q] and a [limit] that can
    be converted (anything but an object that owns a [toString] property, or
    an array that holds one) returns the first [n] of the events, in store
    order, whose title or description holds [q] letter case apart; [n] is
    [limit] when that is a positive integer and 10 when [limit] is absent or
    falsy. The query "meeting" matches an event titled "Team Meeting". *)
Theorem search_events_case_insensitive args (events : Store) q :
  field args "query" = Str q ->
  (forall e, e ∈ events -> exists t d, title e = Str t /\ description e = Str d) ->
  converts (field args "limit") = true ->
  exists n text,
    searchEvents args events
    = (Normal (EventsResult text (take n (List.filter (mentions q) events))), events)
    /\ (forall k, field args "limit" = Num k -> (0 < k)%Z -> n = Z.to_nat k)
    /\ (truthy (field args "limit") = false -> n = 10%nat)
    /\ (forall e, e ∈ List.filter (mentions q) events <-> e ∈ events /\ mentions q e = true)
    /\ (forall e d, title e = Str "Team Meeting" -> description e = Str d ->
                    mentions "meeting" e = true).
Proof.
  intros Hq Hstr Hcl.
  pose proof (searchEvents_returns args events q Hq Hstr) as Hrun.
  destruct (limit_take (List.filter (mentions q) events) (field args "limit") Hcl)
    as (n & Hslice & Hnum & Hdefault).
  rewrite Hslice in Hrun. simpl in Hrun.
  exists n. eexists. split; [exact Hrun|]. do 2 (split; [assumption|]). split.
  - intros e. rewrite !list_elem_of_In. apply List.filter_In.
  - intros e d Ht Hd. unfold mentions, contains_ci. rewrite Ht, Hd.
    rewrite !toLowerCase_ascii by reflexivity. reflexivity.
Qed.





End Facts.
End MemoryFacts.

(** ** The Google Calendar server *)

Module GoogleFacts.
Import JS JsonRpc Eff Google JSFacts.

Section Facts.
Context `{Runtime} `{Provider}.
Variable env : ProcessEnv.

(** *** The credential check *)

(** Unless both tokens are truthy [isAuthenticated()] is falsy; it
    touches nothing. *)
Lemma not_authenticated (s : State) :
  nullish (userTokens s) = false ->
  truthy (field (userTokens s) "access_token") = false
    \/ truthy (field (userTokens s) "refresh_token") = false ->
  exists auth, isAuthenticated s = (Normal auth, s) /\ truthy auth = false.
Proof.
  intros Hn Hmissing. unfold isAuthenticated. eff_unfold. read_args Hn.
  destruct (truthy (field (userTokens s) "access_token")) eqn:Ha.
  - destruct Hmissing as [Hm|Hm]; [discriminate|]. eauto.
  - eauto.
Qed.

Lemma google_post_mcp_normal body (s s' : State) r :
  route env body s = (Normal r, s') -> post_mcp env body s = (r, s').
Proof. unfold post_mcp. now intros ->. Qed.

Lemma auth_url_not_empty base : PrimitiveToString base +:+ "/auth" <> "".
Proof.
  destruct (PrimitiveToString base); discriminate.
Qed.

(** C9. In the Google server a [tools/call] that arrives while the stored
    tokens lack [access_token] or [refresh_token] (the property is absent,
    or holds a falsy value) is answered with code -32001, "Authentication
    required", and a [data.auth_url] that is the base URL followed by
    [/auth], hence not empty; the state is left as it was: no tool ran and no
    request went to the provider. *)
Theorem tools_call_requires_credentials body (s : State) :
  nullish body = false ->
  field body "jsonrpc" = Str "2.0" ->
  field body "method" = Str "tools/call" ->
  nullish (userTokens s) = false ->
  truthy (field (userTokens s) "access_token") = false
    \/ truthy (field (userTokens s) "refresh_token") = false ->
  let auth_url := PrimitiveToString (BASE_URL env) +:+ "/auth" in
  post_mcp env body s
  = ({| jsonrpc := "2.0";
        JsonRpc.id := field body "id";
        result := None;
        error := Some {| code := -32001;
                         error_message := "Authentication required";
                         data := Obj [("auth_url", Str auth_url)] |} |}, s)
  /\ auth_url <> ""
  /\ requests (snd (post_mcp env body s)) = requests s
  /\ world (snd (post_mcp env body s)) = world s.
Proof.
  intros Hn Hv Hm Hnt Hmissing auth_url.
  destruct (not_authenticated s Hnt Hmissing) as (auth & Hauth & Hfalsy).
  assert (post_mcp env body s
          = (createError ResultNull (field body "id") (-32001) "Authentication required"
               (Obj [("auth_url", Str auth_url)]), s)) as Hpost.
  { apply google_post_mcp_normal. unfold route. eff_unfold.
    assert (destructurable body "jsonrpc" "req.body" = Normal tt) as ->.
    { destruct body; try discriminate; reflexivity. }
    read_args Hn. rewrite Hv, Hm. simpl. fold (@isAuthenticated H0).
    rewrite Hauth, Hfalsy. reflexivity. }
  rewrite Hpost. repeat split. apply auth_url_not_empty.
Qed.

(** An envelope whose [jsonrpc] is not the string 2.0 is refused before
    anything else is looked at. *)
Lemma google_invalid_request body (s : State) :
  nullish body = false ->
  field body "jsonrpc" <> Str "2.0" ->
  post_mcp env body s
  = (createError ResultNull (field body "id") (-32600) "Invalid Request" Undefined, s).
Proof.
  intros Hn Hv. apply google_post_mcp_normal. unfold route. eff_unfold.
  assert (destructurable body "jsonrpc" "req.body" = Normal tt) as ->.
  { destruct body; try discriminate; reflexivity. }
  read_args Hn.
  destruct (strict_eq_str (field body "jsonrpc") "2.0") eqn:Heq; [|reflexivity].
  now apply strict_eq_str_true in Heq.
Qed.

(** *** [max_results] *)


Lemma assoc_set_prop_ne k k' x props :
  k <> k' -> assoc k (set_prop k' x props) = assoc k props.
Proof.
  intros Hne. induction props as [|[k0 v0] rest IH]; simpl.
  - destruct (String.eqb_spec k k'); [contradiction|reflexivity].
  - destruct (String.eqb_spec k' k0) as [->|Hne0]; simpl.
    + destruct (String.eqb_spec k k0); [contradiction|reflexivity].
    + destruct (String.eqb_spec k k0); [reflexivity|assumption].
Qed.

Lemma assoc_set_if_truthy_ne k k' x props :
  k <> k' -> assoc k (set_if_truthy k' x props) = assoc k props.
Proof.
  intros Hne. unfold set_if_truthy. destruct (truthy x); [|reflexivity].
  now apply assoc_set_prop_ne.
Qed.

(** With both tokens truthy the client is handed out. *)
Lemma getCalendarClient_authenticated (s : State) :
  nullish (userTokens s) = false ->
  truthy (field (userTokens s) "access_token") = true ->
  truthy (field (userTokens s) "refresh_token") = true ->
  getCalendarClient s = (Normal tt, s).
Proof.
  intros Hn Ha Hr. unfold getCalendarClient, isAuthenticated. eff_unfold.
  read_args Hn. rewrite Ha. read_args Hn. now rewrite Hr.
Qed.


(** *** [create_event] *)

(** With credentials stored and no attendees, [createEvent] validates
    nothing: it sends one insert whose [summary], [start] and [end] hold what
    the caller sent, undefined included, and it throws when the provider
    does, or answers with a [summary] that cannot be converted. *)
Lemma google_createEvent_forwards args (s : State) :
  nullish args = false ->
  truthy (field args "attendees") = false ->
  nullish (userTokens s) = false ->
  truthy (field (userTokens s) "access_token") = true ->
  truthy (field (userTokens s) "refresh_token") = true ->
  let request :=
    Obj [("calendarId", or_else (field args "calendar_id") (Str "primary"));
         ("resource",
          Obj [("summary", field args "title");
               ("description", or_else (field args "description") (Str ""));
               ("location", or_else (field args "location") (Str ""));
               ("start", Obj [("dateTime", field args "start_time"); ("timeZone", Str "UTC")]);
               ("end", Obj [("dateTime", field args "end_time"); ("timeZone", Str "UTC")])]);
         ("sendNotifications", Boolean true)] in
  requests (snd (createEvent args s)) = requests s ++ [(events_insert, request)]
  /\ match fst (api (userTokens s) events_insert request (world s)) with
     | Normal data_ =>
         fst (createEvent args s)
         = match ToString (assoc "summary" data_) with
           | Normal shown =>
               Normal (EventResult ("Event created successfully: " +:+ shown) (Obj data_))
           | Throw e => Throw (Error ("Failed to create event: " +:+ message e))
           end
     | Throw e =>
         fst (createEvent args s) = Throw (Error ("Failed to create event: " +:+ message e))
     end.
Proof.
  intros Hn Hatt Hnt Ha Hr request.
  pose proof (getCalendarClient_authenticated s Hnt Ha Hr) as Hclient.
  unfold createEvent, try_rethrow. eff_unfold. rewrite Hclient.
  read_args Hn. rewrite Hatt. simpl. fold request. unfold calendar.
  destruct (api (userTokens s) events_insert request (world s)) as [[data_|e] w'];
    simpl; [destruct (ToString (assoc "summary" data_))|]; simpl; split; reflexivity.
Qed.

End Facts.
End GoogleFacts.

(** ** Both servers *)

Module ServerFacts.
Import JS JsonRpc JSFacts.

Section Facts.
Context `{Runtime} `{Google.Provider}.

(** C8. Whatever else it holds, an envelope whose [jsonrpc] member is not
    the string 2.0 gets the error -32600 "Invalid Request" with its own [id],
    from either server, and the server's state stays as it was. *)
Theorem invalid_jsonrpc_refused menv genv body (events : list Memory.Event)
    (s : Google.State) :
  nullish body = false ->
  field body "jsonrpc" <> Str "2.0" ->
  Memory.post_mcp menv body events
  = ({| jsonrpc := "2.0";
        id := field body "id";
        result := None;
        error := Some {| code := -32600; error_message := "Invalid Request"; data := Null |} |},
     events)
  /\ Google.post_mcp genv body s
     = ({| jsonrpc := "2.0";
           id := field body "id";
           result := None;
           error := Some {| code := -32600; error_message := "Invalid Request"; data := Null |} |},
        s).
Proof.
  intros Hn Hv. split.
  - now rewrite MemoryFacts.invalid_request.
  - now rewrite GoogleFacts.google_invalid_request.
Qed.


(** A method the router does not know is answered with the [id] of the
    request, 0 included. *)
Lemma method_not_found_echoes_id_zero menv (events : list Memory.Event) :
  Memory.post_mcp menv
    (Obj [("jsonrpc", Str "2.0"); ("id", Num 0); ("method", Str "tools/run")]) events
  = ({| jsonrpc := "2.0";
        id := Num 0;
        result := None;
        error := Some {| code := -32601; error_message := "Method not found"; data := Null |} |},
     events).
Proof. reflexivity. Qed.

(** C7, at the request [{jsonrpc: 2.0, id: 0, method: tools/call, params:
    {name: no_such_tool, arguments: {}}}]: the unknown tool is reported with
    code -32603, "Internal error" and the text of the exception as [data],
    but the response carries the id null, not the id 0 of the request. *)
Theorem internal_error_replaces_id_zero_by_null menv (events : list Memory.Event) :
  Memory.post_mcp menv (Memory.tools_call (Num 0) "no_such_tool" (Obj [])) events
  = ({| jsonrpc := "2.0";
        id := Null;
        result := None;
        error := Some {| code := -32603;
                         error_message := "Internal error";
                         data := Str "Unknown tool: no_such_tool" |} |},
     events).
Proof. reflexivity. Qed.

End Facts.
End ServerFacts.

(** ** The theorems at work, and the inputs on which a claim fails *)

Module Examples.
Import JS JsonRpc Memory Sample MoreSample.

#[local] Existing Instance Iso.runtime.

(** The scenario of the specification: create, get, update the location,
    delete, get again. *)
Example scenario :
  let created := @step Iso.runtime (create_call at_nine standup_args) [] in
  let wanted := Obj [("event_id", Str (uuid at_nine))] in
  let changed := Obj [("event_id", Str (uuid at_nine)); ("location", Str "Room A")] in
  let updated := snd (updateEvent at_ten changed created) in
  let deleted := snd (deleteEvent wanted updated) in
  created = [standup]
  /\ fst (getEvent wanted created) = Normal (EventResult "Event details for: Standup" standup)
  /\ (exists e, updated = [e] /\ location e = Str "Room A" /\ title e = Str "Standup"
                /\ updated_at e = Some (now at_ten))
  /\ deleted = []
  /\ fst (getEvent wanted deleted)
     = Throw (Error "Event not found: 6f1c2f0e-3c1b-4b7e-9a57-0d2f5c8e1a11").
Proof.
  repeat split. eexists. repeat split.
Qed.

(** C1 fails here: a [create_event] without [title] is answered with a
    result, and the event is in the store afterwards. *)
Lemma create_event_without_title_is_stored :
  field untitled_args "title" = Undefined
  /\ @post_mcp Iso.runtime at_nine (tools_call (Num 1) "create_event" untitled_args) []
     = ({| jsonrpc := "2.0";
           JsonRpc.id := Num 1;
           result := Some (ResultCall
                             (EventResult
                                "Event created successfully with ID: 6f1c2f0e-3c1b-4b7e-9a57-0d2f5c8e1a11"
                                untitled));
           error := None |},
        [untitled]).
Proof. split; reflexivity. Qed.

Lemma create_event_missing_field_accepted_witness :
  exists event text,
    @post_mcp Iso.runtime at_nine (tools_call (Num 1) "create_event" untitled_args) []
    = (createResponse (Num 1) (ResultCall (EventResult text event)) None, [] ++ [event])
    /\ id event = uuid at_nine
    /\ title event = field untitled_args "title"
    /\ start_time event = field untitled_args "start_time"
    /\ end_time event = field untitled_args "end_time".
Proof.
  apply (@MemoryFacts.create_event_missing_field_accepted Iso.runtime).
  - reflexivity.
  - left. reflexivity.
Defined.

Lemma update_event_overwrites_supplied_fields_witness :
  let args := Obj [("event_id", Str (uuid at_nine)); ("location", Str "Room A");
                   ("description", Str "")] in
  exists i e e',
    [standup; team_meeting] !! i = Some e /\ id e = uuid at_nine
    /\ (forall j x, (j < i)%nat -> [standup; team_meeting] !! j = Some x -> id x <> uuid at_nine)
    /\ updateEvent at_eleven args [standup; team_meeting]
       = (cmap (fun shown => EventResult ("Event updated successfully: " +:+ shown) e')
            (ToString (title e')),
          <[i := e']> [standup; team_meeting])
    /\ (forall f, field args (field_name f) <> Undefined ->
                  project f e' = field args (field_name f))
    /\ (forall f, field args (field_name f) = Undefined -> project f e' = project f e)
    /\ id e' = id e
    /\ created_at e' = created_at e
    /\ updated_at e' = Some (now at_eleven)
    /\ (forall calls,
          [standup; team_meeting] = run calls [] ->
          (forall c, c ∈ calls -> (now (call_env c) <= now at_eleven)%Z) ->
          (created_at e <= now at_eleven)%Z
          /\ forall u, updated_at e = Some u -> (u <= now at_eleven)%Z).
Proof.
  apply (@MemoryFacts.update_event_overwrites_supplied_fields Iso.runtime).
  - reflexivity.
  - left.
Defined.

(** That update returns the event. *)
Example update_location :
  fst (updateEvent at_eleven
         (Obj [("event_id", Str (uuid at_nine)); ("location", Str "Room A");
               ("description", Str "")])
         [standup; team_meeting])
  = Normal (EventResult "Event updated successfully: Standup"
              {| id := uuid at_nine;
                 title := Str "Standup";
                 description := Str "";
                 start_time := Str "2024-01-15T10:00:00Z";
                 end_time := Str "2024-01-15T10:15:00Z";
                 location := Str "Room A";
                 attendees := Arr [];
                 created_at := now at_nine;
                 updated_at := Some (now at_eleven) |}).
Proof. reflexivity. Qed.

(** C2 fails here: the clock of the host is set back an hour between the
    creation of an event and its update, and [updated_at] is an hour before
    [created_at]. *)
Lemma update_event_after_clock_set_back :
  let calls :=
    [create_call at_ten team_meeting_args;
     update_call at_nine (Obj [("event_id", Str (uuid at_ten)); ("location", Str "Room B")])] in
  exists e u,
    run calls [] = [e]
    /\ location e = Str "Room B"
    /\ updated_at e = Some u
    /\ (u < created_at e)%Z.
Proof. do 2 eexists. repeat split. Qed.

(** The two sample events are what two [create_event] calls leave. *)
Example sample_store_reached :
  @run Iso.runtime [create_call at_nine standup_args; create_call at_ten team_meeting_args] []
  = [standup; team_meeting].
Proof. reflexivity. Qed.

(** C3 fails here: with [limit: 0] the one stored event is returned; with
    the empty string as [start_date] an event is returned although no instant
    is at or after an invalid date; and with a [limit] that cannot be
    converted nothing is returned, the call throws. *)
Lemma list_events_zero_limit_and_empty_bound :
  listEvents (Obj [("limit", Num 0)]) [standup]
  = (Normal (EventsResult "Found 1 events" [standup]), [standup])
  /\ listEvents (Obj [("start_date", Str "")]) [standup]
     = (Normal (EventsResult "Found 1 events" [standup]), [standup])
  /\ ~ starts_from (Str "") standup
  /\ listEvents (Obj [("limit", Obj [("toString", Num 1)])]) [standup]
     = (Throw (TypeError "Cannot convert object to primitive value"), [standup]).
Proof.
  repeat split. intros (t & b & _ & Hb & _). discriminate.
Qed.

Lemma list_events_window_and_limit_witness :
  let args := Obj [("start_date", Str "2024-01-16"); ("limit", Num 5)] in
  exists n text,
    listEvents args [standup; team_meeting]
    = (Normal (EventsResult text
                 (take n (List.filter
                            (in_window (field args "start_date") (field args "end_date"))
                            [standup; team_meeting]))),
       [standup; team_meeting])
    /\ (forall k, field args "limit" = Num k -> (0 < k)%Z -> n = Z.to_nat k)
    /\ (truthy (field args "limit") = false -> n = 10%nat)
    /\ (length (take n (List.filter
                          (in_window (field args "start_date") (field args "end_date"))
                          [standup; team_meeting])) <= n)%nat
    /\ forall e,
         e ∈ take n (List.filter
                       (in_window (field args "start_date") (field args "end_date"))
                       [standup; team_meeting]) ->
         e ∈ [standup; team_meeting]
         /\ (truthy (field args "start_date") = true ->
             starts_from (field args "start_date") e)
         /\ (truthy (field args "end_date") = true ->
             starts_until (field args "end_date") e).
Proof.
  apply (@MemoryFacts.list_events_window_and_limit Iso.runtime).
  - reflexivity.
  - reflexivity.
  - reflexivity.
  - reflexivity.
  - intros _ e He. apply elem_of_cons in He as [->|He]; [reflexivity|].
    apply list_elem_of_singleton in He as ->. reflexivity.
Defined.

(** The date filter of that call keeps the later event only. *)
Example list_events_from_the_16th :
  listEvents (Obj [("start_date", Str "2024-01-16"); ("limit", Num 5)])
    [standup; team_meeting]
  = (Normal (EventsResult "Found 1 events" [team_meeting]), [standup; team_meeting]).
Proof. reflexivity. Qed.

Lemma deleted_id_stays_gone_witness :
  let before := [create_call at_nine standup_args; create_call at_ten team_meeting_args] in
  let after := [create_call at_eleven standup_args] in
  let E := uuid at_nine in
  (E ∉ ids (run after [team_meeting]))
  /\ (forall args',
        field args' "event_id" = Str E ->
        getEvent args' (run after [team_meeting])
        = (Throw (Error ("Event not found: " +:+ E)), run after [team_meeting]))
  /\ (NoDup (drawn (before ++ after)) -> NoDup (ids (run after [team_meeting]))).
Proof.
  intros before after E.
  apply (@MemoryFacts.deleted_id_stays_gone Iso.runtime before after
           (Obj [("event_id", Str E)]) E
           (DeletedResult "Event deleted successfully: Standup" (Str E)) [team_meeting])
    with (rest := []).
  - apply (bool_decide_unpack _). vm_compute. exact I.
  - reflexivity.
  - reflexivity.
  - apply (bool_decide_unpack _). vm_compute. exact I.
  - reflexivity.
Defined.

(** C4 fails here: [uuidv4()] returns for a later [create_event] the string
    it returned for the event that was deleted, nothing in the code objects,
    and a [get_event] for the deleted id finds the new event. *)
Lemma deleted_id_drawn_again :
  let wanted := Obj [("event_id", Str (uuid at_nine))] in
  let created := run [create_call at_nine standup_args] [] in
  let deleted := snd (deleteEvent wanted created) in
  let later := run [create_call at_nine team_meeting_args] deleted in
  fst (deleteEvent wanted created)
  = Normal (DeletedResult "Event deleted successfully: Standup" (Str (uuid at_nine)))
  /\ exists e,
       getEvent wanted later = (Normal (EventResult "Event details for: Team Meeting" e), later)
       /\ id e = uuid at_nine.
Proof. split; [reflexivity|]. eexists. split; reflexivity. Qed.

Lemma unknown_event_id_not_found_witness :
  let args := Obj [("event_id", Str "no-such-id")] in
  let event_id := field args "event_id" in
  getEvent args [standup] = (Throw (no_such_event event_id), [standup])
  /\ updateEvent at_ten args [standup] = (Throw (no_such_event event_id), [standup])
  /\ deleteEvent args [standup] = (Throw (no_such_event event_id), [standup])
  /\ (forall shown, ToString event_id = Normal shown ->
                    no_such_event event_id = Error ("Event not found: " +:+ shown))
  /\ (forall E, event_id = Str E -> no_such_event event_id = Error ("Event not found: " +:+ E))
  /\ (converts event_id = false ->
      no_such_event event_id = TypeError "Cannot convert object to primitive value").
Proof.
  intros args event_id.
  apply (@MemoryFacts.unknown_event_id_not_found Iso.runtime at_ten args [standup]).
  - reflexivity.
  - intros e He. apply list_elem_of_singleton in He as ->. discriminate.
Defined.

(** What is thrown for that id. *)
Example no_such_id :
  fst (getEvent (Obj [("event_id", Str "no-such-id")]) [standup])
  = Throw (Error "Event not found: no-such-id").
Proof. reflexivity. Qed.

(** C5 fails here: an [event_id] that is an object with a [toString]
    property matches no stored event, and what the three tools throw is not
    the "not found" error but the [TypeError] of the template literal. *)
Lemma unknown_event_id_type_error :
  let args := Obj [("event_id", Obj [("toString", Num 1)])] in
  let failure := TypeError "Cannot convert object to primitive value" in
  getEvent args [standup] = (Throw failure, [standup])
  /\ updateEvent at_ten args [standup] = (Throw failure, [standup])
  /\ deleteEvent args [standup] = (Throw failure, [standup])
  /\ post_mcp at_ten (tools_call (Num 1) "get_event" args) [standup]
     = ({| jsonrpc := "2.0";
           JsonRpc.id := Num 1;
           result := None;
           error := Some {| code := -32603;
                            error_message := "Internal error";
                            data := Str "Cannot convert object to primitive value" |} |},
        [standup]).
Proof. repeat split. Qed.

(** C6 fails here: the event stored by a [create_event] without [title]
    makes every later search throw; with [limit: 0] a matching event is
    still returned; and a [limit] that cannot be converted makes the search
    throw. *)
Lemma search_events_throws_or_ignores_zero_limit :
  searchEvents (Obj [("query", Str "meeting")]) [untitled; team_meeting]
  = (Throw (TypeError "Cannot read properties of undefined (reading 'toLowerCase')"),
     [untitled; team_meeting])
  /\ searchEvents (Obj [("query", Str "meeting"); ("limit", Num 0)]) [team_meeting]
     = (Normal (EventsResult ("Found 1 events matching " +:+ dquote +:+ "meeting" +:+ dquote)
                  [team_meeting]),
        [team_meeting])
  /\ searchEvents (Obj [("query", Str "meeting"); ("limit", Obj [("toString", Num 1)])])
       [team_meeting]
     = (Throw (TypeError "Cannot convert object to primitive value"), [team_meeting]).
Proof. repeat split. Qed.

Lemma search_events_case_insensitive_witness :
  let args := Obj [("query", Str "meeting")] in
  exists n text,
    searchEvents args [standup; team_meeting]
    = (Normal (EventsResult text
                 (take n (List.filter (mentions "meeting") [standup; team_meeting]))),
       [standup; team_meeting])
    /\ (forall k, field args "limit" = Num k -> (0 < k)%Z -> n = Z.to_nat k)
    /\ (truthy (field args "limit") = false -> n = 10%nat)
    /\ (forall e, e ∈ List.filter (mentions "meeting") [standup; team_meeting]
                  <-> e ∈ [standup; team_meeting] /\ mentions "meeting" e = true)
    /\ (forall e d, title e = Str "Team Meeting" -> description e = Str d ->
                    mentions "meeting" e = true).
Proof.
  apply (@MemoryFacts.search_events_case_insensitive Iso.runtime).
  - reflexivity.
  - intros e He. apply elem_of_cons in He as [->|He].
    + exists "Standup", "". split; reflexivity.
    + apply list_elem_of_singleton in He as ->.
      exists "Team Meeting", "Weekly sync". split; reflexivity.
  - reflexivity.
Defined.

(** That search finds the meeting. *)
Example search_meeting :
  searchEvents (Obj [("query", Str "meeting")]) [standup; team_meeting]
  = (Normal (EventsResult ("Found 1 events matching " +:+ dquote +:+ "meeting" +:+ dquote)
               [team_meeting]),
     [standup; team_meeting]).
Proof. reflexivity. Qed.

Lemma invalid_jsonrpc_refused_witness :
  let body := Obj [("jsonrpc", Str "1.0"); ("id", Num 7); ("method", Str "tools/list")] in
  @post_mcp Iso.runtime at_nine body [standup]
  = ({| jsonrpc := "2.0";
       JsonRpc.id := Num 7;
       result := None;
       error := Some {| code := -32600; error_message := "Invalid Request"; data := Null |} |},
     [standup])
  /\ @Google.post_mcp Iso.runtime offline local_env body signed_in
     = ({| jsonrpc := "2.0";
           JsonRpc.id := Num 7;
           result := None;
           error := Some {| code := -32600; error_message := "Invalid Request"; data := Null |} |},
        signed_in).
Proof.
  intros body.
  apply (@ServerFacts.invalid_jsonrpc_refused Iso.runtime offline at_nine local_env body
           [standup] signed_in).
  - reflexivity.
  - discriminate.
Defined.

Lemma tools_call_requires_credentials_witness :
  let body := Obj [("jsonrpc", Str "2.0"); ("id", Num 3); ("method", Str "tools/call");
                   ("params", Obj [("name", Str "list_events"); ("arguments", Obj [])])] in
  @Google.post_mcp Iso.runtime offline local_env body signed_out
  = ({| jsonrpc := "2.0";
        JsonRpc.id := Num 3;
        result := None;
        error := Some {| code := -32001;
                         error_message := "Authentication required";
                         data := Obj [("auth_url", Str "http://localhost:3000/auth")] |} |},
     signed_out)
  /\ "http://localhost:3000/auth" <> ""
  /\ Google.requests (snd (@Google.post_mcp Iso.runtime offline local_env body signed_out)) = []
  /\ Google.world (snd (@Google.post_mcp Iso.runtime offline local_env body signed_out)) = tt.
Proof.
  intros body.
  apply (@GoogleFacts.tools_call_requires_credentials Iso.runtime offline local_env body
           signed_out).
  - reflexivity.
  - reflexivity.
  - reflexivity.
  - reflexivity.
  - left. reflexivity.
Defined.


(** With [limit: 0] the search of that call returns the meeting. *)
Example zero_limit_search :
  searchEvents (Obj [("query", Str "meeting"); ("limit", Num 0)]) [standup; team_meeting]
  = (Normal (EventsResult ("Found 1 events matching " +:+ dquote +:+ "meeting" +:+ dquote)
               [team_meeting]),
     [standup; team_meeting]).
Proof. reflexivity. Qed.

(** The request that call sends. *)
Example zero_max_results_request :
  Google.requests (snd (Google.listEvents (Obj [("max_results", Num 0)]) signed_in))
  = [(Google.events_list,
      Obj [("calendarId", Str "primary"); ("maxResults", Num 10);
           ("singleEvents", Boolean true); ("orderBy", Str "startTime")])].
Proof. reflexivity. Qed.

End Examples.


(** * Further facts *)

(** ** What a handler can throw *)

Module LawFacts.
Import JS Eff Laws.

Section Generic.
Context {S : Type}.

Lemma Throws_ret {A} P (a : A) : Throws (S := S) P (ret a).
Proof. intros s e s' Hrun. discriminate. Qed.

Lemma Throws_read P : Throws (S := S) P read.
Proof. intros s e s' Hrun. discriminate. Qed.

Lemma Throws_write P (x : S) : Throws P (write x).
Proof. intros s e s' Hrun. discriminate. Qed.

Lemma Throws_throw {A} (P : JSError -> Prop) e : P e -> Throws (S := S) (A := A) P (throw e).
Proof. intros HP s e' s' [= <- _]. assumption. Qed.

Lemma Throws_lift {A} (P : JSError -> Prop) (c : Completion A) :
  (forall e, c = Throw e -> P e) -> Throws (S := S) P (lift c).
Proof. intros HP s e s' [= -> _]. now apply HP. Qed.

Lemma Throws_bind {A B} P (m : M S A) (k : A -> M S B) :
  Throws P m -> (forall a, Throws P (k a)) -> Throws P (bind m k).
Proof.
  intros Hm Hk s e s' Hrun. unfold bind in Hrun.
  destruct (m s) as [[a|e0] s0] eqn:Hms.
  - now apply (Hk a s0 e s').
  - injection Hrun as <- _. now apply (Hm s e0 s0).
Qed.

End Generic.

(** A property read throws nothing but a [TypeError]. *)
Lemma get_throws v k e : get v k = Throw e -> is_TypeError e.
Proof. destruct v; simpl; intros [= <-]; eexists; reflexivity. Qed.

Lemma TypeError_not_unknown_tool e : is_TypeError e -> not_unknown_tool e.
Proof. intros [msg ->] rest. discriminate. Qed.

End LawFacts.


(** ** More on the in-memory server *)

Module MemoryMore.
Import JS JsonRpc Eff Memory JSFacts Laws LawFacts MemoryFacts.

Section Facts.
Context `{Runtime}.

(** *** The router and the dispatcher, case by case *)

Lemma destructurable_object v first source :
  nullish v = false -> destructurable v first source = Normal tt.
Proof. destruct v; try discriminate; reflexivity. Qed.

Lemma destructurable_nullish v first source :
  nullish v = true -> exists msg, destructurable v first source = Throw (TypeError msg).
Proof. destruct v; try discriminate; eexists; reflexivity. Qed.

Lemma route_nullish env body (events : Store) :
  nullish body = true -> exists msg, route env body events = (Throw (TypeError msg), events).
Proof.
  intros Hn. destruct (destructurable_nullish body "jsonrpc" "req.body" Hn) as [msg Hd].
  exists msg. unfold route. eff_unfold. now rewrite Hd.
Qed.

Lemma route_object env body (events : Store) :
  nullish body = false ->
  route env body events
  = if negb (strict_eq_str (field body "jsonrpc") "2.0")
    then (Normal (createError ResultNull (field body "id") (-32600) "Invalid Request" Undefined),
          events)
    else if strict_eq_str (field body "method") "initialize"
    then (Normal (createResponse (field body "id")
                    (ResultInitialize (protocolVersion SERVER_INFO) SERVER_INFO) None), events)
    else if strict_eq_str (field body "method") "notifications/initialized"
    then (Normal (createResponse (field body "id") ResultEmpty None), events)
    else if strict_eq_str (field body "method") "tools/list"
    then (Normal (createResponse (field body "id") (ResultTools TOOLS) None), events)
    else if strict_eq_str (field body "method") "tools/call"
    then match handleToolCall env (field body "params") events with
         | (Normal r, events') =>
             (Normal (createResponse (field body "id") (ResultCall r) None), events')
         | (Throw e, events') => (Throw e, events')
         end
    else (Normal (createError ResultNull (field body "id") (-32601) "Method not found" Undefined),
          events).
Proof.
  intros Hn. unfold route. eff_unfold.
  rewrite (destructurable_object _ _ _ Hn). read_args Hn.
  repeat match goal with |- context [if ?b then _ else _] => destruct b end; reflexivity.
Qed.

Lemma handleToolCall_nullish env params (events : Store) :
  nullish params = true ->
  exists msg, handleToolCall env params events = (Throw (TypeError msg), events).
Proof.
  intros Hn. destruct (destructurable_nullish params "name" "params" Hn) as [msg Hd].
  exists msg. unfold handleToolCall. eff_unfold. now rewrite Hd.
Qed.

Lemma handleToolCall_object env params (events : Store) :
  nullish params = false ->
  let name_ := field params "name" in
  let args := field params "arguments" in
  handleToolCall env params events
  = if strict_eq_str name_ "create_event" then createEvent env args events
    else if strict_eq_str name_ "list_events" then listEvents args events
    else if strict_eq_str name_ "get_event" then getEvent args events
    else if strict_eq_str name_ "update_event" then updateEvent env args events
    else if strict_eq_str name_ "delete_event" then deleteEvent args events
    else if strict_eq_str name_ "search_events" then searchEvents args events
    else (Throw match ToString name_ with
                | Normal shown => Error ("Unknown tool: " +:+ shown)
                | Throw error => error
                end, events).
Proof.
  intros Hn. unfold handleToolCall. eff_unfold.
  rewrite (destructurable_object _ _ _ Hn). read_args Hn. simpl.
  repeat match goal with |- context [if ?b then _ else _] => destruct b end;
    try reflexivity.
  now destruct (ToString _).
Qed.

(** *** A tool that throws has changed nothing, titles permitting *)

Lemma createEvent_throw_keeps env args (events events' : Store) e :
  createEvent env args events = (Throw e, events') -> events' = events.
Proof.
  destruct (nullish args) eqn:Hn.
  - destruct (createEvent_no_arguments env args events Hn) as [msg ->]. now intros [= _ <-].
  - destruct (createEvent_appends env args events Hn) as (event & -> & _). discriminate.
Qed.

Lemma updateEvent_throw_keeps env args (events events' : Store) e :
  (forall x, x ∈ events -> converts (title x) = true) ->
  converts (field args "title") = true ->
  updateEvent env args events = (Throw e, events') -> events' = events.
Proof.
  intros Hstored Hsupplied. destruct (nullish args) eqn:Hn.
  - destruct args; try discriminate; now intros [= _ <-].
  - destruct (findIndex (fun x => strict_eq_str (field args "event_id") (id x)) events)
      as [i|] eqn:Hi.
    + destruct (findIndex_Some _ _ _ Hi) as (e0 & He & _).
      rewrite (updateEvent_found env args events i e0 Hn Hi He). simpl.
      assert (converts (assign_if_defined (field args "title") (title e0)) = true) as Hc.
      { apply list_elem_of_lookup_2 in He.
        destruct (field args "title"); simpl; try assumption; now apply Hstored. }
      destruct (converts_ToString _ Hc) as [shown ->]. discriminate.
    + rewrite updateEvent_no_match by (try assumption; now apply findIndex_None).
      now intros [= _ <-].
Qed.

Lemma deleteEvent_throw_keeps args (events events' : Store) e :
  (forall x, x ∈ events -> converts (title x) = true) ->
  deleteEvent args events = (Throw e, events') -> events' = events.
Proof.
  intros Hstored. destruct (nullish args) eqn:Hn.
  - destruct args; try discriminate; now intros [= _ <-].
  - destruct (findIndex (fun x => strict_eq_str (field args "event_id") (id x)) events)
      as [i|] eqn:Hi.
    + destruct (findIndex_Some _ _ _ Hi) as (e0 & He & _).
      rewrite (deleteEvent_found args events i e0 Hn Hi He).
      apply list_elem_of_lookup_2 in He.
      destruct (converts_ToString _ (Hstored e0 He)) as [shown ->]. discriminate.
    + rewrite deleteEvent_no_match by (try assumption; now apply findIndex_None).
      now intros [= _ <-].
Qed.

Lemma handleToolCall_throw_keeps env params (events events' : Store) e :
  (forall x, x ∈ events -> converts (title x) = true) ->
  converts (field (field params "arguments") "title") = true ->
  handleToolCall env params events = (Throw e, events') -> events' = events.
Proof.
  intros Hstored Hsupplied. destruct (nullish params) eqn:Hn.
  - destruct (handleToolCall_nullish env params events Hn) as [msg ->]. now intros [= _ <-].
  - rewrite (handleToolCall_object env params events Hn). simpl.
    destruct (list_tools_keep_store (field params "arguments") events) as (Hl & Hg & Hs).
    repeat match goal with |- context [if ?b then _ else _] => destruct b end.
    + apply createEvent_throw_keeps.
    + intros Hrun. rewrite Hrun in Hl. now simpl in Hl.
    + intros Hrun. rewrite Hrun in Hg. now simpl in Hg.
    + now apply updateEvent_throw_keeps.
    + now apply deleteEvent_throw_keeps.
    + intros Hrun. rewrite Hrun in Hs. now simpl in Hs.
    + now intros [= _ <-].
Qed.

(** X1. When every stored title, and the title the request supplies, can
    be converted to a string (every string can), an error response of [POST
    /mcp] means that the store is exactly as before the request. *)
Theorem error_response_leaves_store env body (events : Store) :
  (forall e, e ∈ events -> converts (title e) = true) ->
  converts (field (field (field body "params") "arguments") "title") = true ->
  error (fst (post_mcp env body events)) <> None ->
  snd (post_mcp env body events) = events.
Proof.
  intros Hstored Hsupplied. unfold post_mcp. destruct (nullish body) eqn:Hn.
  - destruct (route_nullish env body events Hn) as [msg ->]. reflexivity.
  - rewrite (route_object env body events Hn).
    repeat match goal with
           | |- context [if ?b then _ else _] => destruct b; try reflexivity
           end.
    destruct (handleToolCall env (field body "params") events) as [[r|e] events'] eqn:Hcall;
      simpl.
    + intros Herr. now contradiction Herr.
    + intros _. now apply handleToolCall_throw_keeps in Hcall.
Qed.

(** X27. A request can fail after it has written. When [event_id] is the id
    of a stored event: a [delete_event] of an event whose title cannot be
    converted to a string is answered with the error -32603, and the event is
    gone; so is an [update_event] that leaves the event with such a title
    answered, and the event is updated. *)
Theorem failed_request_has_written env id_ args (events : Store) E :
  field args "event_id" = Str E ->
  E ∈ ids events ->
  let failure :=
    createError ResultNull (or_else id_ Null) (-32603) "Internal error"
      (Str "Cannot convert object to primitive value") in
  exists i e,
    events !! i = Some e /\ id e = E
    /\ (converts (title e) = false ->
        post_mcp env (tools_call id_ "delete_event" args) events = (failure, delete i events)
        /\ length (delete i events) = pred (length events))
    /\ (converts (assign_if_defined (field args "title") (title e)) = false ->
        exists e',
          post_mcp env (tools_call id_ "update_event" args) events
          = (failure, <[i := e']> events)
          /\ title e' = assign_if_defined (field args "title") (title e)
          /\ updated_at e' = Some (now env)).
Proof.
  intros Hid Hin failure.
  assert (nullish args = false) as Hn by (apply (field_defined args "event_id"); congruence).
  destruct (first_with_id events E Hin) as (i & e & Hi & He & HE & _).
  rewrite <- Hid in Hi.
  exists i, e. do 2 (split; [assumption|]). split.
  - intros Hbad. split; [|rewrite length_delete by (rewrite He; eauto); lia].
    unfold post_mcp. rewrite route_tools_call.
    rewrite (handleToolCall_object env
               (Obj [("name", Str "delete_event"); ("arguments", args)]) events eq_refl).
    simpl.
    rewrite (deleteEvent_found args events i e Hn Hi He).
    now rewrite (not_converts_ToString _ Hbad).
  - intros Hbad. eexists. split.
    { unfold post_mcp. rewrite route_tools_call.
      rewrite (handleToolCall_object env
                 (Obj [("name", Str "update_event"); ("arguments", args)]) events eq_refl).
      simpl.
      rewrite (updateEvent_found env args events i e Hn Hi He). simpl.
      now rewrite (not_converts_ToString _ Hbad). }
    split; reflexivity.
Qed.

(** *** What a request can do to the store *)

Lemma handleToolCall_store env params (events : Store) :
  let events' := snd (handleToolCall env params events) in
  let name_ := field params "name" in
  events' = events
  \/ (name_ = Str "create_event" /\ exists e, events' = events ++ [e] /\ id e = uuid env)
  \/ (name_ = Str "update_event"
      /\ exists i e e', events !! i = Some e /\ events' = <[i := e']> events /\ id e' = id e)
  \/ (name_ = Str "delete_event"
      /\ exists i, (i < length events)%nat /\ events' = delete i events).
Proof.
  simpl. destruct (nullish params) eqn:Hn.
  { destruct (handleToolCall_nullish env params events Hn) as [msg ->]. now left. }
  rewrite (handleToolCall_object env params events Hn). simpl.
  set (args := field params "arguments").
  destruct (list_tools_keep_store args events) as (Hl & Hg & Hs).
  destruct (strict_eq_str (field params "name") "create_event") eqn:Hc.
  { apply strict_eq_str_true in Hc. destruct (nullish args) eqn:Ha.
    - destruct (createEvent_no_arguments env args events Ha) as [msg ->]. now left.
    - destruct (createEvent_appends env args events Ha) as (e & -> & Hid & _).
      right. left. eauto. }
  destruct (strict_eq_str _ "list_events"); [now left|].
  destruct (strict_eq_str _ "get_event"); [now left|].
  destruct (strict_eq_str (field params "name") "update_event") eqn:Hu.
  { apply strict_eq_str_true in Hu. destruct (nullish args) eqn:Ha.
    { left. destruct args; try discriminate; reflexivity. }
    destruct (findIndex (fun x => strict_eq_str (field args "event_id") (id x)) events)
      as [i|] eqn:Hi.
    - destruct (findIndex_Some _ _ _ Hi) as (e0 & He & _).
      rewrite (updateEvent_found env args events i e0 Ha Hi He). simpl.
      right. right. left. split; [assumption|].
      do 3 eexists. split; [exact He|]. split; reflexivity.
    - left. rewrite updateEvent_no_match; [reflexivity|assumption|].
      now apply findIndex_None. }
  destruct (strict_eq_str (field params "name") "delete_event") eqn:Hd.
  { apply strict_eq_str_true in Hd. destruct (nullish args) eqn:Ha.
    { left. destruct args; try discriminate; reflexivity. }
    destruct (findIndex (fun x => strict_eq_str (field args "event_id") (id x)) events)
      as [i|] eqn:Hi.
    - destruct (findIndex_Some _ _ _ Hi) as (e0 & He & _).
      rewrite (deleteEvent_found args events i e0 Ha Hi He). simpl.
      right. right. right. split; [assumption|].
      exists i. split; [|reflexivity]. now apply lookup_lt_Some in He.
    - left. rewrite deleteEvent_no_match; [reflexivity|assumption|].
      now apply findIndex_None. }
  destruct (strict_eq_str _ "search_events"); now left.
Qed.

(** X2. A [POST /mcp] leaves the store as it was, unless it is a valid
    [tools/call] of one of the three writing tools; then [create_event]
    appends one event, whose id is the string [uuidv4()] returned,
    [update_event] replaces one element by an event of the same id, and
    [delete_event] removes one element. Nothing else ever happens to the
    store. *)
Theorem store_changes_by_one_write env body (events : Store) :
  let events' := snd (post_mcp env body events) in
  let name_ := field (field body "params") "name" in
  events' = events
  \/ (field body "jsonrpc" = Str "2.0" /\ field body "method" = Str "tools/call"
      /\ ((name_ = Str "create_event"
           /\ exists e, events' = events ++ [e] /\ id e = uuid env)
          \/ (name_ = Str "update_event"
              /\ exists i e e',
                   events !! i = Some e /\ events' = <[i := e']> events /\ id e' = id e)
          \/ (name_ = Str "delete_event"
              /\ exists i, (i < length events)%nat /\ events' = delete i events))).
Proof.
  simpl. unfold post_mcp. destruct (nullish body) eqn:Hn.
  { destruct (route_nullish env body events Hn) as [msg ->]. now left. }
  rewrite (route_object env body events Hn).
  destruct (strict_eq_str (field body "jsonrpc") "2.0") eqn:Hv; simpl; [|now left].
  apply strict_eq_str_true in Hv.
  destruct (strict_eq_str _ "initialize"); [now left|].
  destruct (strict_eq_str _ "notifications/initialized"); [now left|].
  destruct (strict_eq_str _ "tools/list"); [now left|].
  destruct (strict_eq_str (field body "method") "tools/call") eqn:Hm; [|now left].
  apply strict_eq_str_true in Hm.
  pose proof (handleToolCall_store env (field body "params") events) as Hstore. simpl in Hstore.
  destruct (handleToolCall env (field body "params") events) as [[r|e] events']; simpl in *;
    (destruct Hstore as [->|Hwrite]; [now left|right; auto]).
Qed.

(** X3. Every response of the in-memory server is a JSON-RPC 2.0 envelope
    with exactly one of [result] and [error]; an error carries one of the
    three pairs -32600 "Invalid Request", -32601 "Method not found", -32603
    "Internal error", and a result is never null. *)
Theorem response_is_well_formed env body (events : Store) :
  let r := fst (post_mcp env body events) in
  jsonrpc r = "2.0"
  /\ ((error r = None /\ exists x, result r = Some x /\ x <> ResultNull)
      \/ (result r = None
          /\ exists e, error r = Some e
                       /\ (code e, error_message e)
                            ∈ [((-32600)%Z, "Invalid Request");
                               ((-32601)%Z, "Method not found");
                               ((-32603)%Z, "Internal error")])).
Proof.
  simpl. unfold post_mcp. destruct (nullish body) eqn:Hn.
  { destruct (route_nullish env body events Hn) as [msg ->]. simpl.
    split; [reflexivity|]. right. split; [reflexivity|]. eexists. split; [reflexivity|].
    simpl. repeat constructor. }
  rewrite (route_object env body events Hn).
  repeat match goal with
         | |- context [if ?b then _ else _] => destruct b
         end;
    try (simpl; split; [reflexivity|]; left; split; [reflexivity|];
         eexists; split; [reflexivity|discriminate]);
    try (simpl; split; [reflexivity|]; right; split; [reflexivity|];
         eexists; split; [reflexivity|]; simpl; repeat constructor).
  destruct (handleToolCall env (field body "params") events) as [[r|e] events']; simpl;
    (split; [reflexivity|]).
  - left. split; [reflexivity|]. eexists. split; [reflexivity|discriminate].
  - right. split; [reflexivity|]. eexists. split; [reflexivity|]. simpl. repeat constructor.
Qed.

(** X4. An envelope with [jsonrpc] 2.0 whose [method] is none of
    [initialize], [notifications/initialized], [tools/list], [tools/call] (a
    missing or non-string method included) is answered with -32601 "Method
    not found" and the [id] of the request; the store is untouched. *)
Theorem unknown_method_is_not_found env body (events : Store) :
  nullish body = false ->
  field body "jsonrpc" = Str "2.0" ->
  (forall m, m ∈ methods -> field body "method" <> Str m) ->
  post_mcp env body events
  = ({| jsonrpc := "2.0";
        JsonRpc.id := field body "id";
        result := None;
        error := Some {| code := -32601; error_message := "Method not found"; data := Null |} |},
     events).
Proof.
  intros Hn Hv Hm. unfold post_mcp. rewrite (route_object env body events Hn), Hv. simpl.
  repeat match goal with
         | |- context [strict_eq_str (field body "method") ?m] =>
             let Heq := fresh "Heq" in
             destruct (strict_eq_str (field body "method") m) eqn:Heq;
               [apply strict_eq_str_true in Heq; exfalso; apply (Hm m);
                  [unfold methods; repeat constructor|assumption]|]
         end.
  reflexivity.
Qed.

(** X5. Except in an internal-error response (-32603), the [id] of the
    response is the [id] member of the request as it came: 0, the empty
    string, false and null are echoed, and a missing id stays undefined. *)
Theorem id_is_echoed_verbatim env body (events : Store) :
  (forall e, error (fst (post_mcp env body events)) = Some e -> code e <> (-32603)%Z) ->
  JsonRpc.id (fst (post_mcp env body events)) = field body "id".
Proof.
  unfold post_mcp. destruct (nullish body) eqn:Hn.
  { destruct (route_nullish env body events Hn) as [msg ->]. simpl. intros Hcode.
    now contradiction (Hcode _ eq_refl). }
  rewrite (route_object env body events Hn).
  repeat match goal with
         | |- context [if ?b then _ else _] => destruct b; try reflexivity
         end.
  destruct (handleToolCall env (field body "params") events) as [[r|e] events']; simpl;
    [reflexivity|].
  intros Hcode. now contradiction (Hcode _ eq_refl).
Qed.

(** *** The registry and the dispatcher *)

Lemma lift_get_throws {S} v k : Throws (S := S) not_unknown_tool (lift (get v k)).
Proof.
  apply Throws_lift. intros e He. eapply TypeError_not_unknown_tool, get_throws, He.
Qed.

Lemma not_found_not_unknown_tool v : not_unknown_tool (Error ("Event not found: " +:+ v)).
Proof. intros rest. discriminate. Qed.

Lemma call_toLowerCase_throws expr v e :
  call_toLowerCase expr v = Throw e -> is_TypeError e.
Proof. destruct v; simpl; intros [= <-]; eexists; reflexivity. Qed.

Lemma matches_throws q event e : matches q event = Throw e -> is_TypeError e.
Proof.
  unfold matches.
  destruct (call_toLowerCase "event.title" (title event)) as [t|e0] eqn:Ht.
  - destruct (includes t q); [discriminate|].
    destruct (call_toLowerCase "event.description" (description event)) as [d|e1] eqn:Hd;
      [discriminate|].
    intros [= <-]. eapply call_toLowerCase_throws, Hd.
  - intros [= <-]. eapply call_toLowerCase_throws, Ht.
Qed.

Lemma filterC_throws q (events : Store) e :
  filterC (matches q) events = Throw e -> is_TypeError e.
Proof.
  induction events as [|x rest IH]; simpl; [discriminate|].
  destruct (matches q x) as [b|e0] eqn:Hm.
  - destruct (filterC (matches q) rest); [discriminate|]. intros [= <-]. now apply IH.
  - intros [= <-]. eapply matches_throws, Hm.
Qed.

Lemma conversion_not_unknown_tool e :
  e = TypeError "Cannot convert object to primitive value" -> not_unknown_tool e.
Proof. intros -> rest. discriminate. Qed.

Lemma lift_ToString_throws {S} v : Throws (S := S) not_unknown_tool (lift (ToString v)).
Proof.
  apply Throws_lift. intros e He. eapply conversion_not_unknown_tool, ToString_throws, He.
Qed.

Lemma lift_newDate_throws {S} v : Throws (S := S) not_unknown_tool (lift (newDate v)).
Proof.
  apply Throws_lift. intros e He. eapply conversion_not_unknown_tool, newDate_throws, He.
Qed.

Lemma lift_slice0_throws {S A} (arr : list A) v :
  Throws (S := S) not_unknown_tool (lift (slice0 arr v)).
Proof.
  apply Throws_lift. intros e He. eapply conversion_not_unknown_tool, slice0_throws, He.
Qed.

Lemma filterC_starts_throws compare bound (events : Store) e :
  filterC (starts compare bound) events = Throw e -> not_unknown_tool e.
Proof.
  induction events as [|x rest IH]; simpl; [discriminate|].
  destruct (starts compare bound x) as [b|e0] eqn:Hs.
  - destruct (filterC (starts compare bound) rest); [discriminate|].
    intros [= <-]. now apply IH.
  - intros [= <-]. unfold starts in Hs.
    destruct (newDate (start_time x)) as [t|e1] eqn:Hd; [discriminate|].
    injection Hs as <-. eapply conversion_not_unknown_tool, newDate_throws, Hd.
Qed.

Lemma lift_filterC_starts_throws {S} compare bound (events : Store) :
  Throws (S := S) not_unknown_tool (lift (filterC (starts compare bound) events)).
Proof. apply Throws_lift. intros e He. eapply filterC_starts_throws, He. Qed.

Ltac throws_binds :=
  cbv zeta;
  repeat (apply Throws_bind;
          [first [apply lift_get_throws | apply lift_ToString_throws
                 | apply lift_newDate_throws | apply lift_slice0_throws
                 | apply lift_filterC_starts_throws
                 | apply Throws_read | apply Throws_write]
          |intros ?; cbv zeta]).

Lemma createEvent_throws env args : Throws not_unknown_tool (createEvent env args).
Proof. unfold createEvent. throws_binds. apply Throws_ret. Qed.

Lemma listEvents_throws args : Throws not_unknown_tool (listEvents args).
Proof.
  unfold listEvents. throws_binds.
  apply Throws_bind; [destruct (truthy _); [throws_binds; apply lift_filterC_starts_throws
                                           |apply Throws_ret]|].
  intros filtered. throws_binds.
  apply Throws_bind; [destruct (truthy _); [throws_binds; apply lift_filterC_starts_throws
                                           |apply Throws_ret]|].
  intros filtered'. throws_binds. apply Throws_ret.
Qed.

Lemma getEvent_throws args : Throws not_unknown_tool (getEvent args).
Proof.
  unfold getEvent. throws_binds.
  destruct (find _ _); throws_binds;
    [apply Throws_ret|apply Throws_throw, not_found_not_unknown_tool].
Qed.

Lemma updateEvent_throws env args : Throws not_unknown_tool (updateEvent env args).
Proof.
  unfold updateEvent. throws_binds.
  destruct (findIndex _ _);
    [|throws_binds; apply Throws_throw, not_found_not_unknown_tool].
  destruct (_ !! _).
  - throws_binds. apply Throws_ret.
  - apply Throws_throw, TypeError_not_unknown_tool. eexists. reflexivity.
Qed.

Lemma deleteEvent_throws args : Throws not_unknown_tool (deleteEvent args).
Proof.
  unfold deleteEvent. throws_binds.
  destruct (findIndex _ _);
    [|throws_binds; apply Throws_throw, not_found_not_unknown_tool].
  destruct (_ !! _).
  - throws_binds. apply Throws_ret.
  - apply Throws_throw, TypeError_not_unknown_tool. eexists. reflexivity.
Qed.

Lemma searchEvents_throws args : Throws not_unknown_tool (searchEvents args).
Proof.
  unfold searchEvents. throws_binds.
  apply Throws_bind.
  { apply Throws_lift. intros e He.
    eapply TypeError_not_unknown_tool, call_toLowerCase_throws, He. }
  intros query. throws_binds.
  apply Throws_bind.
  { apply Throws_lift. intros e He. eapply TypeError_not_unknown_tool, filterC_throws, He. }
  intros kept. throws_binds. apply Throws_ret.
Qed.

(** X6. The dispatcher and the catalogue agree: [handleToolCall] throws
    "Unknown tool: <name>" exactly for the names that [tools/list] does not
    list, and the listed names are pairwise distinct. *)
Theorem dispatcher_knows_the_listed_tools env name_ args (events : Store) :
  NoDup (map JsonRpc.name TOOLS)
  /\ (fst (handleToolCall env (Obj [("name", Str name_); ("arguments", args)]) events)
       = Throw (Error ("Unknown tool: " +:+ name_))
      <-> name_ ∉ map JsonRpc.name TOOLS).
Proof.
  split.
  { simpl. repeat (apply NoDup_cons; split;
                   [intros Hin; repeat (apply elem_of_cons in Hin as [Hin|Hin];
                                        [discriminate|]); inversion Hin|]).
    apply NoDup_nil_2. }
  split.
  - intros Hthrow Hin.
    assert (forall m : M (list Event) ToolResult, Throws not_unknown_tool m ->
                      fst (m events) <> Throw (Error ("Unknown tool: " +:+ name_))) as Hno.
    { intros m Hm Hfst. destruct (m events) as [[r|e] events'] eqn:Hrun; [discriminate|].
      simpl in Hfst. injection Hfst as ->. exact (Hm _ _ _ Hrun name_ eq_refl). }
    rewrite (handleToolCall_object env (Obj [("name", Str name_); ("arguments", args)])
               events eq_refl) in Hthrow.
    simpl in Hthrow, Hin.
    repeat (apply elem_of_cons in Hin as [->|Hin]); [| | | | | |inversion Hin];
      simpl in Hthrow; revert Hthrow; apply Hno.
    + apply createEvent_throws.
    + apply listEvents_throws.
    + apply getEvent_throws.
    + apply updateEvent_throws.
    + apply deleteEvent_throws.
    + apply searchEvents_throws.
  - intros Hout. now rewrite (unknown_tool_throws env name_ args events Hout).
Qed.

(** *** Create, read, update, delete *)

Lemma find_app_last p (events : Store) e :
  (forall x, x ∈ events -> p x = false) -> p e = true ->
  List.find p (events ++ [e]) = Some e.
Proof.
  intros Hnone Hp. induction events as [|x rest IH]; simpl.
  - now rewrite Hp.
  - rewrite Hnone by left. apply IH. intros y Hy. apply Hnone. now right.
Qed.

Lemma find_insert_first p (events : Store) i e' :
  findIndex p events = Some i -> p e' = true -> List.find p (<[i := e']> events) = Some e'.
Proof.
  revert i. induction events as [|x rest IH]; simpl; intros i Hi Hp; [discriminate|].
  destruct (p x) eqn:Hx.
  - injection Hi as <-. simpl. now rewrite Hp.
  - destruct (findIndex p rest) as [k|]; simpl in Hi; [|discriminate].
    injection Hi as <-. simpl. rewrite Hx. now apply IH.
Qed.

Lemma getEvent_found args (events : Store) e :
  nullish args = false ->
  List.find (fun x => strict_eq_str (field args "event_id") (id x)) events = Some e ->
  getEvent args events
  = (cmap (fun shown => EventResult ("Event details for: " +:+ shown) e) (ToString (title e)),
     events).
Proof.
  intros Hn Hfind. unfold getEvent. eff_unfold. read_args Hn. rewrite Hfind.
  now destruct (ToString (title e)).
Qed.

(** X7. [create_event] followed by [get_event]: when the string
    [uuidv4()] returns is the id of no stored event, the call appends one
    event with that id and keeps all the others, and a [get_event] for the
    id then finds exactly the event that was created: it returns it, under
    the text "Event details for: " and its title, or throws the [TypeError]
    of the conversion when the title cannot be converted to a string. *)
Theorem created_event_can_be_read env args (events : Store) :
  nullish args = false ->
  uuid env ∉ ids events ->
  exists e text,
    createEvent env args events = (Normal (EventResult text e), events ++ [e])
    /\ id e = uuid env
    /\ title e = field args "title"
    /\ forall args',
         field args' "event_id" = Str (uuid env) ->
         getEvent args' (events ++ [e])
         = (cmap (fun shown => EventResult ("Event details for: " +:+ shown) e)
              (ToString (title e)),
            events ++ [e]).
Proof.
  intros Hn Hfresh.
  destruct (createEvent_appends env args events Hn) as (e & Hrun & Hid & Htitle & _).
  exists e. eexists. split; [exact Hrun|]. split; [exact Hid|]. split; [exact Htitle|].
  intros args' Hid'.
  assert (nullish args' = false) as Hn'
    by (apply (field_defined args' "event_id"); congruence).
  apply getEvent_found; [assumption|]. rewrite Hid'. apply find_app_last.
  - intros x Hx. destruct (strict_eq_str (Str (uuid env)) (id x)) eqn:Heq; [|reflexivity].
    apply strict_eq_str_true in Heq. injection Heq as Heq. exfalso. apply Hfresh.
    rewrite Heq. unfold ids. now apply list_elem_of_fmap_2.
  - rewrite Hid. apply strict_eq_str_refl.
Qed.

(** X8. [delete_event] on an id [E] that is stored removes the first event
    with that id and nothing else: the other events stay, in their order.
    The call then returns the id and, in its text, the title of the removed
    event, or throws the [TypeError] of the conversion when that title cannot
    be converted to a string. When the ids of the store are pairwise
    distinct, no event with id [E] is left. *)
Theorem delete_event_removes_first_match args (events : Store) E :
  field args "event_id" = Str E ->
  E ∈ ids events ->
  exists i e,
    events !! i = Some e /\ id e = E
    /\ (forall j x, (j < i)%nat -> events !! j = Some x -> id x <> E)
    /\ deleteEvent args events
       = (cmap (fun shown => DeletedResult ("Event deleted successfully: " +:+ shown) (Str E))
            (ToString (title e)),
          take i events ++ drop (S i) events)
    /\ length (take i events ++ drop (S i) events) = pred (length events)
    /\ (forall x, x ∈ events -> id x <> E -> x ∈ take i events ++ drop (S i) events)
    /\ (NoDup (ids events) -> E ∉ ids (take i events ++ drop (S i) events)).
Proof.
  intros Hid Hin.
  assert (nullish args = false) as Hn by (apply (field_defined args "event_id"); congruence).
  destruct (first_with_id events E Hin) as (i & e & Hi & He & HE & Hfirst).
  rewrite <- Hid in Hi.
  exists i, e. do 3 (split; [assumption|]).
  rewrite <- delete_take_drop. split; [|split; [|split]].
  - rewrite (deleteEvent_found args events i e Hn Hi He). now rewrite Hid.
  - rewrite length_delete by (rewrite He; eauto). lia.
  - intros x Hx Hne. apply list_elem_of_lookup in Hx as [j Hj].
    destruct (decide (j = i)) as [->|Hji]; [congruence|].
    apply list_elem_of_lookup.
    destruct (decide (j < i)%nat) as [Hlt|Hge].
    + exists j. now rewrite list_lookup_delete_lt by assumption.
    + exists (pred j). rewrite list_lookup_delete_ge by lia.
      replace (S (pred j)) with j by lia. assumption.
  - intros Hnd. unfold ids. rewrite list_fmap_delete.
    apply NoDup_delete_lookup; [assumption|]. rewrite list_lookup_fmap, He. simpl.
    now rewrite HE.
Qed.

(** X9. [update_event] followed by [get_event]: an update of the stored
    id [E] leaves the store with the same length and the same ids in the same
    order, and a [get_event] for [E] then finds the updated event. Each of
    the two calls returns that event, or throws the [TypeError] of the
    conversion when its title cannot be converted to a string. *)
Theorem updated_event_can_be_read env args (events : Store) E :
  field args "event_id" = Str E ->
  E ∈ ids events ->
  exists e' events',
    updateEvent env args events
    = (cmap (fun shown => EventResult ("Event updated successfully: " +:+ shown) e')
         (ToString (title e')),
       events')
    /\ ids events' = ids events
    /\ length events' = length events
    /\ updated_at e' = Some (now env)
    /\ forall args',
         field args' "event_id" = Str E ->
         getEvent args' events'
         = (cmap (fun shown => EventResult ("Event details for: " +:+ shown) e')
              (ToString (title e')),
            events').
Proof.
  intros Hid Hin.
  assert (nullish args = false) as Hn by (apply (field_defined args "event_id"); congruence).
  destruct (first_with_id events E Hin) as (i & e & Hi & He & HE & Hfirst).
  pose proof Hi as Hi'. rewrite <- Hid in Hi'.
  pose proof (updateEvent_found env args events i e Hn Hi' He) as Hrun. simpl in Hrun.
  do 2 eexists. split; [exact Hrun|]. split; [|split; [|split]].
  - unfold ids. rewrite list_fmap_insert. simpl. apply list_insert_id.
    now rewrite list_lookup_fmap, He.
  - apply length_insert.
  - reflexivity.
  - intros args' Hid'.
    assert (nullish args' = false) as Hn'
      by (apply (field_defined args' "event_id"); congruence).
    apply getEvent_found; [assumption|]. rewrite Hid'.
    apply find_insert_first; [assumption|]. simpl. rewrite HE. apply strict_eq_str_refl.
Qed.

(** *** Edge cases of listing and searching *)

(** X10. A negative [limit] is not refused: when the bounds, and with a
    bound the stored start times, can be converted, [list_events] drops that
    many events from the end of the filtered sequence and returns the rest
    (with [limit: -1], all but the last). *)
Theorem list_events_negative_limit args (events : Store) k :
  nullish args = false ->
  field args "limit" = Num k ->
  (k < 0)%Z ->
  converts (field args "start_date") = true ->
  converts (field args "end_date") = true ->
  (truthy (field args "start_date") = true \/ truthy (field args "end_date") = true ->
   forall e, e ∈ events -> converts (start_time e) = true) ->
  let passing :=
    List.filter (in_window (field args "start_date") (field args "end_date")) events in
  exists text,
    listEvents args events
    = (Normal (EventsResult text (take (length passing - Z.to_nat (- k)) passing)), events).
Proof.
  intros Hn Hk Hneg Hcs Hce Hst passing.
  pose proof (listEvents_returns args events Hn Hcs Hce Hst) as Hrun. fold passing in Hrun.
  rewrite Hk in Hrun. rewrite or_else_truthy in Hrun
    by (simpl; apply negb_true_iff, Z.eqb_neq; lia).
  unfold slice0 in Hrun. simpl in Hrun.
  apply Z.ltb_lt in Hneg as Hltb. rewrite Hltb in Hrun.
  replace (Z.to_nat (Z.max (Z.of_nat (length passing) + k) 0))
    with (length passing - Z.to_nat (- k))%nat in Hrun by lia.
  eexists. exact Hrun.
Qed.

(** X11. An unparseable date bound is not an error: when the bounds, the
    limit and the stored start times can be converted, and [start_date] or
    [end_date] is truthy but denotes no instant, [list_events] succeeds with
    an empty list, whatever the store holds. *)
Theorem list_events_invalid_bound args (events : Store) :
  nullish args = false ->
  converts (field args "start_date") = true ->
  converts (field args "end_date") = true ->
  converts (field args "limit") = true ->
  (forall e, e ∈ events -> converts (start_time e) = true) ->
  (truthy (field args "start_date") = true /\ instant (field args "start_date") = None)
    \/ (truthy (field args "end_date") = true /\ instant (field args "end_date") = None) ->
  listEvents args events = (Normal (EventsResult "Found 0 events" []), events).
Proof.
  intros Hn Hcs Hce Hcl Hst Hbad.
  assert (List.filter (in_window (field args "start_date") (field args "end_date")) events = [])
    as Hnone.
  { clear Hst. induction events as [|e rest IH]; simpl; [reflexivity|].
    assert (in_window (field args "start_date") (field args "end_date") e = false) as ->; [|exact IH].
    unfold in_window. destruct Hbad as [[Ht Hd]|[Ht Hd]]; rewrite Ht, Hd.
    - unfold date_ge. now destruct (instant (start_time e)).
    - unfold date_le. destruct (instant (start_time e)); apply andb_false_r. }
  rewrite (listEvents_returns args events Hn Hcs Hce (fun _ => Hst)), Hnone.
  destruct (limit_take (@nil Event) (field args "limit") Hcl) as (n & -> & _).
  simpl. now rewrite take_nil.
Qed.

(** X12. A [search_events] whose [query] is missing or is not a string
    throws a [TypeError], stored events or not, and changes nothing. *)
Theorem search_events_needs_string_query args (events : Store) :
  nullish args = false ->
  (forall q, field args "query" <> Str q) ->
  exists msg, searchEvents args events = (Throw (TypeError msg), events).
Proof.
  intros Hn Hq. unfold searchEvents. eff_unfold. read_args Hn.
  destruct (field args "query") as [| | | |q| |]; try (eexists; reflexivity).
  now contradiction (Hq q).
Qed.

Lemma includes_empty s : includes s "" = true.
Proof. destruct s; reflexivity. Qed.

(** X13. The empty query matches everything: on a store of string titles
    and descriptions, [search_events] with [query] the empty string and a
    [limit] that can be converted returns the first [n] stored events, [n]
    being the limit in force. *)
Theorem search_events_empty_query args (events : Store) :
  field args "query" = Str "" ->
  (forall e, e ∈ events -> exists t d, title e = Str t /\ description e = Str d) ->
  converts (field args "limit") = true ->
  exists n text,
    searchEvents args events = (Normal (EventsResult text (take n events)), events)
    /\ (forall k, field args "limit" = Num k -> (0 < k)%Z -> n = Z.to_nat k)
    /\ (truthy (field args "limit") = false -> n = 10%nat).
Proof.
  intros Hq Hstr Hcl.
  pose proof (searchEvents_returns args events "" Hq Hstr) as Hrun.
  assert (List.filter (mentions "") events = events) as Hall.
  { clear Hrun. induction events as [|e rest IH]; simpl; [reflexivity|].
    destruct (Hstr e) as (t & d & Ht & Hd); [now left|].
    assert (mentions "" e = true) as ->.
    { unfold mentions, contains_ci. rewrite Ht, Hd.
      rewrite (toLowerCase_ascii "") by reflexivity. simpl. now rewrite includes_empty. }
    f_equal. apply IH. intros x Hx. apply Hstr. now right. }
  rewrite Hall in Hrun.
  destruct (limit_take events (field args "limit") Hcl) as (n & Hslice & Hnum & Hdefault).
  rewrite Hslice in Hrun. simpl in Hrun. exists n. eexists. split; [exact Hrun|]. now split.
Qed.

Lemma filterC_bad_title q (events : Store) e :
  e ∈ events -> (forall t, title e <> Str t) ->
  exists msg, filterC (matches q) events = Throw (TypeError msg).
Proof.
  intros He Hbad. induction events as [|x rest IH]; [inversion He|]. simpl.
  destruct (matches q x) as [b|err] eqn:Hm.
  - apply elem_of_cons in He as [->|He].
    + exfalso. unfold matches in Hm. destruct (title x) as [| | | |t| |]; try discriminate.
      now contradiction (Hbad t).
    + destruct (IH He) as [msg ->]. eauto.
  - destruct (matches_throws q x err Hm) as [msg ->]. eauto.
Qed.

(** X14. One stored event whose title is not a string (the event a
    [create_event] without [title] stores, for one) makes every
    [search_events] with a string query throw a [TypeError]. *)
Theorem search_events_breaks_on_untitled_event args (events : Store) q e :
  field args "query" = Str q ->
  e ∈ events ->
  (forall t, title e <> Str t) ->
  exists msg, searchEvents args events = (Throw (TypeError msg), events).
Proof.
  intros Hq He Hbad.
  assert (nullish args = false) as Hn by (apply (field_defined args "query"); congruence).
  destruct (filterC_bad_title (toLowerCase q) events e He Hbad) as [msg Hthrow].
  exists msg. unfold searchEvents. eff_unfold. read_args Hn. rewrite Hq. simpl.
  now rewrite Hthrow.
Qed.

(** *** Timestamps over a run *)

Lemma well_stamped_mono t t' (events : Store) :
  (t <= t')%Z -> well_stamped t events -> well_stamped t' events.
Proof.
  intros Hle Hw e He. destruct (Hw e He) as [Hc Hu]. split; [lia|].
  intros u Hup. specialize (Hu u Hup). lia.
Qed.

Lemma effect_well_stamped env create (events events' : Store) :
  Effect env create events events' ->
  well_stamped (now env) events -> well_stamped (now env) events'.
Proof.
  intros Heff Hw. destruct Heff as [|e Hc Hid Hcr Hup|i e e' He Hid Hcr Hup|i].
  - assumption.
  - intros x Hx. apply elem_of_app in Hx as [Hx|Hx]; [now apply Hw|].
    apply list_elem_of_singleton in Hx as ->. rewrite Hcr, Hup. split; [lia|discriminate].
  - intros x Hx. apply list_elem_of_lookup in Hx as [j Hj].
    destruct (decide (i = j)) as [->|Hne].
    + rewrite list_lookup_insert_eq in Hj by (now apply lookup_lt_Some in He).
      injection Hj as <-. rewrite Hcr, Hup. apply list_elem_of_lookup_2 in He.
      destruct (Hw e He) as [Hc _]. split; [assumption|]. intros u [= <-]. lia.
    + rewrite list_lookup_insert_ne in Hj by assumption.
      apply Hw. now apply list_elem_of_lookup_2 in Hj.
  - intros x Hx. apply Hw. eapply elem_of_sublist; [exact Hx|]. apply sublist_delete.
Qed.

Lemma run_well_stamped calls t (events : Store) :
  StronglySorted Z.le (t :: readings calls) ->
  well_stamped t events ->
  exists t', well_stamped t' (run calls events).
Proof.
  revert t events. induction calls as [|c rest IH]; simpl; intros t events Hsorted Hw.
  - eauto.
  - apply StronglySorted_inv in Hsorted as [Hrest Hall].
    apply (IH (now (call_env c))); [exact Hrest|].
    apply (effect_well_stamped _ _ _ _ (step_effect c events)).
    apply (well_stamped_mono t); [|assumption].
    apply Forall_cons in Hall as [Hle _]. exact Hle.
Qed.

(** X15. As long as the clock readings handed to the calls never
    decrease, every event in a store reached from the empty store was
    updated, if at all, no earlier than it was created. *)
Theorem updated_at_never_precedes_created_at calls :
  StronglySorted Z.le (readings calls) ->
  forall e u,
    e ∈ run calls [] -> updated_at e = Some u -> (created_at e <= u)%Z.
Proof.
  intros Hsorted e u He Hu.
  assert (exists t, well_stamped t (run calls [])) as [t Hw].
  { destruct calls as [|c rest].
    - exists 0%Z. intros x Hx. inversion Hx.
    - simpl in *. apply (run_well_stamped rest (now (call_env c))); [exact Hsorted|].
      apply (effect_well_stamped _ _ _ _ (step_effect c [])).
      intros x Hx. inversion Hx. }
  destruct (Hw e He) as [_ Hup]. specialize (Hup u Hu). lia.
Qed.

End Facts.

(** *** [GET /info] *)

Section Info.
Context `{Runtime}.

(** X16. [GET /info] reports the number of stored events, and in a store
    reached from the empty store that number never exceeds the number of
    [create_event] calls made. *)
Theorem info_counts_stored_events calls :
  MemoryRoutes.events_count (MemoryRoutes.info (run calls [])) = length (run calls [])
  /\ (MemoryRoutes.events_count (MemoryRoutes.info (run calls []))
      <= length (List.filter is_create calls))%nat.
Proof.
  split; [reflexivity|]. simpl.
  pose proof (run_ids calls []) as Hsub. apply sublist_length in Hsub.
  unfold ids, drawn in Hsub. simpl in Hsub. now rewrite !length_fmap in Hsub.
Qed.

End Info.
End MemoryMore.


(** ** More on the Google Calendar server *)

Module GoogleMore.
Import JS JsonRpc Eff Google JSFacts Laws LawFacts GoogleFacts.

Section Facts.
Context `{Runtime} `{Provider}.
Variable env : ProcessEnv.

(** *** What a handler throws *)

Lemma Throws_try_rethrow {A} (P : JSError -> Prop) prefix (m : M State A) :
  (forall msg, P (Error (prefix +:+ msg))) -> Throws P (try_rethrow prefix m).
Proof.
  intros HP s e s' Hrun. unfold try_rethrow in Hrun.
  destruct (m s) as [[a|e0] s0]; [discriminate|]. injection Hrun as <- _. apply HP.
Qed.

Lemma isAuthenticated_state (s : State) : snd (isAuthenticated s) = s.
Proof.
  unfold isAuthenticated. eff_unfold.
  destruct (get (userTokens s) "access_token") as [a|e]; [|reflexivity].
  destruct (truthy a); [|reflexivity]. now destruct (get (userTokens s) "refresh_token").
Qed.

Lemma isAuthenticated_throws : Throws not_unknown_tool isAuthenticated.
Proof.
  unfold isAuthenticated. apply Throws_bind; [apply Throws_read|]. intros s.
  apply Throws_bind; [apply MemoryMore.lift_get_throws|]. intros a.
  destruct (truthy a); [apply MemoryMore.lift_get_throws|apply Throws_ret].
Qed.

Lemma getCalendarClient_throws : Throws not_unknown_tool getCalendarClient.
Proof.
  unfold getCalendarClient. apply Throws_bind; [apply isAuthenticated_throws|]. intros auth.
  destruct (negb (truthy auth)); [|apply Throws_ret].
  apply Throws_throw. intros rest. discriminate.
Qed.

(** *** Tools and credentials *)

Lemma getCalendarClient_refuses (s : State) :
  nullish (userTokens s) = false ->
  truthy (field (userTokens s) "access_token") = false
    \/ truthy (field (userTokens s) "refresh_token") = false ->
  getCalendarClient s
  = (Throw (Error "User not authenticated. Please authenticate first."), s).
Proof.
  intros Hn Hmissing. destruct (not_authenticated s Hn Hmissing) as (auth & Hauth & Hfalsy).
  unfold getCalendarClient. eff_unfold. now rewrite Hauth, Hfalsy.
Qed.

(** X18. Every tool checks the credentials itself, before it looks at its
    arguments: called while a token is missing, each of the seven listed
    tools throws "User not authenticated. Please authenticate first." and
    leaves the state, the provider untouched, as it was. *)
Theorem tools_refuse_without_credentials name_ args (s : State) :
  name_ ∈ map JsonRpc.name TOOLS ->
  nullish (userTokens s) = false ->
  truthy (field (userTokens s) "access_token") = false
    \/ truthy (field (userTokens s) "refresh_token") = false ->
  handleToolCall (Obj [("name", Str name_); ("arguments", args)]) s
  = (Throw (Error "User not authenticated. Please authenticate first."), s).
Proof.
  intros Hname Hn Hmissing. pose proof (getCalendarClient_refuses s Hn Hmissing) as Hrefuse.
  unfold handleToolCall. eff_unfold. simpl in *.
  repeat (apply elem_of_cons in Hname as [->|Hname]); [| | | | | | |inversion Hname]; simpl.
  - unfold createEvent. eff_unfold. now rewrite Hrefuse.
  - unfold listEvents. eff_unfold. now rewrite Hrefuse.
  - unfold getEvent. eff_unfold. now rewrite Hrefuse.
  - unfold updateEvent. eff_unfold. now rewrite Hrefuse.
  - unfold deleteEvent. eff_unfold. now rewrite Hrefuse.
  - unfold listCalendars. eff_unfold. now rewrite Hrefuse.
  - unfold searchEvents. eff_unfold. now rewrite Hrefuse.
Qed.

(** *** Reading before writing *)

(** X19. [delete_event] reads the event before it deletes it: with
    credentials stored, it first sends an [events.get] for the calendar and
    the event id; when that throws, no [events.delete] is sent and the tool
    throws "Failed to delete event: ..." with the provider's message; a
    result is returned only after exactly the two requests, the get and then
    the delete of the same event. *)
Theorem delete_event_reads_before_deleting args (s : State) :
  nullish args = false ->
  nullish (userTokens s) = false ->
  truthy (field (userTokens s) "access_token") = true ->
  truthy (field (userTokens s) "refresh_token") = true ->
  let calendarId := or_else (field args "calendar_id") (Str "primary") in
  let lookup := (events_get, Obj [("calendarId", calendarId); ("eventId", field args "event_id")]) in
  let removal :=
    (events_delete,
     Obj [("calendarId", calendarId); ("eventId", field args "event_id");
          ("sendNotifications", Boolean true)]) in
  let s' := snd (deleteEvent args s) in
  (requests s' = requests s ++ [lookup] \/ requests s' = requests s ++ [lookup; removal])
  /\ (forall e,
        fst (api (userTokens s) (fst lookup) (snd lookup) (world s)) = Throw e ->
        requests s' = requests s ++ [lookup]
        /\ fst (deleteEvent args s) = Throw (Error ("Failed to delete event: " +:+ message e)))
  /\ (forall r,
        fst (deleteEvent args s) = Normal r ->
        requests s' = requests s ++ [lookup; removal]
        /\ exists text, r = DeletedResult text (field args "event_id")).
Proof.
  intros Hn Hnt Ha Hr calendarId lookup removal.
  pose proof (getCalendarClient_authenticated s Hnt Ha Hr) as Hclient.
  unfold deleteEvent, try_rethrow. eff_unfold. rewrite Hclient. read_args Hn.
  fold calendarId. unfold calendar. simpl.
  destruct (api (userTokens s) events_get
              (Obj [("calendarId", calendarId); ("eventId", field args "event_id")]) (world s))
    as [[found|e] w1]; simpl.
  - destruct (api _ events_delete _ w1) as [[done|e] w2]; simpl.
    + destruct (ToString (assoc "summary" found)) as [shown|e]; simpl;
        rewrite <- app_assoc; simpl; (split; [now right|]); (split; [discriminate|]).
      * intros r [= <-]. split; [reflexivity|]. eauto.
      * discriminate.
    + rewrite <- app_assoc. simpl. split; [now right|]. split; discriminate.
  - split; [now left|]. split; [|discriminate]. intros e' [= <-]. now split.
Qed.

Lemma assoc_set_prop_eq k x props : assoc k (set_prop k x props) = x.
Proof.
  induction props as [|[k0 v0] rest IH]; simpl.
  - now rewrite String.eqb_refl.
  - destruct (String.eqb_spec k k0) as [->|Hne]; simpl.
    + now rewrite String.eqb_refl.
    + destruct (String.eqb_spec k k0); [contradiction|assumption].
Qed.

Lemma assoc_set_if_defined_ne k k' v x props :
  k <> k' -> assoc k (set_if_defined k' v x props) = assoc k props.
Proof.
  intros Hne. unfold set_if_defined. destruct v; try reflexivity;
    now apply assoc_set_prop_ne.
Qed.

Lemma assoc_set_if_defined_eq k v x props :
  assoc k (set_if_defined k v x props)
  = match v with Undefined => assoc k props | _ => x end.
Proof. unfold set_if_defined. destruct v; try reflexivity; apply assoc_set_prop_eq. Qed.

(** X20. [update_event] is a read, a merge and a write: with credentials
    stored, when the [events.get] answers with the event [current], the
    [events.update] that follows sends [current] with [summary],
    [description], [location], [start], [end] replaced for exactly those of
    [title], [description], [location], [start_time], [end_time] that the
    arguments supply; every other property of [current] is sent back as it
    was received, and with none of them supplied the event goes back
    unchanged. *)
Theorem update_event_merges_into_current args (s : State) current w1 :
  nullish args = false ->
  field args "attendees" = Undefined ->
  nullish (userTokens s) = false ->
  truthy (field (userTokens s) "access_token") = true ->
  truthy (field (userTokens s) "refresh_token") = true ->
  let calendarId := or_else (field args "calendar_id") (Str "primary") in
  let lookup := Obj [("calendarId", calendarId); ("eventId", field args "event_id")] in
  api (userTokens s) events_get lookup (world s) = (Normal current, w1) ->
  exists resource,
    requests (snd (updateEvent args s))
    = requests s
      ++ [(events_get, lookup);
          (events_update,
           Obj [("calendarId", calendarId); ("eventId", field args "event_id");
                ("resource", Obj resource); ("sendNotifications", Boolean true)])]
    /\ (forall k, k ∉ ["summary"; "description"; "location"; "start"; "end"] ->
                  assoc k resource = assoc k current)
    /\ assoc "summary" resource
       = match field args "title" with Undefined => assoc "summary" current | v => v end
    /\ assoc "description" resource
       = match field args "description" with
         | Undefined => assoc "description" current
         | v => v
         end
    /\ assoc "location" resource
       = match field args "location" with Undefined => assoc "location" current | v => v end
    /\ assoc "start" resource
       = match field args "start_time" with
         | Undefined => assoc "start" current
         | v => Obj [("dateTime", v); ("timeZone", Str "UTC")]
         end
    /\ assoc "end" resource
       = match field args "end_time" with
         | Undefined => assoc "end" current
         | v => Obj [("dateTime", v); ("timeZone", Str "UTC")]
         end
    /\ (field args "title" = Undefined -> field args "description" = Undefined ->
        field args "location" = Undefined -> field args "start_time" = Undefined ->
        field args "end_time" = Undefined -> resource = current).
Proof.
  intros Hn Hatt Hnt Ha Hr calendarId lookup Hget.
  pose proof (getCalendarClient_authenticated s Hnt Ha Hr) as Hclient.
  set (resource :=
         set_if_defined "end" (field args "end_time")
           (Obj [("dateTime", field args "end_time"); ("timeZone", Str "UTC")])
           (set_if_defined "start" (field args "start_time")
              (Obj [("dateTime", field args "start_time"); ("timeZone", Str "UTC")])
              (set_if_defined "location" (field args "location") (field args "location")
                 (set_if_defined "description" (field args "description")
                    (field args "description")
                    (set_if_defined "summary" (field args "title") (field args "title")
                       current))))).
  exists resource. split.
  { unfold updateEvent, try_rethrow. eff_unfold. rewrite Hclient. read_args Hn.
    fold calendarId. fold lookup. unfold calendar at 1. simpl. rewrite Hget. simpl.
    rewrite Hatt. fold resource. unfold calendar. simpl.
    destruct (api _ events_update _ w1) as [[done|e] w2]; simpl;
      [destruct (ToString _)|]; simpl; now rewrite <- app_assoc. }
  split.
  { intros k Hk. unfold resource.
    rewrite !assoc_set_if_defined_ne; [reflexivity|..];
      intros ->; apply Hk; repeat constructor. }
  unfold resource. repeat apply conj.
  - rewrite ?assoc_set_if_defined_ne by discriminate. rewrite assoc_set_if_defined_eq.
    rewrite ?assoc_set_if_defined_ne by discriminate. 
    match goal with |- match ?v with _ => _ end = _ => destruct v end; reflexivity.
  - rewrite ?assoc_set_if_defined_ne by discriminate. rewrite assoc_set_if_defined_eq.
    rewrite ?assoc_set_if_defined_ne by discriminate. 
    match goal with |- match ?v with _ => _ end = _ => destruct v end; reflexivity.
  - rewrite ?assoc_set_if_defined_ne by discriminate. rewrite assoc_set_if_defined_eq.
    rewrite ?assoc_set_if_defined_ne by discriminate. 
    match goal with |- match ?v with _ => _ end = _ => destruct v end; reflexivity.
  - rewrite ?assoc_set_if_defined_ne by discriminate. rewrite assoc_set_if_defined_eq.
    rewrite ?assoc_set_if_defined_ne by discriminate. 
    match goal with |- match ?v with _ => _ end = _ => destruct v end; reflexivity.
  - rewrite assoc_set_if_defined_eq.
    rewrite ?assoc_set_if_defined_ne by discriminate. 
    match goal with |- match ?v with _ => _ end = _ => destruct v end; reflexivity.
  - now intros -> -> -> -> ->.
Qed.

(** *** When the provider fails *)

Lemma calendar_down (s : State) e :
  (forall m params, fst (api (userTokens s) m params (world s)) = Throw e) ->
  forall m params, exists s', calendar m params s = (Throw e, s').
Proof.
  intros Hdown m params. unfold calendar. specialize (Hdown m params).
  destruct (api (userTokens s) m params (world s)) as [c w']. simpl in Hdown. subst c.
  eauto.
Qed.

(** X21. A failure of the provider is reported under the name of the
    operation: with credentials stored, when the provider throws [e] on
    whatever it is asked, each tool throws an [Error] whose message is
    "Failed to <operation>: " followed by the message of [e]. *)
Theorem provider_failure_is_wrapped args (s : State) e :
  nullish args = false ->
  truthy (field args "attendees") = false ->
  nullish (userTokens s) = false ->
  truthy (field (userTokens s) "access_token") = true ->
  truthy (field (userTokens s) "refresh_token") = true ->
  (forall m params, fst (api (userTokens s) m params (world s)) = Throw e) ->
  fst (createEvent args s) = Throw (Error ("Failed to create event: " +:+ message e))
  /\ fst (listEvents args s) = Throw (Error ("Failed to list events: " +:+ message e))
  /\ fst (getEvent args s) = Throw (Error ("Failed to get event: " +:+ message e))
  /\ fst (updateEvent args s) = Throw (Error ("Failed to update event: " +:+ message e))
  /\ fst (deleteEvent args s) = Throw (Error ("Failed to delete event: " +:+ message e))
  /\ fst (listCalendars args s) = Throw (Error ("Failed to list calendars: " +:+ message e))
  /\ fst (searchEvents args s) = Throw (Error ("Failed to search events: " +:+ message e)).
Proof.
  intros Hn Hatt Hnt Ha Hr Hdown.
  pose proof (getCalendarClient_authenticated s Hnt Ha Hr) as Hclient.
  pose proof (calendar_down s e Hdown) as Hcal.
  repeat apply conj.
  - unfold createEvent, try_rethrow. eff_unfold. rewrite Hclient. read_args Hn.
    rewrite Hatt. simpl.
    match goal with |- context [calendar ?m ?p s] => destruct (Hcal m p) as [s' ->] end.
    reflexivity.
  - unfold listEvents, try_rethrow. eff_unfold. rewrite Hclient. read_args Hn.
    match goal with |- context [calendar ?m ?p s] => destruct (Hcal m p) as [s' ->] end.
    reflexivity.
  - unfold getEvent, try_rethrow. eff_unfold. rewrite Hclient. read_args Hn.
    match goal with |- context [calendar ?m ?p s] => destruct (Hcal m p) as [s' ->] end.
    reflexivity.
  - unfold updateEvent, try_rethrow. eff_unfold. rewrite Hclient. read_args Hn.
    match goal with |- context [calendar ?m ?p s] => destruct (Hcal m p) as [s' ->] end.
    reflexivity.
  - unfold deleteEvent, try_rethrow. eff_unfold. rewrite Hclient. read_args Hn.
    match goal with |- context [calendar ?m ?p s] => destruct (Hcal m p) as [s' ->] end.
    reflexivity.
  - unfold listCalendars, try_rethrow. eff_unfold. rewrite Hclient. read_args Hn.
    match goal with |- context [calendar ?m ?p s] => destruct (Hcal m p) as [s' ->] end.
    reflexivity.
  - unfold searchEvents, try_rethrow. eff_unfold. rewrite Hclient. read_args Hn.
    match goal with |- context [calendar ?m ?p s] => destruct (Hcal m p) as [s' ->] end.
    reflexivity.
Qed.

(** *** The registry and the dispatcher *)

Lemma map_emails_throws expr v e : map_emails expr v = Throw e -> is_TypeError e.
Proof. destruct v; simpl; intros [= <-]; eexists; reflexivity. Qed.

Ltac throws_binds :=
  cbv zeta;
  repeat first
    [ apply Throws_ret
    | apply getCalendarClient_throws
    | apply MemoryMore.lift_get_throws
    | apply MemoryMore.lift_ToString_throws
    | apply Throws_lift; intros ? Hthrow;
      eapply MemoryMore.conversion_not_unknown_tool, greater_than_zero_throws, Hthrow
    | apply Throws_try_rethrow; intros msg rest; discriminate
    | apply Throws_lift; intros ? Hthrow;
      eapply TypeError_not_unknown_tool, map_emails_throws, Hthrow
    | apply Throws_bind; [|intros ?; cbv zeta]
    | match goal with
      | |- Throws _ (if ?b then _ else _) => destruct b
      end ].

Lemma tools_throw args :
  Throws not_unknown_tool (createEvent args) /\ Throws not_unknown_tool (listEvents args)
  /\ Throws not_unknown_tool (getEvent args) /\ Throws not_unknown_tool (updateEvent args)
  /\ Throws not_unknown_tool (deleteEvent args)
  /\ Throws not_unknown_tool (listCalendars args)
  /\ Throws not_unknown_tool (searchEvents args).
Proof.
  repeat apply conj.
  - unfold createEvent. throws_binds.
  - unfold listEvents. throws_binds.
  - unfold getEvent. throws_binds.
  - unfold updateEvent. throws_binds.
  - unfold deleteEvent. throws_binds.
  - unfold listCalendars. throws_binds.
  - unfold searchEvents. throws_binds.
Qed.

(** X22. In the Google server too the dispatcher and the catalogue agree:
    [handleToolCall] throws "Unknown tool: <name>" exactly for the names that
    [tools/list] does not list, whatever the credentials and the provider do;
    the seven listed names are pairwise distinct. *)
Theorem google_dispatcher_knows_the_listed_tools name_ args (s : State) :
  NoDup (map JsonRpc.name TOOLS)
  /\ (fst (handleToolCall (Obj [("name", Str name_); ("arguments", args)]) s)
       = Throw (Error ("Unknown tool: " +:+ name_))
      <-> name_ ∉ map JsonRpc.name TOOLS).
Proof.
  split.
  { simpl. repeat (apply NoDup_cons; split;
                   [intros Hin; repeat (apply elem_of_cons in Hin as [Hin|Hin];
                                        [discriminate|]); inversion Hin|]).
    apply NoDup_nil_2. }
  destruct (tools_throw args) as (Hc & Hl & Hg & Hu & Hd & Hlc & Hs).
  assert (forall m : M State ToolResult, Throws not_unknown_tool m ->
                    fst (m s) <> Throw (Error ("Unknown tool: " +:+ name_))) as Hno.
  { intros m Hm Hfst. destruct (m s) as [[r|e] s'] eqn:Hrun; [discriminate|].
    simpl in Hfst. injection Hfst as ->. exact (Hm _ _ _ Hrun name_ eq_refl). }
  unfold handleToolCall. eff_unfold. simpl. split.
  - intros Hthrow Hin.
    repeat (apply elem_of_cons in Hin as [->|Hin]); [| | | | | | |inversion Hin];
      simpl in Hthrow; revert Hthrow; now apply Hno.
  - intros Hout.
    repeat match goal with
           | |- context [String.eqb name_ ?t] =>
               destruct (String.eqb_spec name_ t) as [->|_];
                 [exfalso; apply Hout; simpl; repeat constructor|]
           end.
    reflexivity.
Qed.

(** *** What is sent to the provider *)

(** X23. [create_event] and its [attendees]: with credentials stored, a
    non-empty array of addresses is sent as the array of [{email}] objects, in
    the one [events.insert] request the tool makes; a non-empty string (a
    single address not put in an array) makes the tool throw a [TypeError]
    before anything is sent. *)
Theorem create_event_attendees args (s : State) :
  nullish args = false ->
  nullish (userTokens s) = false ->
  truthy (field (userTokens s) "access_token") = true ->
  truthy (field (userTokens s) "refresh_token") = true ->
  (forall first others,
     field args "attendees" = Arr (first :: others) ->
     exists request,
       requests (snd (createEvent args s)) = requests s ++ [(events_insert, request)]
       /\ field (field request "resource") "attendees"
          = Arr (map (fun email => Obj [("email", email)]) (first :: others))
       /\ field (field request "resource") "summary" = field args "title")
  /\ (forall a,
        field args "attendees" = Str a -> a <> "" ->
        exists msg, createEvent args s = (Throw (TypeError msg), s)).
Proof.
  intros Hn Hnt Ha Hr.
  pose proof (getCalendarClient_authenticated s Hnt Ha Hr) as Hclient. split.
  - intros first others Hatt. eexists.
    unfold createEvent, try_rethrow. eff_unfold. rewrite Hclient. read_args Hn.
    rewrite Hatt. simpl. unfold calendar.
    destruct (api _ _ _ _) as [[data_|e] w']; simpl; [destruct (ToString _)|]; simpl;
      repeat split; reflexivity.
  - intros a Hatt Hne. eexists.
    unfold createEvent. eff_unfold. rewrite Hclient. read_args Hn. rewrite Hatt.
    assert (truthy (Str a) = true) as ->.
    { simpl. apply negb_true_iff. now destruct (String.eqb_spec a ""). }
    assert (greater_than_zero (field (Str a) "length") = Normal true) as ->.
    { unfold field. simpl. destruct a; [contradiction|reflexivity]. }
    reflexivity.
Qed.

(** X24. What [list_events] asks of the provider: with credentials
    stored it sends one [events.list] request, ordered by start time, for the
    calendar [primary] unless a truthy [calendar_id] is given; recurring
    events are expanded unless [single_events] is exactly the boolean false;
    and [timeMin] and [timeMax] are part of the request only for a truthy
    [time_min] and [time_max]. *)
Theorem list_events_request args (s : State) :
  nullish args = false ->
  nullish (userTokens s) = false ->
  truthy (field (userTokens s) "access_token") = true ->
  truthy (field (userTokens s) "refresh_token") = true ->
  exists params,
    requests (snd (listEvents args s)) = requests s ++ [(events_list, Obj params)]
    /\ assoc "calendarId" params = or_else (field args "calendar_id") (Str "primary")
    /\ assoc "orderBy" params = Str "startTime"
    /\ (assoc "singleEvents" params = Boolean false
        <-> field args "single_events" = Boolean false)
    /\ (assoc "singleEvents" params = Boolean true
        <-> field args "single_events" <> Boolean false)
    /\ assoc "timeMin" params
       = (if truthy (field args "time_min") then field args "time_min" else Undefined)
    /\ assoc "timeMax" params
       = (if truthy (field args "time_max") then field args "time_max" else Undefined).
Proof.
  intros Hn Hnt Ha Hr.
  pose proof (getCalendarClient_authenticated s Hnt Ha Hr) as Hclient.
  eexists. split.
  { unfold listEvents, try_rethrow. eff_unfold. rewrite Hclient. read_args Hn.
    unfold calendar.
    destruct (api _ _ _ _) as [[data_|e] w']; simpl; [destruct (ToString _)|]; simpl;
      reflexivity. }
  split; [now rewrite !assoc_set_if_truthy_ne by discriminate|].
  split; [now rewrite !assoc_set_if_truthy_ne by discriminate|].
  split.
  { rewrite !assoc_set_if_truthy_ne by discriminate. simpl.
    destruct (field args "single_events") as [| |[|]| | | |]; split; intros Hx;
      try discriminate Hx; reflexivity. }
  split.
  { rewrite !assoc_set_if_truthy_ne by discriminate. simpl.
    destruct (field args "single_events") as [| |[|]| | | |]; split; intros Hx;
      try discriminate; try reflexivity; now contradiction Hx. }
  split.
  - rewrite assoc_set_if_truthy_ne by discriminate. unfold set_if_truthy.
    destruct (truthy (field args "time_min")); [apply assoc_set_prop_eq|reflexivity].
  - unfold set_if_truthy at 1.
    destruct (truthy (field args "time_max")); [apply assoc_set_prop_eq|].
    unfold set_if_truthy. destruct (truthy (field args "time_min")); reflexivity.
Qed.

(** *** The other routes *)

Lemma isAuthenticated_signed_in (s : State) :
  nullish (userTokens s) = false ->
  truthy (field (userTokens s) "access_token") = true ->
  isAuthenticated s = (Normal (field (userTokens s) "refresh_token"), s).
Proof.
  intros Hn Ha. unfold isAuthenticated. eff_unfold. read_args Hn. rewrite Ha.
  now read_args Hn.
Qed.

(** X25. [GET /health] and [GET /info] send the refresh token: their
    [authenticated] member is the value [isAuthenticated()] returns, and once
    both tokens are stored that value is the refresh token itself, not a
    boolean. *)
Theorem health_and_info_disclose_refresh_token now_ (s : State) :
  nullish (userTokens s) = false ->
  truthy (field (userTokens s) "access_token") = true ->
  truthy (field (userTokens s) "refresh_token") = true ->
  (exists body,
     GoogleRoutes.health now_ s = (Normal body, s)
     /\ GoogleRoutes.health_authenticated body = field (userTokens s) "refresh_token")
  /\ (exists body,
        GoogleRoutes.info env s = (Normal body, s)
        /\ GoogleRoutes.info_authenticated body = field (userTokens s) "refresh_token"
        /\ GoogleRoutes.auth_url body = Null).
Proof.
  intros Hn Ha Hr. pose proof (isAuthenticated_signed_in s Hn Ha) as Hauth.
  split; eexists.
  - unfold GoogleRoutes.health. eff_unfold. rewrite Hauth. split; reflexivity.
  - unfold GoogleRoutes.info. eff_unfold. rewrite !Hauth, Hr. repeat split.
Qed.

(** What the router does with a [tools/call], by the credentials. *)
Lemma tools_call_gate body (s : State) :
  nullish body = false ->
  field body "jsonrpc" = Str "2.0" ->
  field body "method" = Str "tools/call" ->
  nullish (userTokens s) = false ->
  (truthy (field (userTokens s) "access_token") && truthy (field (userTokens s) "refresh_token")
   = false ->
   exists e, error (fst (post_mcp env body s)) = Some e /\ code e = (-32001)%Z)
  /\ (truthy (field (userTokens s) "access_token")
      && truthy (field (userTokens s) "refresh_token") = true ->
      forall e, error (fst (post_mcp env body s)) = Some e -> code e = (-32603)%Z).
Proof.
  intros Hn Hv Hm Hnt. unfold post_mcp, route. eff_unfold.
  assert (destructurable body "jsonrpc" "req.body" = Normal tt) as ->.
  { destruct body; try discriminate; reflexivity. }
  read_args Hn. rewrite Hv, Hm. simpl. fold (@isAuthenticated H0). split.
  - intros Hmissing. apply andb_false_iff in Hmissing.
    destruct (not_authenticated s Hnt Hmissing) as (auth & -> & ->). simpl. eauto.
  - intros Hboth. apply andb_true_iff in Hboth as [Ha Hr].
    rewrite (isAuthenticated_signed_in s Hnt Ha), Hr. simpl.
    destruct (handleToolCall (field body "params") s) as [[r|e0] s']; simpl.
    + discriminate.
    + now intros e [= <-].
Qed.

Section Callback.
Variable getToken : Value -> World -> Completion Value * World.

(** X26. [GET /auth/callback] replaces the stored credentials by the
    tokens of the answer, it does not merge them: after a successful exchange
    the server accepts [tools/call] exactly when the new tokens hold both a
    truthy [access_token] and a truthy [refresh_token], whatever was stored
    before; so an answer without refresh token signs a signed-in server out.
    When the exchange throws, the failure page carries the message and the
    stored credentials stay. *)
Theorem auth_callback_replaces_credentials grant (s : State) :
  (forall e w',
     getToken grant (world s) = (Throw e, w') ->
     fst (GoogleRoutes.auth_callback env getToken grant s)
     = GoogleRoutes.AuthenticationFailed (message e)
     /\ userTokens (snd (GoogleRoutes.auth_callback env getToken grant s)) = userTokens s)
  /\ (forall answer w',
        getToken grant (world s) = (Normal answer, w') ->
        nullish answer = false ->
        let s' := snd (GoogleRoutes.auth_callback env getToken grant s) in
        let tokens := field answer "tokens" in
        fst (GoogleRoutes.auth_callback env getToken grant s)
        = GoogleRoutes.AuthenticationSuccessful
            (PrimitiveToString (BASE_URL env) +:+ "/mcp")
        /\ userTokens s' = tokens
        /\ requests s' = requests s
        /\ forall body,
             nullish body = false ->
             field body "jsonrpc" = Str "2.0" ->
             field body "method" = Str "tools/call" ->
             nullish tokens = false ->
             (truthy (field tokens "access_token") && truthy (field tokens "refresh_token")
              = false ->
              exists e, error (fst (post_mcp env body s')) = Some e /\ code e = (-32001)%Z)
             /\ (truthy (field tokens "access_token")
                 && truthy (field tokens "refresh_token") = true ->
                 forall e, error (fst (post_mcp env body s')) = Some e ->
                           code e <> (-32001)%Z)).
Proof.
  split.
  - intros e w' Hget. unfold GoogleRoutes.auth_callback. rewrite Hget. now split.
  - intros answer w' Hget Hna. unfold GoogleRoutes.auth_callback. rewrite Hget.
    assert (destructurable answer "tokens" "(intermediate value)" = Normal tt) as ->.
    { destruct answer; try discriminate; reflexivity. }
    simpl. do 3 (split; [reflexivity|]).
    intros body Hn Hv Hm Hnt.
    match goal with
    | |- context [post_mcp env body ?st] =>
        destruct (tools_call_gate body st Hn Hv Hm Hnt) as [Hclosed Hopen]
    end.
    split; [exact Hclosed|].
    intros Hboth e He. simpl in Hopen. rewrite (Hopen Hboth e He). discriminate.
Qed.

End Callback.
End Facts.
End GoogleMore.

(** ** The further facts at work on the sample data *)

Module MoreExamples.
Import JS JsonRpc Memory Sample MoreSample.

#[local] Existing Instance Iso.runtime.

Lemma error_response_leaves_store_witness :
  let body := tools_call (Num 1) "update_event" (Obj [("event_id", Str "nope")]) in
  snd (post_mcp at_nine body [standup]) = [standup].
Proof.
  intros body.
  apply (MemoryMore.error_response_leaves_store at_nine body [standup]).
  - intros e He. apply list_elem_of_singleton in He as ->. reflexivity.
  - reflexivity.
  - vm_compute. discriminate.
Defined.

(** A [create_event] with a title that cannot be converted is accepted. *)
Example labelled_is_stored :
  post_mcp at_nine (tools_call (Num 3) "create_event" labelled_args) []
  = ({| jsonrpc := "2.0";
        JsonRpc.id := Num 3;
        result := Some (ResultCall
                          (EventResult
                             "Event created successfully with ID: 6f1c2f0e-3c1b-4b7e-9a57-0d2f5c8e1a11"
                             labelled));
        error := None |},
     [labelled]).
Proof. reflexivity. Qed.

Lemma failed_request_has_written_witness :
  let wanted := Obj [("event_id", Str (uuid at_nine))] in
  let renamed := Obj [("event_id", Str (uuid at_nine)); ("title", Arr [Obj [("toString", Null)]])] in
  let failure :=
    {| jsonrpc := "2.0";
       JsonRpc.id := Num 4;
       result := None;
       error := Some {| code := -32603;
                        error_message := "Internal error";
                        data := Str "Cannot convert object to primitive value" |} |} in
  post_mcp at_ten (tools_call (Num 4) "delete_event" wanted) [labelled; team_meeting]
  = (failure, [team_meeting])
  /\ exists e',
       post_mcp at_ten (tools_call (Num 4) "update_event" renamed) [standup; team_meeting]
       = (failure, [e'; team_meeting])
       /\ title e' = Arr [Obj [("toString", Null)]]
       /\ updated_at e' = Some (now at_ten).
Proof.
  intros wanted renamed failure. split.
  - destruct (MemoryMore.failed_request_has_written at_ten (Num 4) wanted
                [labelled; team_meeting] (uuid at_nine) eq_refl)
      as (i & e & Hi & He & Hdelete & _).
    { apply list_elem_of_In. simpl. left. reflexivity. }
    destruct i as [|[|i]]; simpl in Hi; try discriminate.
    + injection Hi as <-. exact (proj1 (Hdelete eq_refl)).
    + injection Hi as <-. discriminate He.
  - destruct (MemoryMore.failed_request_has_written at_ten (Num 4) renamed
                [standup; team_meeting] (uuid at_nine) eq_refl)
      as (i & e & Hi & He & _ & Hupdate).
    { apply list_elem_of_In. simpl. left. reflexivity. }
    destruct i as [|[|i]]; simpl in Hi; try discriminate.
    + injection Hi as <-. exact (Hupdate eq_refl).
    + injection Hi as <-. discriminate He.
Defined.

Lemma unknown_method_is_not_found_witness :
  let body := Obj [("jsonrpc", Str "2.0"); ("id", Num 5); ("method", Str "resources/list")] in
  post_mcp at_nine body [standup]
  = ({| jsonrpc := "2.0";
        JsonRpc.id := Num 5;
        result := None;
        error := Some {| code := -32601; error_message := "Method not found"; data := Null |} |},
     [standup]).
Proof.
  intros body.
  apply (MemoryMore.unknown_method_is_not_found at_nine body [standup]).
  - reflexivity.
  - reflexivity.
  - intros m Hm. apply list_elem_of_In in Hm. simpl in Hm.
    destruct Hm as [<- | [<- | [<- | [<- | []]]]]; discriminate.
Defined.

Lemma id_is_echoed_verbatim_witness :
  let body := Obj [("jsonrpc", Str "2.0"); ("id", Num 0); ("method", Str "resources/list")] in
  JsonRpc.id (fst (post_mcp at_nine body [standup])) = Num 0.
Proof.
  intros body.
  apply (MemoryMore.id_is_echoed_verbatim at_nine body [standup]).
  intros e He. vm_compute in He. inversion He. vm_compute. discriminate.
Defined.

Lemma created_event_can_be_read_witness :
  exists e text,
    createEvent at_ten team_meeting_args [standup]
    = (Normal (EventResult text e), [standup] ++ [e])
    /\ id e = uuid at_ten
    /\ title e = Str "Team Meeting"
    /\ forall args',
         field args' "event_id" = Str (uuid at_ten) ->
         getEvent args' ([standup] ++ [e])
         = (cmap (fun shown => EventResult ("Event details for: " +:+ shown) e)
              (ToString (title e)),
            [standup] ++ [e]).
Proof.
  apply (MemoryMore.created_event_can_be_read at_ten team_meeting_args [standup]).
  - reflexivity.
  - intros Hin. apply list_elem_of_In in Hin. simpl in Hin.
    destruct Hin as [Hin | []]. discriminate.
Defined.

(** The event just created is read back. *)
Example read_back :
  fst (getEvent (Obj [("event_id", Str (uuid at_ten))]) [standup; team_meeting])
  = Normal (EventResult "Event details for: Team Meeting" team_meeting).
Proof. reflexivity. Qed.

Lemma delete_event_removes_first_match_witness :
  let events := [standup; team_meeting] in
  let E := uuid at_ten in
  let args := Obj [("event_id", Str E)] in
  exists i e,
    events !! i = Some e /\ id e = E
    /\ (forall j x, (j < i)%nat -> events !! j = Some x -> id x <> E)
    /\ deleteEvent args events
       = (cmap (fun shown => DeletedResult ("Event deleted successfully: " +:+ shown) (Str E))
            (ToString (title e)),
          take i events ++ drop (S i) events)
    /\ length (take i events ++ drop (S i) events) = pred (length events)
    /\ (forall x, x ∈ events -> id x <> E -> x ∈ take i events ++ drop (S i) events)
    /\ (NoDup (ids events) -> E ∉ ids (take i events ++ drop (S i) events)).
Proof.
  intros events E args.
  apply (MemoryMore.delete_event_removes_first_match args events E).
  - reflexivity.
  - apply list_elem_of_In. simpl. right. left. reflexivity.
Defined.

(** What that call returns and leaves. *)
Example delete_meeting :
  deleteEvent (Obj [("event_id", Str (uuid at_ten))]) [standup; team_meeting]
  = (Normal (DeletedResult "Event deleted successfully: Team Meeting" (Str (uuid at_ten))),
     [standup]).
Proof. reflexivity. Qed.

Lemma updated_event_can_be_read_witness :
  let events := [standup; team_meeting] in
  let E := uuid at_nine in
  let args := Obj [("event_id", Str E); ("location", Str "Room B")] in
  exists e' events',
    updateEvent at_eleven args events
    = (cmap (fun shown => EventResult ("Event updated successfully: " +:+ shown) e')
         (ToString (title e')),
       events')
    /\ ids events' = ids events
    /\ length events' = length events
    /\ updated_at e' = Some (now at_eleven)
    /\ forall args',
         field args' "event_id" = Str E ->
         getEvent args' events'
         = (cmap (fun shown => EventResult ("Event details for: " +:+ shown) e')
              (ToString (title e')),
            events').
Proof.
  intros events E args.
  apply (MemoryMore.updated_event_can_be_read at_eleven args events E).
  - reflexivity.
  - apply list_elem_of_In. simpl. left. reflexivity.
Defined.

Lemma list_events_negative_limit_witness :
  exists text,
    listEvents (Obj [("limit", Num (-1))]) [standup; team_meeting]
    = (Normal (EventsResult text [standup]), [standup; team_meeting]).
Proof.
  apply (MemoryMore.list_events_negative_limit
           (Obj [("limit", Num (-1))]) [standup; team_meeting] (-1)).
  - reflexivity.
  - reflexivity.
  - reflexivity.
  - reflexivity.
  - reflexivity.
  - intros [Ht|Ht]; discriminate.
Defined.

Lemma list_events_invalid_bound_witness :
  listEvents (Obj [("start_date", Str "tomorrow")]) [standup; team_meeting]
  = (Normal (EventsResult "Found 0 events" []), [standup; team_meeting]).
Proof.
  apply (MemoryMore.list_events_invalid_bound
           (Obj [("start_date", Str "tomorrow")]) [standup; team_meeting]).
  - reflexivity.
  - reflexivity.
  - reflexivity.
  - reflexivity.
  - intros e He. apply elem_of_cons in He as [->|He]; [reflexivity|].
    apply list_elem_of_singleton in He as ->. reflexivity.
  - left. split; reflexivity.
Defined.

Lemma search_events_needs_string_query_witness :
  exists msg,
    searchEvents (Obj [("query", Num 2024)]) [standup]
    = (Throw (TypeError msg), [standup]).
Proof.
  apply (MemoryMore.search_events_needs_string_query (Obj [("query", Num 2024)]) [standup]).
  - reflexivity.
  - intros q. simpl. discriminate.
Defined.

Lemma search_events_empty_query_witness :
  let args := Obj [("query", Str "")] in
  let events := [standup; team_meeting] in
  exists n text,
    searchEvents args events = (Normal (EventsResult text (take n events)), events)
    /\ (forall k, field args "limit" = Num k -> (0 < k)%Z -> n = Z.to_nat k)
    /\ (truthy (field args "limit") = false -> n = 10%nat).
Proof.
  intros args events.
  apply (MemoryMore.search_events_empty_query args events).
  - reflexivity.
  - intros e He. apply list_elem_of_In in He. simpl in He.
    destruct He as [<- | [<- | []]]; eexists; eexists; split; reflexivity.
  - reflexivity.
Defined.

Lemma search_events_breaks_on_untitled_event_witness :
  exists msg,
    searchEvents (Obj [("query", Str "meeting")]) [team_meeting; untitled]
    = (Throw (TypeError msg), [team_meeting; untitled]).
Proof.
  apply (MemoryMore.search_events_breaks_on_untitled_event
           (Obj [("query", Str "meeting")]) [team_meeting; untitled] "meeting" untitled).
  - reflexivity.
  - apply list_elem_of_In. simpl. right. left. reflexivity.
  - intros t. simpl. discriminate.
Defined.

Lemma updated_at_never_precedes_created_at_witness :
  exists e u,
    e ∈ run morning [] /\ updated_at e = Some u /\ (created_at e <= u)%Z.
Proof.
  assert (Hclock : StronglySorted Z.le (Laws.readings morning)).
  { vm_compute. repeat constructor; discriminate. }
  assert (Hin : exists e, e ∈ run morning [] /\ updated_at e = Some (now at_eleven)).
  { eexists. split; [apply list_elem_of_In; simpl; left; reflexivity | reflexivity]. }
  destruct Hin as (e & Hin & Hu).
  exists e, (now at_eleven). split; [exact Hin | split; [exact Hu |]].
  exact (MemoryMore.updated_at_never_precedes_created_at morning Hclock e (now at_eleven) Hin Hu).
Defined.

Lemma tools_refuse_without_credentials_witness :
  let params := Obj [("name", Str "get_event"); ("arguments", Obj [("event_id", Str "evt1")])] in
  Google.handleToolCall params signed_out
  = (Throw (Error "User not authenticated. Please authenticate first."), signed_out).
Proof.
  intros params.
  apply (GoogleMore.tools_refuse_without_credentials
           "get_event" (Obj [("event_id", Str "evt1")]) signed_out).
  - apply list_elem_of_In. simpl. right. right. left. reflexivity.
  - reflexivity.
  - left. reflexivity.
Defined.

Lemma delete_event_reads_before_deleting_witness :
  let args := Obj [("event_id", Str "evt1")] in
  let target := [("calendarId", Str "primary"); ("eventId", Str "evt1")] in
  Google.requests (snd (Google.deleteEvent args signed_in))
  = [(Google.events_get, Obj target);
     (Google.events_delete, Obj (target ++ [("sendNotifications", Boolean true)]))].
Proof.
  intros args target.
  destruct (GoogleMore.delete_event_reads_before_deleting args signed_in
              eq_refl eq_refl eq_refl eq_refl) as (_ & _ & Hresult).
  destruct (Hresult _ eq_refl) as [Hrequests _].
  exact Hrequests.
Defined.

Lemma update_event_merges_into_current_witness :
  let args := Obj [("event_id", Str "evt1"); ("title", Str "Renamed")] in
  let target := [("calendarId", Str "primary"); ("eventId", Str "evt1")] in
  exists resource,
    Google.requests (snd (Google.updateEvent args signed_in))
    = [(Google.events_get, Obj target);
       (Google.events_update,
        Obj (target ++ [("resource", Obj resource); ("sendNotifications", Boolean true)]))]
    /\ assoc "summary" resource = Str "Renamed"
    /\ assoc "items" resource = Arr [].
Proof.
  intros args target.
  destruct (GoogleMore.update_event_merges_into_current args signed_in
              [("items", Arr [])] tt eq_refl eq_refl eq_refl eq_refl eq_refl eq_refl)
    as (resource & Hrequests & Hother & Hsummary & _).
  exists resource. split; [exact Hrequests | split; [exact Hsummary |]].
  apply Hother. intros Hin. apply list_elem_of_In in Hin. simpl in Hin.
  destruct Hin as [Hin | [Hin | [Hin | [Hin | [Hin | []]]]]]; discriminate.
Defined.

Lemma provider_failure_is_wrapped_witness :
  let args := Obj [("event_id", Str "evt1")] in
  let s := signed_in_down in
  fst (Google.createEvent args s)
  = Throw (Error "Failed to create event: The service is currently unavailable.")
  /\ fst (Google.listEvents args s)
     = Throw (Error "Failed to list events: The service is currently unavailable.")
  /\ fst (Google.getEvent args s)
     = Throw (Error "Failed to get event: The service is currently unavailable.")
  /\ fst (Google.updateEvent args s)
     = Throw (Error "Failed to update event: The service is currently unavailable.")
  /\ fst (Google.deleteEvent args s)
     = Throw (Error "Failed to delete event: The service is currently unavailable.")
  /\ fst (Google.listCalendars args s)
     = Throw (Error "Failed to list calendars: The service is currently unavailable.")
  /\ fst (Google.searchEvents args s)
     = Throw (Error "Failed to search events: The service is currently unavailable.").
Proof.
  intros args s.
  apply (@GoogleMore.provider_failure_is_wrapped Iso.runtime down args s
           (Error "The service is currently unavailable.")).
  - reflexivity.
  - reflexivity.
  - reflexivity.
  - reflexivity.
  - reflexivity.
  - intros m params. reflexivity.
Defined.

Lemma create_event_attendees_witness :
  let args := Obj [("title", Str "Planning"); ("attendees", Arr [Str "ana@example.com"])] in
  exists request,
    Google.requests (snd (Google.createEvent args signed_in)) = [(Google.events_insert, request)]
    /\ field (field request "resource") "attendees" = Arr [Obj [("email", Str "ana@example.com")]]
    /\ field (field request "resource") "summary" = Str "Planning".
Proof.
  intros args.
  exact (proj1 (GoogleMore.create_event_attendees args signed_in
                  eq_refl eq_refl eq_refl eq_refl)
           (Str "ana@example.com") [] eq_refl).
Defined.

Lemma list_events_request_witness :
  let args := Obj [("time_min", Str "2024-01-15T00:00:00Z"); ("single_events", Boolean false)] in
  exists params,
    Google.requests (snd (Google.listEvents args signed_in)) = [(Google.events_list, Obj params)]
    /\ assoc "calendarId" params = Str "primary"
    /\ assoc "orderBy" params = Str "startTime"
    /\ (assoc "singleEvents" params = Boolean false
        <-> field args "single_events" = Boolean false)
    /\ (assoc "singleEvents" params = Boolean true
        <-> field args "single_events" <> Boolean false)
    /\ assoc "timeMin" params = Str "2024-01-15T00:00:00Z"
    /\ assoc "timeMax" params = Undefined.
Proof.
  intros args.
  exact (GoogleMore.list_events_request args signed_in eq_refl eq_refl eq_refl eq_refl).
Defined.

Lemma health_and_info_disclose_refresh_token_witness :
  (exists body,
     GoogleRoutes.health (now at_nine) signed_in = (Normal body, signed_in)
     /\ GoogleRoutes.health_authenticated body = Str "1//0g")
  /\ (exists body,
        GoogleRoutes.info local_env signed_in = (Normal body, signed_in)
        /\ GoogleRoutes.info_authenticated body = Str "1//0g"
        /\ GoogleRoutes.auth_url body = Null).
Proof.
  exact (GoogleMore.health_and_info_disclose_refresh_token local_env (now at_nine) signed_in
           eq_refl eq_refl eq_refl).
Defined.

End MoreExamples.
